(** * BugPlatformEnv: a shallow embedding of the platformer's step simulation

    The development follows [bug_platform_env.py] (preset v0) and
    [bug_platform_env_v1.py] (preset v1).  The two files are the same program
    up to a handful of constants and three code differences (the vertical
    extent used against the wall, the [not self.is_jumping] guard of the idle
    penalty, the stagnation window); they are embedded once, over a record
    [Preset] that carries exactly those differences.

    Numbers.  The program computes with Python floats and stores the physics
    state in a float32 array.  The first part of the development takes every
    number as an exact rational ([Q]): arithmetic does not round, and the
    float32 store is the identity on values (it only puts the fraction in
    lowest terms).  What is proved there is the behaviour of the program's
    branching and arithmetic over exact numbers.  Where a statement is about
    the position after many steps, rounding matters; the part on the motion
    under rounded arithmetic follows [step] with a rounding at every
    operation, and the statements about walking are proved there for every
    rounding within the relative error of the floating-point formats.

    Integers ([steps], [jump_cooldown], [prev_jump], the two components of an
    action) are Python ints and are embedded as [Z]. *)

From Stdlib Require Import List ZArith QArith Qabs Qminmax Qreduction Qround Bool Lia Lqa.
From Stdlib Require String.
Import String.StringSyntax.
Import ListNotations.

Delimit Scope string_scope with string.
Open Scope Q_scope.

(** ** Comparisons on numbers, as booleans *)

Definition Qltb (a b : Q) : bool := negb (Qle_bool b a).
Definition Qleb (a b : Q) : bool := Qle_bool a b.

(** [np.array(..., dtype=np.float32)]: value-preserving in this model. *)
Definition float32 (q : Q) : Q := Qred q.

(** ** Errors *)

Inductive exn := TypeError.

Inductive result (A : Type) :=
| Ok (a : A)
| Raise (e : exn).
Arguments Ok {A} a.
Arguments Raise {A} e.

(** ** Constants of an environment ([__init__]) *)

Record Preset := {
  speed_factor : Q;
  jump_cooldown_max : Z;
  player_width : Q;
  player_height : Q;
  (** the vertical extent tested against the wall: [player_height] in v0,
      [hitbox_height = player_height / 6] in v1 *)
  hitbox_height : Q;
  dt : Q;
  max_steps : Z;
  gravity : Q;
  move_speed : Q;
  jump_speed : Q;
  start_x : Q;
  start_y : Q;
  flag_x : Q;
  flag_y : Q;
  wall_x : Q;
  wall_width : Q;
  wall_height : Q;
  bug_gap_y_min : Q;
  bug_gap_y_max : Q;
  platform_thickness : Q;
  platforms : list (Q * Q * Q);
  (** literals of [step] that differ between the two files *)
  jump_held_penalty : Q;        (* reward -= 0.02 | 0.01 when jump == 1 *)
  ascent_divisor : Q;           (* (y_new - y) / 5 | 10 *)
  idle_checks_jumping : bool;   (* [and not self.is_jumping] present | absent *)
  low_jump_penalty : Q;         (* reward -= 1.0 | 0.4 *)
  (** [stagnation_window], [stagnation_threshhold]: v1 only *)
  stagnation : option (nat * Q)
}.

Definition player_half_width (p : Preset) : Q := player_width p / 2.

Definition v0 : Preset := {|
  speed_factor := 0.1;
  jump_cooldown_max := 60;
  player_width := 0.6;
  player_height := 0.6;
  hitbox_height := 0.6;
  dt := 0.02;
  max_steps := 1000;
  gravity := -30;
  move_speed := 4;
  jump_speed := 12;
  start_x := 1;
  start_y := 0;
  flag_x := 20;
  flag_y := 0;
  wall_x := 10;
  wall_width := 0.6;
  wall_height := 7;
  bug_gap_y_min := 1;
  bug_gap_y_max := 3;
  platform_thickness := 0.2;
  platforms := [ (4, 8.5, 1.5); (6, 9, 3); (5, 6.5, 4.5); (7, 10, 6) ];
  jump_held_penalty := 0.02;
  ascent_divisor := 5;
  idle_checks_jumping := true;
  low_jump_penalty := 1;
  stagnation := None
|}.

Definition v1 : Preset := {|
  speed_factor := 0.1;
  jump_cooldown_max := 40;
  player_width := 0.6;
  player_height := 0.6;
  hitbox_height := 0.6 / 6;
  dt := 0.02;
  max_steps := 1000;
  gravity := -30;
  move_speed := 4;
  jump_speed := 12;
  start_x := 1;
  start_y := 0;
  flag_x := 20;
  flag_y := 0;
  wall_x := 14;
  wall_width := 0.6;
  wall_height := 8.5;
  bug_gap_y_min := 5.5;
  bug_gap_y_max := 5.5 + (0.6 / 6) * 3;
  platform_thickness := 0.2;
  platforms := [ (9, 12.5, 1.5); (6, 9.5, 3); (8.5, 12, 4.5);
                 (5.5, 10.5, 6); (9.5, 13.5, 7.5) ];
  jump_held_penalty := 0.01;
  ascent_divisor := 10;
  idle_checks_jumping := false;
  low_jump_penalty := 0.4;
  stagnation := Some (100%nat, 2)
|}.

(** ** The mutable fields of an instance *)

Record Env := {
  y_before_jump : Q;
  is_jumping : bool;
  jump_cooldown : Z;
  prev_jump : Z;
  (** [self.state]: [None] until the first [reset], then [x, y, vx, vy] *)
  state : option (Q * Q * Q * Q);
  steps : Z;
  (** [self.recent_x], a [deque(maxlen=stagnation_window)] (v1 only) *)
  recent_x : list Q;
  (** the seed of the generator kept by [gym.Env]; [super().reset(seed=seed)]
      is the only code that touches it *)
  np_random_seed : option Z
}.

(** The instance as [__init__] leaves it. *)
Definition init : Env := {|
  y_before_jump := 0;
  is_jumping := false;
  jump_cooldown := 0;
  prev_jump := 0;
  state := None;
  steps := 0;
  recent_x := [];
  np_random_seed := None
|}.

(** What [step] returns (the [info] dict is always empty). *)
Record StepResult := {
  obs : list Q;
  reward : Q;
  terminated : bool;
  truncated : bool
}.

(** ** [_on_ground] and [_reached_flag] *)

Definition eps : Q := 0.001.

Definition is_over_platform (p : Preset) (x : Q) (plat : Q * Q * Q) : bool :=
  let '(px1, px2, _) := plat in
  Qltb px1 (x + player_half_width p) && Qltb (x - player_half_width p) px2.

Definition platform_top (p : Preset) (plat : Q * Q * Q) : Q :=
  let '(_, _, py) := plat in py + platform_thickness p.

Definition _on_ground (p : Preset) (x y : Q) : bool :=
  if Qltb (Qabs y) eps then true
  else if existsb (fun plat =>
                     Qltb (Qabs (y - platform_top p plat)) eps
                     && is_over_platform p x plat) (platforms p)
  then true
  else if Qltb (Qabs (y - wall_height p)) eps then true
  else if Qltb (Qabs (y - bug_gap_y_min p)) eps then true
  else false.

Definition _reached_flag (p : Preset) (x y : Q) : bool :=
  Qltb (Qabs (x - flag_x p)) 0.5 && Qltb (Qabs (y - flag_y p)) 0.5.

(** ** [_get_obs]

    [cooldown_norm] divides by [jump_cooldown_max], which is 60 or 40 in the
    presets; division in [Q] is total and gives 0 for a divisor 0, where
    Python raises [ZeroDivisionError]. *)

Definition observe (p : Preset) (cooldown : Z) (s : Q * Q * Q * Q) : list Q :=
  let '(x, y, vx, vy) := s in
  let cooldown_norm := inject_Z cooldown / inject_Z (jump_cooldown_max p) in
  let distance_to_flag := flag_x p - x in
  let distance_to_wall := wall_x p - x in
  let grounded := if _on_ground p x y then 1 else 0 in
  map float32 [x; y; vx; vy; cooldown_norm; distance_to_flag;
               distance_to_wall; grounded].

Definition _get_obs (p : Preset) (e : Env) : result (list Q) :=
  match state e with
  | None => Raise TypeError
  | Some s => Ok (observe p (jump_cooldown e) s)
  end.

(** ** [reset] *)

Definition reset (p : Preset) (e : Env) (seed : option Z) : Env * list Q :=
  let s := (float32 (start_x p), float32 (start_y p), float32 0, float32 0) in
  let e' := {|
    y_before_jump := y_before_jump e;
    is_jumping := false;
    jump_cooldown := 0;
    prev_jump := 0;
    state := Some s;
    steps := 0;
    recent_x := match stagnation p with
                | Some _ => [start_x p]
                | None => recent_x e
                end;
    np_random_seed := match seed with
                      | Some n => Some n
                      | None => np_random_seed e
                      end
  |} in
  (e', observe p 0 s).

(** ** [step]: action interpretation *)

(** [if self.jump_cooldown > 0: self.jump_cooldown -= 1] *)
Definition tick_cooldown (c : Z) : Z :=
  if (c >? 0)%Z then (c - 1)%Z else c.

(** Horizontal control: 1 is left, 2 is right, anything else stops. *)
Definition horizontal_control (p : Preset) (movement : Z) : Q :=
  if (movement =? 1)%Z then - move_speed p
  else if (movement =? 2)%Z then move_speed p
  else 0.

(** The two nested conditions under which [step] starts a jump; [x y vy] are
    the components of [self.state] read at the top of [step], and the
    cooldown is tested after it has been ticked. *)
Definition jump_triggered (p : Preset) (e : Env) (x y vy : Q) (jump : Z) : bool :=
  let jump_pressed := (jump =? 1)%Z && (prev_jump e =? 0)%Z in
  jump_pressed && Qltb vy 0.001 && (tick_cooldown (jump_cooldown e) =? 0)%Z
  && _on_ground p x y.

(** ** [step]: collisions *)

(** Ground collision. *)
Definition ground_collision (y_new vy : Q) : Q * Q :=
  if Qltb y_new 0 then (0, 0) else (y_new, vy).

(** The test of one platform in the loop: crossed from above, and over it. *)
Definition crosses_top (p : Preset) (y y_new : Q) (plat : Q * Q * Q) : bool :=
  Qleb (platform_top p plat) y && Qleb y_new (platform_top p plat).

Definition lands_on (p : Preset) (x_new y y_new : Q) (plat : Q * Q * Q) : bool :=
  crosses_top p y y_new plat && is_over_platform p x_new plat.

(** The [for] loop over [self.platforms], with its [break]. *)
Fixpoint platform_scan (p : Preset) (x_new y y_new vy : Q)
         (plats : list (Q * Q * Q)) : Q * Q :=
  match plats with
  | [] => (y_new, vy)
  | plat :: rest =>
      if crosses_top p y y_new plat then
        if is_over_platform p x_new plat then (platform_top p plat, 0)
        else platform_scan p x_new y y_new vy rest
      else platform_scan p x_new y y_new vy rest
  end.

(** Platform collision: only while falling. *)
Definition platform_collision (p : Preset) (x_new y y_new vy : Q) : Q * Q :=
  if Qltb vy 0 then platform_scan p x_new y y_new vy (platforms p)
  else (y_new, vy).

Definition wall_left (p : Preset) : Q := wall_x p - wall_width p / 2.
Definition wall_right (p : Preset) : Q := wall_x p + wall_width p / 2.

Definition inside_wall_vertical (p : Preset) (y_new : Q) : bool :=
  Qltb y_new (wall_height p) && Qltb 0 (y_new + hitbox_height p).

Definition inside_wall_horizontal (p : Preset) (x_new : Q) : bool :=
  Qltb (wall_left p) (x_new + player_half_width p)
  && Qltb (x_new - player_half_width p) (wall_right p).

Definition in_bug_gap (p : Preset) (y : Q) : bool :=
  Qleb (bug_gap_y_min p) y && Qleb y (bug_gap_y_max p).

Definition within_wall_height (p : Preset) (y : Q) : bool :=
  Qltb y (wall_height p).

(** Wall collision with the bug gap; returns [(x_new, y_new, vx, vy)]. *)
Definition wall_collision (p : Preset) (x y x_new y_new vx vy : Q)
  : Q * Q * Q * Q :=
  let hitbox_bottom_new := y_new in
  let hitbox_top_new := y_new + hitbox_height p in
  if inside_wall_horizontal p x_new && inside_wall_vertical p y_new then
    if in_bug_gap p y then
      if Qleb hitbox_bottom_new (bug_gap_y_min p) then
        (x_new, bug_gap_y_min p, vx, 0)
      else if Qleb (bug_gap_y_max p) hitbox_top_new then
        (x_new, bug_gap_y_max p - hitbox_height p, vx, vy)
      else (x_new, y_new, vx, vy)
    else if negb (within_wall_height p y) then
      if Qleb hitbox_bottom_new (wall_height p) then
        (x_new, wall_height p, vx, 0)
      else (x_new, y_new, vx, vy)
    else if Qltb x (wall_x p) then
      (wall_left p - player_half_width p, y_new, 0, vy)
    else
      (wall_right p + player_half_width p, y_new, 0, vy)
  else (x_new, y_new, vx, vy).

(** The motion handed to the wall: control, gravity, integration, ground and
    platforms.  Returns [(x_new, y_new, vx, vy)]. *)
Definition proposed (p : Preset) (e : Env) (s : Q * Q * Q * Q)
           (action : Z * Z) : Q * Q * Q * Q :=
  let '(x, y, _, vy) := s in
  let '(movement, jump) := action in
  let vx := horizontal_control p movement in
  let vy := if jump_triggered p e x y vy jump then jump_speed p else vy in
  let vy := vy + gravity p * dt p in
  let x_new := x + vx * dt p in
  let y_new := y + vy * dt p in
  let '(y_new, vy) := ground_collision y_new vy in
  let '(y_new, vy) := platform_collision p x_new y y_new vy in
  (x_new, y_new, vx, vy).

(** The motion after the wall has been resolved. *)
Definition resolved (p : Preset) (e : Env) (s : Q * Q * Q * Q)
           (action : Z * Z) : Q * Q * Q * Q :=
  let '(x, y, _, _) := s in
  let '(x_new, y_new, vx, vy) := proposed p e s action in
  wall_collision p x y x_new y_new vx vy.

(** ** [step]: reward shaping *)

(** The guard of the "staying still" penalty, on the velocity left by the
    wall and the jumping flag as it stands after the jump logic. *)
Definition idle_penalty_applies (p : Preset) (vx : Q) (jumping : bool) : bool :=
  Qltb (Qabs vx) eps && (if idle_checks_jumping p then negb jumping else true).

(** The landing check that closes a jump. *)
Definition jump_lands (p : Preset) (jumping : bool) (x_new y_new vy : Q) : bool :=
  jumping && _on_ground p x_new y_new && Qltb (Qabs vy) eps.

Definition landing_adjust (p : Preset) (reward height_gained : Q) : Q :=
  if Qltb height_gained (-0.2) then reward
  else if Qltb height_gained 0.2 then reward - low_jump_penalty p
  else reward + 0.2.

(** [deque.append] on a deque of bounded length: the oldest entries fall out. *)
Definition deque_append (maxlen : nat) (d : list Q) (v : Q) : list Q :=
  skipn (length (d ++ [v]) - maxlen) (d ++ [v]).

(** [min] and [max] of a deque (never called on an empty one). *)
Definition deque_min (d : list Q) : Q :=
  match d with
  | [] => 0
  | a :: r => fold_left Qmin r a
  end.

Definition deque_max (d : list Q) : Q :=
  match d with
  | [] => 0
  | a :: r => fold_left Qmax r a
  end.

(** ** [step] *)

Definition step (p : Preset) (e : Env) (action : Z * Z)
  : result (Env * StepResult) :=
  match state e with
  | None => Raise TypeError
  | Some (x, y, vx0, vy0) =>
      let reward := 0 in
      let cooldown := tick_cooldown (jump_cooldown e) in
      let steps' := (steps e + 1)%Z in
      let '(movement, jump) := action in
      let reward :=
        if (jump =? 1)%Z then reward - jump_held_penalty p else reward in
      let triggered := jump_triggered p e x y vy0 jump in
      let y_before := if triggered then y else y_before_jump e in
      let jumping := if triggered then true else is_jumping e in
      let cooldown := if triggered then jump_cooldown_max p else cooldown in
      let '(x_new, y_new, vx, vy) := resolved p e (x, y, vx0, vy0) action in
      let s' := (float32 x_new, float32 y_new, float32 vx, float32 vy) in
      (* reward *)
      let dist_prev := Qabs (flag_x p - x) in
      let dist_curr := Qabs (flag_x p - x_new) in
      let reward := reward + (dist_prev - dist_curr) / 5 in
      let reward :=
        if Qltb 0 (y_new - y) then reward + (y_new - y) / ascent_divisor p
        else reward in
      let reward := reward - 0.01 in
      let reward :=
        if idle_penalty_applies p vx jumping then reward - 0.05 else reward in
      let lands := jump_lands p jumping x_new y_new vy in
      let reward :=
        if lands then landing_adjust p reward (y_new - y_before) else reward in
      let jumping := if lands then false else jumping in
      let recent :=
        match stagnation p with
        | Some (window, _) => deque_append window (recent_x e) x_new
        | None => recent_x e
        end in
      let reward :=
        match stagnation p with
        | Some (window, threshold) =>
            if (length recent =? window)%nat then
              if Qltb (deque_max recent - deque_min recent) threshold
              then reward - 0.03 else reward
            else reward
        | None => reward
        end in
      (* termination *)
      let terminated := _reached_flag p x_new y_new in
      let reward :=
        if terminated then
          reward + (10 + speed_factor p * inject_Z (max_steps p - steps'))
        else reward in
      let truncated := (steps' >=? max_steps p)%Z in
      let e' := {|
        y_before_jump := y_before;
        is_jumping := jumping;
        jump_cooldown := cooldown;
        prev_jump := jump;
        state := Some s';
        steps := steps';
        recent_x := recent;
        np_random_seed := np_random_seed e
      |} in
      Ok (e', {| obs := observe p cooldown s';
                 reward := reward;
                 terminated := terminated;
                 truncated := truncated |})
  end.

(** ** Episodes *)

(** Feed a list of actions to [step], collecting what it returns. *)
Fixpoint run (p : Preset) (e : Env) (actions : list (Z * Z))
  : result (Env * list StepResult) :=
  match actions with
  | [] => Ok (e, [])
  | a :: rest =>
      match step p e a with
      | Raise err => Raise err
      | Ok (e1, r) =>
          match run p e1 rest with
          | Raise err => Raise err
          | Ok (e2, rs) => Ok (e2, r :: rs)
          end
      end
  end.

(** The states an instance can be in once it has been reset. *)
Inductive reachable (p : Preset) : Env -> Prop :=
| reach_reset e seed : reachable p (fst (reset p e seed))
| reach_step e a e' r :
    reachable p e -> step p e a = Ok (e', r) -> reachable p e'.

Definition fresh (p : Preset) : Env := fst (reset p init None).

(** ** Notions used by the statements below *)

(** Every surface [step] can put the player on lies at or above the ground. *)
Definition surfaces_nonneg (p : Preset) : Prop :=
  0 <= bug_gap_y_min p
  /\ 0 <= bug_gap_y_max p - hitbox_height p
  /\ 0 <= wall_height p
  /\ Forall (fun plat => 0 <= platform_top p plat) (platforms p).

(** Two instances agree on everything [step] reads: all fields but the
    generator's seed, the deque where the preset has none, and
    [y_before_jump] while no jump is in progress. *)
Definition same_play (p : Preset) (e1 e2 : Env) : Prop :=
  is_jumping e1 = is_jumping e2
  /\ jump_cooldown e1 = jump_cooldown e2
  /\ prev_jump e1 = prev_jump e2
  /\ state e1 = state e2
  /\ steps e1 = steps e2
  /\ (stagnation p <> None -> recent_x e1 = recent_x e2)
  /\ (is_jumping e1 = true -> y_before_jump e1 = y_before_jump e2).

(** What the jump logic does along a run: for each step, whether the jump
    was triggered (so that [vy = self.jump_speed] was executed), and the
    cooldown and the previous-jump bit the step leaves behind. *)
Fixpoint jump_log (p : Preset) (e : Env) (actions : list (Z * Z))
  : list (bool * Z * Z) :=
  match actions with
  | [] => []
  | a :: rest =>
      match state e, step p e a with
      | Some (x, y, _, vy), Ok (e', _) =>
          (jump_triggered p e x y vy (snd a), jump_cooldown e', prev_jump e')
            :: jump_log p e' rest
      | _, _ => []
      end
  end.

(** ** Scenarios *)

(** (movement=2, jump=0), [n] times. *)
Definition right_only (n : nat) : list (Z * Z) := repeat (2%Z, 0%Z) n.

(** A list of actions given as (action, number of repetitions). *)
Definition plan (l : list ((Z * Z) * nat)) : list (Z * Z) :=
  flat_map (fun '(a, n) => repeat a n) l.

(** Preset v0, through the gap: run right, jump onto the first platform,
    walk off its right end, drop onto the lower lip of the gap, walk through
    the wall and on to the flag; the flag is reached on step 232. *)
Definition gap_route : list (Z * Z) :=
  plan [ ((2, 0)%Z, 25%nat); ((2, 1)%Z, 1%nat); ((2, 0)%Z, 206%nat) ].

(** The same route after 768 idle steps: the flag is reached on step 1000. *)
Definition late_gap_route : list (Z * Z) :=
  plan [ ((0, 0)%Z, 768%nat) ] ++ gap_route.

(** The first 98 steps of the route: the player has just left the platform
    and is falling. *)
Definition off_the_ledge : list (Z * Z) :=
  plan [ ((2, 0)%Z, 25%nat); ((2, 1)%Z, 1%nat); ((2, 0)%Z, 72%nat) ].

(** The first 105 steps of the route: the player falls, next to the wall, at
    a height inside the gap. *)
Definition at_the_gap : list (Z * Z) :=
  plan [ ((2, 0)%Z, 25%nat); ((2, 1)%Z, 1%nat); ((2, 0)%Z, 79%nat) ].

(** The instance a run leaves ([init] if it raised). *)
Definition after (p : Preset) (actions : list (Z * Z)) : Env :=
  match run p (fresh p) actions with
  | Ok (e, _) => e
  | Raise _ => init
  end.

(** A preset with another list of platforms. *)
Definition with_platforms (p : Preset) (plats : list (Q * Q * Q)) : Preset := {|
  speed_factor := speed_factor p;
  jump_cooldown_max := jump_cooldown_max p;
  player_width := player_width p;
  player_height := player_height p;
  hitbox_height := hitbox_height p;
  dt := dt p;
  max_steps := max_steps p;
  gravity := gravity p;
  move_speed := move_speed p;
  jump_speed := jump_speed p;
  start_x := start_x p;
  start_y := start_y p;
  flag_x := flag_x p;
  flag_y := flag_y p;
  wall_x := wall_x p;
  wall_width := wall_width p;
  wall_height := wall_height p;
  bug_gap_y_min := bug_gap_y_min p;
  bug_gap_y_max := bug_gap_y_max p;
  platform_thickness := platform_thickness p;
  platforms := plats;
  jump_held_penalty := jump_held_penalty p;
  ascent_divisor := ascent_divisor p;
  idle_checks_jumping := idle_checks_jumping p;
  low_jump_penalty := low_jump_penalty p;
  stagnation := stagnation p
|}.

(** Two platforms one above the other, the lower one listed first. *)
Definition two_shelves : Preset := with_platforms v0 [ (4, 8, 1); (4, 8, 3) ].

(** What a run returns, step by step ([[]] if it raised). *)
Definition results (p : Preset) (actions : list (Z * Z)) : list StepResult :=
  match run p (fresh p) actions with
  | Ok (_, rs) => rs
  | Raise _ => []
  end.

(** How the tests of [step] read an action: a movement other than 1 or 2
    falls to the [else] branch, like 0; a jump other than 1 fails
    [jump == 1], like 0. *)
Definition read_movement (movement : Z) : Z :=
  if (movement =? 1)%Z then 1%Z else if (movement =? 2)%Z then 2%Z else 0%Z.

Definition read_jump (jump : Z) : Z :=
  if (jump =? 1)%Z then 1%Z else 0%Z.

(** The reward of a step without the "staying still" penalty: the sum of
    every other contribution [step] makes to [reward]. *)
Definition other_rewards (p : Preset) (e : Env) (s : Q * Q * Q * Q)
           (a : Z * Z) : Q :=
  let '(x, y, _, vy0) := s in
  let '(x_new, y_new, vx, vy) := resolved p e s a in
  let triggered := jump_triggered p e x y vy0 (snd a) in
  let jumping := triggered || is_jumping e in
  let y_before := if triggered then y else y_before_jump e in
  let recent :=
    match stagnation p with
    | Some (window, _) => deque_append window (recent_x e) x_new
    | None => recent_x e
    end in
  (if (snd a =? 1)%Z then - jump_held_penalty p else 0)
  + (Qabs (flag_x p - x) - Qabs (flag_x p - x_new)) / 5
  + (if Qltb 0 (y_new - y) then (y_new - y) / ascent_divisor p else 0)
  - 0.01
  + (if jump_lands p jumping x_new y_new vy
     then landing_adjust p 0 (y_new - y_before) else 0)
  + match stagnation p with
    | Some (window, threshold) =>
        if (length recent =? window)%nat
           && Qltb (deque_max recent - deque_min recent) threshold
        then - 0.03 else 0
    | None => 0
    end
  + (if _reached_flag p x_new y_new
     then 10 + speed_factor p * inject_Z (max_steps p - (steps e + 1))
     else 0).

(** In preset v0 an upward velocity only comes from a jump, and a jump
    leaves the cooldown running for longer than the ascent lasts. *)
Definition vy_bounded (e : Env) : Prop :=
  forall x y vx vy, state e = Some (x, y, vx, vy) ->
    vy <= 0 \/ vy <= 0.6 * (inject_Z (jump_cooldown e) - 41).

(** * The code around the environment *)

(** ** The declared observation space *)

(** [observation_space = spaces.Box(low, high)]: the bounds of [__init__],
    [None] standing for an infinite one. *)
Definition observation_low : list (option Q) :=
  [None; None; None; None; Some 0; None; None; Some 0].

Definition observation_high : list (option Q) :=
  [None; None; None; None; Some 1; None; None; Some 1].

(** [Box.contains]: same shape and every entry within its bounds. *)
Fixpoint box_contains (low high : list (option Q)) (o : list Q) : bool :=
  match low, high, o with
  | [], [], [] => true
  | l :: low', h :: high', v :: o' =>
      match l with Some b => Qleb b v | None => true end
      && match h with Some b => Qleb v b | None => true end
      && box_contains low' high' o'
  | _, _, _ => false
  end.

(** ** A preset without the stagnation window *)

Definition without_stagnation (p : Preset) : Preset := {|
  speed_factor := speed_factor p;
  jump_cooldown_max := jump_cooldown_max p;
  player_width := player_width p;
  player_height := player_height p;
  hitbox_height := hitbox_height p;
  dt := dt p;
  max_steps := max_steps p;
  gravity := gravity p;
  move_speed := move_speed p;
  jump_speed := jump_speed p;
  start_x := start_x p;
  start_y := start_y p;
  flag_x := flag_x p;
  flag_y := flag_y p;
  wall_x := wall_x p;
  wall_width := wall_width p;
  wall_height := wall_height p;
  bug_gap_y_min := bug_gap_y_min p;
  bug_gap_y_max := bug_gap_y_max p;
  platform_thickness := platform_thickness p;
  platforms := platforms p;
  jump_held_penalty := jump_held_penalty p;
  ascent_divisor := ascent_divisor p;
  idle_checks_jumping := idle_checks_jumping p;
  low_jump_penalty := low_jump_penalty p;
  stagnation := None
|}.

(** Two instances that differ at most in the deque. *)
Definition same_but_deque (e1 e2 : Env) : Prop :=
  y_before_jump e1 = y_before_jump e2
  /\ is_jumping e1 = is_jumping e2
  /\ jump_cooldown e1 = jump_cooldown e2
  /\ prev_jump e1 = prev_jump e2
  /\ state e1 = state e2
  /\ steps e1 = steps e2.

(** ** Rolling out a policy ([visualize.py], [heatmap.py])

    [model.predict] is a parameter: any function from the index of the step
    (and of the episode) and the observation to an action.  The [while]
    loops take fuel.  The scripts import the environment class from a
    module that is not among the sources, so the loops are written over any
    [Preset]. *)

(** What can end a script early: an exception of the environment, or the
    [SystemExit] that [_handle_events] raises when the window is closed. *)
Inductive script_exn :=
| EnvError (err : exn)
| SystemExit.

(** How a loop with fuel comes out: it finished, it raised, or the fuel
    ran out first. *)
Inductive outcome (A : Type) :=
| Finished (a : A)
| Raised (err : script_exn)
| OutOfFuel.
Arguments Finished {A} a.
Arguments Raised {A} err.
Arguments OutOfFuel {A}.

(** [render]: [draw_background] polls the events first ([_handle_events]
    raises [SystemExit] on a [QUIT] event), then the state is read and
    drawn.  [quit_event] tells whether the queue holds a [QUIT] event at
    this call.  Drawing changes no field of the instance. *)
Definition render (e : Env) (quit_event : bool) : option script_exn :=
  if quit_event then Some SystemExit
  else match state e with
       | None => Some (EnvError TypeError)
       | Some _ => None
       end.

(** [visualize.play_episodes], the [while not done] loop of one episode;
    returns the instance, [ep_reward] and [steps].  [quit k] tells whether
    a [QUIT] event is waiting at the [k]-th [render] of the episode. *)
Fixpoint play_loop (p : Preset) (policy : nat -> list Q -> Z * Z)
         (quit : nat -> bool) (fuel : nat) (e : Env) (o : list Q)
         (ep_reward : Q) (n : nat) : outcome (Env * Q * nat) :=
  match fuel with
  | O => OutOfFuel
  | S fuel' =>
      match step p e (policy n o) with
      | Raise err => Raised (EnvError err)
      | Ok (e', r) =>
          let done := terminated r || truncated r in
          let ep_reward := ep_reward + reward r in
          let n := S n in
          match render e' (quit n) with
          | Some err => Raised err
          | None =>
              if done then Finished (e', ep_reward, n)
              else play_loop p policy quit fuel' e' (obs r) ep_reward n
          end
      end
  end.

(** One iteration of the [for ep] loop of [play_episodes]. *)
Definition play_episode (p : Preset) (policy : nat -> list Q -> Z * Z)
           (quit : nat -> bool) (fuel : nat) (e : Env)
  : outcome (Env * Q * nat) :=
  let '(e0, o) := reset p e None in
  play_loop p policy quit fuel e0 o 0 0.

(** [heatmap.collect_positions], the [while not done] loop of one episode:
    every step appends the player's [x] and the height of its centre to
    [xs], [ys]; [cap] is the optional [max_steps] argument.  No window is
    opened here; [None] is a loop cut short by the fuel. *)
Fixpoint collect_loop (p : Preset) (policy : nat -> list Q -> Z * Z)
         (cap : option Z) (fuel : nat) (e : Env) (o : list Q) (n : nat)
         (xs ys : list Q) : result (option (Env * list Q * list Q)) :=
  match fuel with
  | O => Ok None
  | S fuel' =>
      match step p e (policy n o) with
      | Raise err => Raise err
      | Ok (e', r) =>
          let done := terminated r || truncated r in
          let '(x, y) :=
            match state e' with
            | Some (x, y, _, _) => (x, y)
            | None => (nth 0 (obs r) 0, nth 1 (obs r) 0)
            end in
          let y := y + player_height p / 2 in
          let xs := xs ++ [x] in
          let ys := ys ++ [y] in
          let n := S n in
          if match cap with
             | Some c => (c <=? Z.of_nat n)%Z
             | None => false
             end
          then Ok (Some (e', xs, ys))
          else if done then Ok (Some (e', xs, ys))
          else collect_loop p policy cap fuel' e' (obs r) n xs ys
      end
  end.

(** The [for ep in range(n_episodes)] loop around it. *)
Fixpoint collect_episodes (p : Preset)
         (policy : nat -> nat -> list Q -> Z * Z) (cap : option Z)
         (fuel : nat) (n_episodes ep : nat) (e : Env) (xs ys : list Q)
  : result (option (list Q * list Q)) :=
  match n_episodes with
  | O => Ok (Some (map float32 xs, map float32 ys))
  | S n' =>
      let '(e0, o) := reset p e None in
      match collect_loop p (policy ep) cap fuel e0 o 0 xs ys with
      | Raise err => Raise err
      | Ok None => Ok None
      | Ok (Some (e', xs', ys')) =>
          collect_episodes p policy cap fuel n' (S ep) e' xs' ys'
      end
  end.

Definition collect_positions (p : Preset)
           (policy : nat -> nat -> list Q -> Z * Z) (n_episodes : nat)
           (cap : option Z) (fuel : nat)
  : result (option (list Q * list Q)) :=
  collect_episodes p policy cap fuel n_episodes 0 init [] [].

(** ** Counting how episodes end ([episode_stats_callback.py]) *)

(** The two counters of [EpisodeStatsCallback]. *)
Record Stats := {
  terminated_count : Z;
  truncated_count : Z
}.

(** An [info] dict, as far as the callback looks at it: keys with a truth
    value. *)
Definition Info : Type := list (String.string * bool).

(** [dict.get(key, default)] *)
Fixpoint dict_get (d : Info) (key : String.string) (default : bool) : bool :=
  match d with
  | [] => default
  | (k, v) :: rest => if String.eqb k key then v else dict_get rest key default
  end.

(** The [for done, info in zip(dones, infos)] loop. *)
Fixpoint count_dones (st : Stats) (pairs : list (bool * Info)) : Stats :=
  match pairs with
  | [] => st
  | (done, info) :: rest =>
      let st' :=
        if done then
          if dict_get info "TimeLimit.truncated"%string false
          then {| terminated_count := terminated_count st;
                  truncated_count := truncated_count st + 1 |}
          else {| terminated_count := terminated_count st + 1;
                  truncated_count := truncated_count st |}
        else st in
      count_dones st' rest
  end.

(** [_on_step]: [dones] and [infos] are [self.locals.get(...)], [None] when
    the key is missing; the returned boolean tells training to go on. *)
Definition _on_step (st : Stats) (dones : option (list bool))
           (infos : option (list Info)) : Stats * bool :=
  match dones, infos with
  | Some ds, Some il => (count_dones st (combine ds il), true)
  | _, _ => (st, true)
  end.

(** [_on_rollout_end] *)
Definition _on_rollout_end (st : Stats) : Stats :=
  {| terminated_count := 0; truncated_count := 0 |}.

(** ** World and screen coordinates ([render_env.py], [heatmap.py]) *)

(** [int(...)] of a number: the fraction is cut off, towards zero. *)
Definition py_int (q : Q) : Z := Z.quot (Qnum q) (Zpos (Qden q)).

(** [_world_to_screen], for a renderer with the given [scale] and
    [screen_height] (30 and 400 in [__init__]). *)
Definition _world_to_screen (scale screen_height : Z) (wx wy : Q) : Z * Z :=
  let sx := py_int (wx * inject_Z scale + 50) in
  let sy := py_int (inject_Z screen_height - (wy * inject_Z scale + 50)) in
  (sx, sy).

(** The extent [draw_pygame_background] gives the background image:
    [(x_min, x_max, y_min, y_max)] for a surface of the given size. *)
Definition background_extent (scale width height : Z) : Q * Q * Q * Q :=
  let offset := 50 in
  ((0 - offset) / inject_Z scale,
   (inject_Z width - offset) / inject_Z scale,
   (1 - offset) / inject_Z scale,
   (inject_Z height - offset) / inject_Z scale).

(** ** The positions a run goes through *)

(** The [x_new] of every step of a run, in order: the value [step] appends
    to [recent_x]. *)
Fixpoint x_trail (p : Preset) (e : Env) (actions : list (Z * Z)) : list Q :=
  match actions with
  | [] => []
  | a :: rest =>
      match state e, step p e a with
      | Some s, Ok (e', _) =>
          let '(x_new, _, _, _) := resolved p e s a in
          x_new :: x_trail p e' rest
      | _, _ => []
      end
  end.

(** The last [n] entries of a list, oldest first. *)
Definition lastn {A : Type} (n : nat) (l : list A) : list A :=
  skipn (length l - n) l.

(** ** Another scenario *)

(** (movement=1, jump=0), [n] times. *)
Definition left_only (n : nat) : list (Z * Z) := repeat (1%Z, 0%Z) n.

(** ** Many agents at once ([multi_visualize.py]) *)

(** One agent of [run_multi]: its instance, [obs_list[i]], [done_list[i]]. *)
Definition Agent : Type := (Env * list Q * bool)%type.

(** The agents as [run_multi] sets them up: new instances, reset once. *)
Definition multi_start (p : Preset) (n_agents : nat) : list Agent :=
  repeat (let '(e, o) := reset p init None in (e, o, false)) n_agents.

(** The "step all agents" loop of one frame: an agent that is done is reset
    first; returns the agents and the frame's [positions]. *)
Fixpoint multi_step_all (p : Preset) (policy : nat -> list Q -> Z * Z)
         (i : nat) (agents : list Agent)
  : result (list Agent * list (Q * Q)) :=
  match agents with
  | [] => Ok ([], [])
  | (e, o, done) :: rest =>
      let '(e, o) := if done then reset p e None else (e, o) in
      match step p e (policy i o) with
      | Raise err => Raise err
      | Ok (e', r) =>
          match state e' with
          | None => Raise TypeError
          | Some (x, y, _, _) =>
              match multi_step_all p policy (S i) rest with
              | Raise err => Raise err
              | Ok (rest', positions) =>
                  Ok ((e', obs r, terminated r || truncated r) :: rest',
                      (x, y) :: positions)
              end
          end
      end
  end.

(** An agent within its episode: reset at some time, not past the step
    limit, and flagged done if at it. *)
Definition agent_ok (p : Preset) (a : Agent) : Prop :=
  let '(e, _, done) := a in
  (exists s, state e = Some s)
  /\ (0 <= steps e <= max_steps p)%Z
  /\ (done = false -> (steps e < max_steps p)%Z).

(** The first [frames] rounds of the [while True] loop, from the [k]-th on;
    [policy k] is what [model.predict] answers in round [k]. *)
Fixpoint multi_frames (p : Preset) (policy : nat -> nat -> list Q -> Z * Z)
         (frames k : nat) (agents : list Agent) : result (list Agent) :=
  match frames with
  | O => Ok agents
  | S frames' =>
      match multi_step_all p (policy k) 0 agents with
      | Raise err => Raise err
      | Ok (agents', _) => multi_frames p policy frames' (S k) agents'
      end
  end.

(** [run_multi] after [frames] rounds of stepping.  The loop has no end of
    its own: it ends when [draw_background], called after the agents have
    been stepped, meets a [QUIT] event and raises [SystemExit], which
    [run_multi] catches.  So the agents the script ever holds are the ones
    after some number of rounds. *)
Definition run_multi (p : Preset) (policy : nat -> nat -> list Q -> Z * Z)
           (n_agents frames : nat) : result (list Agent) :=
  multi_frames p policy frames 0 (multi_start p n_agents).

(** What the "step all agents" loop does to agent [i]: if it is flagged
    done it is reset, and the instance that is then stepped is the reset
    one; [policy] is what [model.predict] answers in this frame. *)
Definition stepped (p : Preset) (policy : nat -> list Q -> Z * Z) (i : nat)
           (before after : Agent) : Prop :=
  let '(e, o, done) := before in
  let '(e', o', done') := after in
  exists r,
    (if done
     then step p (fst (reset p e None)) (policy i (snd (reset p e None)))
     else step p e (policy i o)) = Ok (e', r)
    /\ o' = obs r
    /\ done' = terminated r || truncated r
    /\ steps e' = (if done then 1 else steps e + 1)%Z.

(** * The motion under rounded arithmetic

    The program computes with floating-point numbers: Python floats
    (binary64) and the float32 values unpacked from [self.state], and it
    stores the state as float32.  Which operations are carried out in which
    precision depends on the types of the operands at run time and on the
    version of NumPy.  The definitions of this part leave that open: every
    number that goes into an operation or a comparison, every result of an
    operation and every stored number passes through a rounding, which may
    be any function that satisfies the usual bound of floating-point
    arithmetic: below the overflow threshold the error is at most a relative
    [unit_roundoff] plus an absolute [underflow], and zero is rounded to
    zero.  Rounding to the nearest binary32 or binary64 number satisfies it,
    and so does no rounding at all.  The program's run is one of these; what
    is proved for all of them holds for it.

    A rounding takes the count of the step and a label of the place in
    [step]: the line of [bug_platform_env.py] times 100, plus 10 for each
    further operation of the line, plus 1 or 2 for the left or right operand.
    The two calls of [_on_ground] add 1000000 and 2000000.

    This part follows the motion and the two flags of [step]; the reward and
    the observation are left to the exact definitions above.  Without
    rounding it is [step] itself (lemma [step_unrounded]). *)

(** Above [2^-24], the relative error of binary32. *)
Definition unit_roundoff : Q := 6 # 100000000.

(** Above [2^-150], the absolute error of binary32 near zero. *)
Definition underflow : Q := 1 # 10000000000000000000000000000000000000000.

(** Below the largest binary32 number. *)
Definition overflow : Q := 1000000000000000000000000000000.

Definition rounding : Type := Z -> Z -> Q -> Q.

(** The roundings of one step are within the bound. *)
Definition close_at (f : Z -> Q -> Q) : Prop :=
  (forall (s : Z) (q : Q),
      Qabs q <= overflow ->
      Qabs (f s q - q) <= unit_roundoff * Qabs q + underflow)
  /\ (forall (s : Z) (q : Q), q == 0 -> f s q == 0).

(** Every rounding of [fl] is within the bound. *)
Definition close (fl : rounding) : Prop := forall t : Z, close_at (fl t).

(** No rounding at all: the exact arithmetic of the definitions above. *)
Definition unrounded : rounding := fun _ _ q => q.

Section Rounded.

(** The roundings of one step. *)
Variable fl : Z -> Q -> Q.

Definition radd (s : Z) (a b : Q) : Q := fl s (fl (s + 1) a + fl (s + 2) b).
Definition rsub (s : Z) (a b : Q) : Q := fl s (fl (s + 1) a - fl (s + 2) b).
Definition rmul (s : Z) (a b : Q) : Q := fl s (fl (s + 1) a * fl (s + 2) b).
Definition rdiv (s : Z) (a b : Q) : Q := fl s (fl (s + 1) a / fl (s + 2) b).
Definition rlt (s : Z) (a b : Q) : bool := Qltb (fl (s + 1) a) (fl (s + 2) b).
Definition rle (s : Z) (a b : Q) : bool := Qleb (fl (s + 1) a) (fl (s + 2) b).

(** [_on_ground], called from the place [c]. *)
Definition _on_ground_fl (c : Z) (p : Preset) (x y : Q) : bool :=
  let player_left := rsub (c + 31500) x (player_half_width p) in
  let player_right := radd (c + 31600) x (player_half_width p) in
  if rlt (c + 31900) (Qabs (fl (c + 31910) y)) eps then true
  else if existsb
            (fun plat : Q * Q * Q =>
               let '(px1, px2, py) := plat in
               rlt (c + 32300)
                   (Qabs (rsub (c + 32310) y
                               (radd (c + 32320) py (platform_thickness p))))
                   eps
               && (rlt (c + 32400) px1 player_right
                   && rlt (c + 32410) player_left px2))
            (platforms p)
  then true
  else if rlt (c + 33000) (Qabs (rsub (c + 33010) y (wall_height p))) eps
  then true
  else if rlt (c + 33200) (Qabs (rsub (c + 33210) y (bug_gap_y_min p))) eps
  then true
  else false.

Definition _reached_flag_fl (p : Preset) (x y : Q) : bool :=
  rlt 33800 (Qabs (rsub 33810 x (flag_x p))) 0.5
  && rlt 33820 (Qabs (rsub 33830 y (flag_y p))) 0.5.

Definition jump_triggered_fl (p : Preset) (e : Env) (x y vy : Q) (jump : Z)
  : bool :=
  let jump_pressed := (jump =? 1)%Z && (prev_jump e =? 0)%Z in
  jump_pressed && rlt 13200 vy 0.001
  && (tick_cooldown (jump_cooldown e) =? 0)%Z
  && _on_ground_fl 1000000 p x y.

Definition ground_collision_fl (y_new vy : Q) : Q * Q :=
  if rlt 15200 y_new 0 then (0, 0) else (y_new, vy).

Definition platform_top_fl (p : Preset) (s : Z) (plat : Q * Q * Q) : Q :=
  let '(_, _, py) := plat in radd s py (platform_thickness p).

Definition crosses_top_fl (p : Preset) (y y_new : Q) (plat : Q * Q * Q)
  : bool :=
  rle 15900 (platform_top_fl p 15910 plat) y
  && rle 15920 y_new (platform_top_fl p 15930 plat).

Definition is_over_platform_fl (p : Preset) (x_new : Q) (plat : Q * Q * Q)
  : bool :=
  let '(px1, px2, _) := plat in
  let player_left_new := rsub 16000 x_new (player_half_width p) in
  let player_right_new := radd 16100 x_new (player_half_width p) in
  rlt 16300 px1 player_right_new && rlt 16310 player_left_new px2.

Fixpoint platform_scan_fl (p : Preset) (x_new y y_new vy : Q)
         (plats : list (Q * Q * Q)) : Q * Q :=
  match plats with
  | [] => (y_new, vy)
  | plat :: rest =>
      if crosses_top_fl p y y_new plat then
        if is_over_platform_fl p x_new plat
        then (platform_top_fl p 16600 plat, 0)
        else platform_scan_fl p x_new y y_new vy rest
      else platform_scan_fl p x_new y y_new vy rest
  end.

Definition platform_collision_fl (p : Preset) (x_new y y_new vy : Q)
  : Q * Q :=
  if rlt 15700 vy 0 then platform_scan_fl p x_new y y_new vy (platforms p)
  else (y_new, vy).

Definition wall_left_fl (p : Preset) : Q :=
  rsub 17600 (wall_x p) (rdiv 17610 (wall_width p) 2).
Definition wall_right_fl (p : Preset) : Q :=
  radd 17700 (wall_x p) (rdiv 17710 (wall_width p) 2).

Definition wall_collision_fl (p : Preset) (x y x_new y_new vx vy : Q)
  : Q * Q * Q * Q :=
  let player_left_new := rsub 18000 x_new (player_half_width p) in
  let player_right_new := radd 18100 x_new (player_half_width p) in
  let hitbox_bottom_new := y_new in
  let hitbox_top_new := radd 18300 y_new (hitbox_height p) in
  let inside_wall_vertical :=
    rlt 18500 hitbox_bottom_new (wall_height p)
    && rlt 18510 0 hitbox_top_new in
  let inside_wall_horizontal :=
    rlt 18600 (wall_left_fl p) player_right_new
    && rlt 18610 player_left_new (wall_right_fl p) in
  let in_bug_gap :=
    rle 18800 (bug_gap_y_min p) y && rle 18810 y (bug_gap_y_max p) in
  let within_wall_height := rlt 19200 y (wall_height p) in
  if inside_wall_horizontal && inside_wall_vertical then
    if in_bug_gap then
      if rle 19700 hitbox_bottom_new (bug_gap_y_min p) then
        (x_new, bug_gap_y_min p, vx, 0)
      else if rle 20000 (bug_gap_y_max p) hitbox_top_new then
        (x_new, rsub 20100 (bug_gap_y_max p) (hitbox_height p), vx, vy)
      else (x_new, y_new, vx, vy)
    else if negb within_wall_height then
      if rle 20400 hitbox_bottom_new (wall_height p) then
        (x_new, wall_height p, vx, 0)
      else (x_new, y_new, vx, vy)
    else if rlt 20800 x (wall_x p) then
      (rsub 20900 (wall_left_fl p) (player_half_width p), y_new, 0, vy)
    else
      (radd 21200 (wall_right_fl p) (player_half_width p), y_new, 0, vy)
  else (x_new, y_new, vx, vy).

Definition proposed_fl (p : Preset) (e : Env) (s : Q * Q * Q * Q)
           (action : Z * Z) : Q * Q * Q * Q :=
  let '(x, y, _, vy) := s in
  let '(movement, jump) := action in
  let vx := horizontal_control p movement in
  let vy := if jump_triggered_fl p e x y vy jump then jump_speed p else vy in
  let vy := radd 14500 vy (rmul 14510 (gravity p) (dt p)) in
  let x_new := radd 14800 x (rmul 14810 vx (dt p)) in
  let y_new := radd 14900 y (rmul 14910 vy (dt p)) in
  let '(y_new, vy) := ground_collision_fl y_new vy in
  let '(y_new, vy) := platform_collision_fl p x_new y y_new vy in
  (x_new, y_new, vx, vy).

Definition resolved_fl (p : Preset) (e : Env) (s : Q * Q * Q * Q)
           (action : Z * Z) : Q * Q * Q * Q :=
  let '(x, y, _, _) := s in
  let '(x_new, y_new, vx, vy) := proposed_fl p e s action in
  wall_collision_fl p x y x_new y_new vx vy.

Definition jump_lands_fl (p : Preset) (jumping : bool) (x_new y_new vy : Q)
  : bool :=
  jumping && _on_ground_fl 2000000 p x_new y_new
  && rlt 26800 (Qabs vy) eps.

(** [step], without the reward and the observation: the instance it
    leaves and the flags [(terminated, truncated)]. *)
Definition step_fl (p : Preset) (e : Env) (action : Z * Z)
  : result (Env * (bool * bool)) :=
  match state e with
  | None => Raise TypeError
  | Some (x, y, vx0, vy0) =>
      let cooldown := tick_cooldown (jump_cooldown e) in
      let steps' := (steps e + 1)%Z in
      let '(movement, jump) := action in
      let triggered := jump_triggered_fl p e x y vy0 jump in
      let y_before := if triggered then y else y_before_jump e in
      let jumping := if triggered then true else is_jumping e in
      let cooldown := if triggered then jump_cooldown_max p else cooldown in
      let '(x_new, y_new, vx, vy) :=
        resolved_fl p e (x, y, vx0, vy0) action in
      let s' := (fl 24500 x_new, fl 24501 y_new, fl 24502 vx, fl 24503 vy) in
      let lands := jump_lands_fl p jumping x_new y_new vy in
      let jumping := if lands then false else jumping in
      let recent :=
        match stagnation p with
        | Some (window, _) => deque_append window (recent_x e) x_new
        | None => recent_x e
        end in
      let terminated := _reached_flag_fl p x_new y_new in
      let truncated := (steps' >=? max_steps p)%Z in
      let e' := {|
        y_before_jump := y_before;
        is_jumping := jumping;
        jump_cooldown := cooldown;
        prev_jump := jump;
        state := Some s';
        steps := steps';
        recent_x := recent;
        np_random_seed := np_random_seed e
      |} in
      Ok (e', (terminated, truncated))
  end.

End Rounded.

(** [reset]: the instance it leaves. *)
Definition reset_fl (fl : rounding) (p : Preset) (e : Env) (seed : option Z)
  : Env :=
  let f := fl 0%Z in
  {| y_before_jump := y_before_jump e;
     is_jumping := false;
     jump_cooldown := 0;
     prev_jump := 0;
     state := Some (f 9100%Z (start_x p), f 9101%Z (start_y p),
                    f 9102%Z 0, f 9103%Z 0);
     steps := 0;
     recent_x := match stagnation p with
                 | Some _ => [start_x p]
                 | None => recent_x e
                 end;
     np_random_seed := match seed with
                       | Some n => Some n
                       | None => np_random_seed e
                       end |}.

(** Feed a list of actions to [step_fl]; the step that brings the count
    to [t] uses the roundings [fl t]. *)
Fixpoint run_fl (fl : rounding) (p : Preset) (e : Env)
         (actions : list (Z * Z)) : result (Env * list (bool * bool)) :=
  match actions with
  | [] => Ok (e, [])
  | a :: rest =>
      match step_fl (fl (steps e + 1)%Z) p e a with
      | Raise err => Raise err
      | Ok (e1, flags) =>
          match run_fl fl p e1 rest with
          | Raise err => Raise err
          | Ok (e2, rest_flags) => Ok (e2, flags :: rest_flags)
          end
      end
  end.

(** The constants the two presets share, as far as walking on the ground
    meets them, and a wall well to the right of the start. *)
Definition plain_level (p : Preset) : Prop :=
  gravity p == -30 /\ dt p == 0.02 /\ move_speed p == 4
  /\ wall_width p == 0.6 /\ player_half_width p == 0.3
  /\ flag_x p == 20 /\ start_x p == 1 /\ start_y p == 0
  /\ 9 <= wall_x p /\ wall_x p <= 20.

(** The instance with its state as the float32 store of the exact
    definitions holds it. *)
Definition stored (e : Env) : Env :=
  {| y_before_jump := y_before_jump e;
     is_jumping := is_jumping e;
     jump_cooldown := jump_cooldown e;
     prev_jump := prev_jump e;
     state := match state e with
              | Some (x, y, vx, vy) =>
                  Some (float32 x, float32 y, float32 vx, float32 vy)
              | None => None
              end;
     steps := steps e;
     recent_x := recent_x e;
     np_random_seed := np_random_seed e |}.

(** * Properties *)

(** ** Comparisons *)

Lemma Qltb_lt (a b : Q) : Qltb a b = true <-> a < b.
Proof.
  unfold Qltb. rewrite negb_true_iff, <- not_true_iff_false, Qle_bool_iff.
  split; [apply Qnot_le_lt | apply Qlt_not_le].
Qed.

Lemma Qltb_ge (a b : Q) : Qltb a b = false <-> b <= a.
Proof.
  unfold Qltb. rewrite negb_false_iff. apply Qle_bool_iff.
Qed.

Lemma Qleb_le (a b : Q) : Qleb a b = true <-> a <= b.
Proof. apply Qle_bool_iff. Qed.

Lemma Qleb_gt (a b : Q) : Qleb a b = false <-> b < a.
Proof.
  unfold Qleb. rewrite <- not_true_iff_false, Qle_bool_iff.
  split; [apply Qnot_le_lt | apply Qlt_not_le].
Qed.

Lemma float32_eq (q : Q) : float32 q == q.
Proof. apply Qred_correct. Qed.

(** Turn every boolean comparison of the context into its proposition. *)
Ltac reflect_cmp :=
  repeat match goal with
         | H : Qltb _ _ = true |- _ => apply Qltb_lt in H
         | H : Qltb _ _ = false |- _ => apply Qltb_ge in H
         | H : Qleb _ _ = true |- _ => apply Qleb_le in H
         | H : Qleb _ _ = false |- _ => apply Qleb_gt in H
         | H : _ && _ = true |- _ => apply andb_true_iff in H; destruct H
         end.

(** ** The phases of [step], one by one *)

Lemma ground_collision_cases (y_new vy : Q) :
  (y_new < 0 /\ ground_collision y_new vy = (0, 0))
  \/ (0 <= y_new /\ ground_collision y_new vy = (y_new, vy)).
Proof.
  unfold ground_collision. destruct (Qltb y_new 0) eqn:E; reflect_cmp; auto.
Qed.

Lemma lands_on_spec (p : Preset) (x_new y y_new : Q) (plat : Q * Q * Q) :
  lands_on p x_new y y_new plat = true <->
  platform_top p plat <= y /\ y_new <= platform_top p plat
  /\ (let '(px1, px2, _) := plat in
      px1 < x_new + player_half_width p /\ x_new - player_half_width p < px2).
Proof.
  unfold lands_on, crosses_top, is_over_platform.
  destruct plat as [[px1 px2] py].
  rewrite !andb_true_iff, !Qleb_le, !Qltb_lt. tauto.
Qed.

(** The loop returns at the first platform that passes the test; the
    platforms behind it play no part. *)
Lemma platform_scan_first (p : Preset) (x_new y y_new vy : Q)
      (before after : list (Q * Q * Q)) (plat : Q * Q * Q) :
  (forall q, In q before -> lands_on p x_new y y_new q = false) ->
  lands_on p x_new y y_new plat = true ->
  platform_scan p x_new y y_new vy (before ++ plat :: after)
  = (platform_top p plat, 0).
Proof.
  intros Hbefore Hplat. induction before as [|q before IH]; simpl.
  - unfold lands_on in Hplat. apply andb_true_iff in Hplat as [-> ->].
    reflexivity.
  - assert (Hq : lands_on p x_new y y_new q = false)
      by (apply Hbefore; left; reflexivity).
    unfold lands_on in Hq.
    destruct (crosses_top p y y_new q); simpl in Hq;
      [rewrite Hq|]; apply IH; intros q' Hin; apply Hbefore; right; exact Hin.
Qed.

(** Without a platform that passes the test, the loop changes nothing. *)
Lemma platform_scan_none (p : Preset) (x_new y y_new vy : Q)
      (plats : list (Q * Q * Q)) :
  (forall q, In q plats -> lands_on p x_new y y_new q = false) ->
  platform_scan p x_new y y_new vy plats = (y_new, vy).
Proof.
  intros Hnone. induction plats as [|q plats IH]; simpl; [reflexivity|].
  assert (Hq : lands_on p x_new y y_new q = false)
    by (apply Hnone; left; reflexivity).
  unfold lands_on in Hq.
  destruct (crosses_top p y y_new q); simpl in Hq;
    [rewrite Hq|]; apply IH; intros q' Hin; apply Hnone; right; exact Hin.
Qed.

(** The loop either leaves [(y_new, vy)] alone or snaps to one of the tops. *)
Lemma platform_scan_cases (p : Preset) (x_new y y_new vy : Q)
      (plats : list (Q * Q * Q)) :
  platform_scan p x_new y y_new vy plats = (y_new, vy)
  \/ exists plat, In plat plats
                  /\ platform_scan p x_new y y_new vy plats
                     = (platform_top p plat, 0).
Proof.
  induction plats as [|q plats IH]; simpl; [left; reflexivity|].
  destruct (crosses_top p y y_new q), (is_over_platform p x_new q);
    try (destruct IH as [IH | (plat & Hin & IH)];
         [left; exact IH | right; exists plat; split; [right|]; assumption]).
  right. exists q. split; [left|]; reflexivity.
Qed.

Lemma platform_collision_cases (p : Preset) (x_new y y_new vy : Q) :
  platform_collision p x_new y y_new vy = (y_new, vy)
  \/ exists plat, In plat (platforms p)
                  /\ platform_collision p x_new y y_new vy
                     = (platform_top p plat, 0).
Proof.
  unfold platform_collision. destruct (Qltb vy 0); [|left; reflexivity].
  apply platform_scan_cases.
Qed.

(** [proposed], spelled out on the values the ground check leaves. *)
Lemma proposed_eq (p : Preset) (e : Env) (x y vx0 vy0 : Q) (movement jump : Z) :
  let vx := horizontal_control p movement in
  let vy_g := (if jump_triggered p e x y vy0 jump then jump_speed p else vy0)
              + gravity p * dt p in
  let x_new := x + vx * dt p in
  let g := ground_collision (y + vy_g * dt p) vy_g in
  proposed p e (x, y, vx0, vy0) (movement, jump)
  = (x_new, fst (platform_collision p x_new y (fst g) (snd g)), vx,
     snd (platform_collision p x_new y (fst g) (snd g))).
Proof.
  intros vx vy_g x_new g. unfold proposed. fold vx vy_g x_new g.
  destruct g as [y_gc vy_gc]. simpl.
  destruct (platform_collision p x_new y y_gc vy_gc). reflexivity.
Qed.

(** C7.  Platform resolution inside [step].  With [vy_g] the velocity after
    gravity and [(y_gc, vy_gc)] what the ground check leaves of the
    integrated height and of [vy_g]: the platforms are consulted only if
    [vy_gc < 0], which needs [vy_g < 0]; otherwise the values pass through
    unchanged.  When they are consulted, the first platform of the list that
    was crossed from above and lies under the new horizontal extent gets the
    player: the height becomes that platform's top and the vertical velocity
    0, whatever platforms follow it in the list. *)
Theorem platform_first_match (p : Preset) (e : Env) (x y vx0 vy0 : Q)
        (movement jump : Z) :
  let vx := horizontal_control p movement in
  let vy_g := (if jump_triggered p e x y vy0 jump then jump_speed p else vy0)
              + gravity p * dt p in
  let x_new := x + vx * dt p in
  let y_gc := fst (ground_collision (y + vy_g * dt p) vy_g) in
  let vy_gc := snd (ground_collision (y + vy_g * dt p) vy_g) in
  (Qltb vy_gc 0 = true -> vy_g < 0)
  /\ (Qltb vy_gc 0 = false ->
      proposed p e (x, y, vx0, vy0) (movement, jump) = (x_new, y_gc, vx, vy_gc))
  /\ (Qltb vy_gc 0 = true ->
      forall before plat after,
        platforms p = before ++ plat :: after ->
        (forall q, In q before -> lands_on p x_new y y_gc q = false) ->
        lands_on p x_new y y_gc plat = true ->
        proposed p e (x, y, vx0, vy0) (movement, jump)
        = (x_new, platform_top p plat, vx, 0)).
Proof.
  intros vx vy_g x_new y_gc vy_gc.
  pose proof (proposed_eq p e x y vx0 vy0 movement jump) as P.
  cbv zeta in P. fold vx vy_g x_new y_gc vy_gc in P.
  repeat split.
  - intros Hneg. subst vy_gc.
    destruct (ground_collision_cases (y + vy_g * dt p) vy_g) as [[_ G] | [_ G]];
      rewrite G in Hneg; simpl in Hneg; reflect_cmp; [lra | exact Hneg].
  - intros Hpos. rewrite P. unfold platform_collision. rewrite Hpos.
    reflexivity.
  - intros Hneg before plat after Hlist Hbefore Hplat. rewrite P.
    unfold platform_collision. rewrite Hneg, Hlist.
    rewrite (platform_scan_first p x_new y y_gc vy_gc before after plat Hbefore
                                 Hplat).
    reflexivity.
Qed.

(** A fall of one step from above both shelves to below both: the player is
    put on the shelf listed first, the lower one. *)
Lemma platform_first_match_witness :
  proposed two_shelves init (6, 3.5, 0, -125) (0%Z, 0%Z)
  = (6 + horizontal_control two_shelves 0 * dt two_shelves,
     platform_top two_shelves (4, 8, 1),
     horizontal_control two_shelves 0, 0).
Proof.
  destruct (platform_first_match two_shelves init 6 3.5 0 (-125) 0 0)
    as (_ & _ & Hscan).
  apply (Hscan ltac:(vm_compute; reflexivity) [] (4, 8, 1) [(4, 8, 3)]).
  - reflexivity.
  - intros q [].
  - vm_compute; reflexivity.
Defined.

(** The order of the list decides, not the geometry: falling in one step
    across two stacked platforms, the player is put on the one listed first,
    here the lower one, although the upper surface is met first. *)
Example platform_order_quirk :
  let shelves := [ (4, 8, 1); (4, 8, 3) ] in
  platform_scan v0 6 3.5 1 (-125) shelves = (1.2, 0)
  /\ platform_scan v0 6 3.5 1 (-125) (rev shelves) = (3.2, 0).
Proof. split; reflexivity. Qed.

(** [step] stores the resolved motion, passed through float32. *)
Lemma step_state (p : Preset) (e : Env) (a : Z * Z) (s : Q * Q * Q * Q) :
  state e = Some s ->
  exists e' r,
    step p e a = Ok (e', r)
    /\ state e' = Some (let '(x_new, y_new, vx, vy) := resolved p e s a in
                        (float32 x_new, float32 y_new, float32 vx, float32 vy)).
Proof.
  intros Hs. unfold step. rewrite Hs.
  destruct s as [[[x y] vx0] vy0]. destruct a as [movement jump].
  destruct (resolved p e (x, y, vx0, vy0) (movement, jump))
    as [[[x_new y_new] vx] vy].
  eexists. eexists. split; reflexivity.
Qed.

(** The observation [reset] and [step] return is [_get_obs] of the instance
    they leave. *)
Lemma reset_obs (p : Preset) (e : Env) (seed : option Z) :
  _get_obs p (fst (reset p e seed)) = Ok (snd (reset p e seed)).
Proof. reflexivity. Qed.

Lemma step_obs (p : Preset) (e e' : Env) (a : Z * Z) (r : StepResult) :
  step p e a = Ok (e', r) -> _get_obs p e' = Ok (obs r).
Proof.
  unfold step. destruct (state e) as [[[[x y] vx0] vy0]|]; [|discriminate].
  destruct a as [movement jump].
  destruct (resolved p e (x, y, vx0, vy0) (movement, jump))
    as [[[x_new y_new] vx] vy].
  intros [= <- <-]. reflexivity.
Qed.

(** C1.  The wall inside [step].  Let the proposed position overlap the wall
    horizontally and vertically.  If the height before the step lies in the
    bug gap, the state stores the proposed [x_new] and the commanded [vx]
    untouched (so the player moves through the wall at the commanded speed).
    If it lies outside the gap and below the wall's height, the state stores
    the wall face on the side of the previous [x] and [vx = 0]. *)
Theorem wall_gap_or_block (p : Preset) (e e' : Env) (r : StepResult)
        (x y vx0 vy0 x_new y_new vx vy : Q) (a : Z * Z) :
  state e = Some (x, y, vx0, vy0) ->
  step p e a = Ok (e', r) ->
  proposed p e (x, y, vx0, vy0) a = (x_new, y_new, vx, vy) ->
  inside_wall_horizontal p x_new = true ->
  inside_wall_vertical p y_new = true ->
  vx = horizontal_control p (fst a)
  /\ (in_bug_gap p y = true ->
      exists y' vy', state e' = Some (float32 x_new, y', float32 vx, vy'))
  /\ (in_bug_gap p y = false -> y < wall_height p ->
      state e' = Some (float32 (if Qltb x (wall_x p)
                                then wall_left p - player_half_width p
                                else wall_right p + player_half_width p),
                       float32 y_new, float32 0, float32 vy)).
Proof.
  intros Hs Hstep Hprop Hh Hv.
  destruct (step_state p e a _ Hs) as (e1 & r1 & Hstep1 & Hst).
  rewrite Hstep in Hstep1. injection Hstep1 as <- <-.
  unfold resolved in Hst. rewrite Hprop in Hst.
  unfold wall_collision in Hst. rewrite Hh, Hv in Hst. simpl in Hst.
  repeat split.
  - destruct a as [movement jump].
    rewrite proposed_eq in Hprop. injection Hprop as _ _ <- _. reflexivity.
  - intros Hgap. rewrite Hgap in Hst.
    destruct (Qleb y_new (bug_gap_y_min p));
      [|destruct (Qleb (bug_gap_y_max p) (y_new + hitbox_height p))];
      rewrite Hst; eexists; eexists; reflexivity.
  - intros Hgap Hbelow. rewrite Hgap in Hst.
    apply Qltb_lt in Hbelow. unfold within_wall_height in Hst.
    rewrite Hbelow in Hst. simpl in Hst.
    destruct (Qltb x (wall_x p)); exact Hst.
Qed.

(** Preset v0, one step to the right from [x = 9.4].  Falling at height
    1.268, inside the gap, the player is stored at [x = 9.48], inside the
    wall's width, with [vx = 4]; on the ground it is put back at the wall's
    left face with [vx = 0]. *)
Lemma wall_gap_or_block_witness :
  (exists e' r y' vy',
      step v0 (after v0 at_the_gap) (2%Z, 0%Z) = Ok (e', r)
      /\ state e' = Some (float32 (4740 # 500), y', float32 4, vy'))
  /\ (exists e' r,
         step v0 (after v0 (right_only 105)) (2%Z, 0%Z) = Ok (e', r)
         /\ state e'
            = Some (float32 (wall_left v0 - player_half_width v0),
                    float32 0, float32 0, float32 0)).
Proof.
  split.
  - destruct (step v0 (after v0 at_the_gap) (2%Z, 0%Z)) as [[e' r]|] eqn:Hstep;
      [|vm_compute in Hstep; discriminate Hstep].
    destruct (wall_gap_or_block
                v0 (after v0 at_the_gap) e' r
                (47 # 5) (317 # 250) 4 (-24 # 5)
                (4740 # 500) (14500000 # 12500000) 4 (-2700 # 500) (2%Z, 0%Z)
                ltac:(vm_compute; reflexivity) Hstep
                ltac:(vm_compute; reflexivity)
                ltac:(vm_compute; reflexivity)
                ltac:(vm_compute; reflexivity))
      as (_ & Hgap & _).
    destruct (Hgap ltac:(vm_compute; reflexivity)) as (y' & vy' & Hst).
    exists e', r, y', vy'. split; [reflexivity | exact Hst].
  - destruct (step v0 (after v0 (right_only 105)) (2%Z, 0%Z)) as [[e' r]|]
      eqn:Hstep; [|vm_compute in Hstep; discriminate Hstep].
    destruct (wall_gap_or_block
                v0 (after v0 (right_only 105)) e' r
                (47 # 5) 0 4 0
                (4740 # 500) 0 4 0 (2%Z, 0%Z)
                ltac:(vm_compute; reflexivity) Hstep
                ltac:(vm_compute; reflexivity)
                ltac:(vm_compute; reflexivity)
                ltac:(vm_compute; reflexivity))
      as (_ & _ & Hblock).
    exists e', r. split; [reflexivity|].
    exact (Hblock ltac:(vm_compute; reflexivity) ltac:(vm_compute; reflexivity)).
Defined.

(** ** The ground invariant *)

Lemma surfaces_v0 : surfaces_nonneg v0.
Proof.
  unfold surfaces_nonneg. repeat split; try (apply Qle_bool_iff; reflexivity).
  repeat constructor; apply Qle_bool_iff; reflexivity.
Qed.

Lemma surfaces_v1 : surfaces_nonneg v1.
Proof.
  unfold surfaces_nonneg. repeat split; try (apply Qle_bool_iff; reflexivity).
  repeat constructor; apply Qle_bool_iff; reflexivity.
Qed.

Lemma proposed_y_nonneg (p : Preset) (e : Env) (s : Q * Q * Q * Q)
      (a : Z * Z) (x_new y_new vx vy : Q) :
  surfaces_nonneg p ->
  proposed p e s a = (x_new, y_new, vx, vy) -> 0 <= y_new.
Proof.
  intros (_ & _ & _ & Hplats) Hprop.
  destruct s as [[[x y] vx0] vy0], a as [movement jump].
  rewrite proposed_eq in Hprop. cbv zeta in Hprop.
  set (g := ground_collision _ _) in Hprop.
  assert (Hg : 0 <= fst g).
  { subst g. match goal with
             | |- context [ground_collision ?a ?b] =>
                 destruct (ground_collision_cases a b) as [[_ ->] | [G ->]]
             end; simpl; [lra | exact G]. }
  injection Hprop as _ <- _ _.
  match goal with
  | |- context [platform_collision ?p ?a ?b ?c ?d] =>
      destruct (platform_collision_cases p a b c d) as [-> | (plat & Hin & ->)]
  end; simpl; [exact Hg|].
  rewrite Forall_forall in Hplats. apply Hplats, Hin.
Qed.

Lemma wall_collision_y_nonneg (p : Preset) (x y x_new y_new vx vy : Q) :
  surfaces_nonneg p -> 0 <= y_new ->
  let '(_, y', _, _) := wall_collision p x y x_new y_new vx vy in 0 <= y'.
Proof.
  intros (Hmin & Hmax & Hwall & _) Hy. unfold wall_collision.
  repeat match goal with
         | |- context [if ?b then _ else _] => destruct b
         end; assumption.
Qed.

Lemma reachable_state (p : Preset) (e : Env) :
  reachable p e -> exists s, state e = Some s.
Proof.
  induction 1 as [e seed | e a e' r _ [s Hs] Hstep].
  - simpl. eexists; reflexivity.
  - destruct (step_state p e a s Hs) as (e1 & r1 & Hstep1 & Hst).
    rewrite Hstep in Hstep1. injection Hstep1 as <- <-.
    eexists; exact Hst.
Qed.

(** One step from any state that has been set keeps the height at or above
    the ground, provided the preset's surfaces are. *)
Lemma step_y_nonneg (p : Preset) (e : Env) (a : Z * Z) (s : Q * Q * Q * Q) :
  surfaces_nonneg p ->
  state e = Some s ->
  exists e' r x y vx vy,
    step p e a = Ok (e', r)
    /\ state e' = Some (x, y, vx, vy)
    /\ 0 <= y.
Proof.
  intros Hsurf Hs.
  destruct (step_state p e a s Hs) as (e' & r & Hstep & Hst).
  unfold resolved in Hst. destruct s as [[[x y] vx0] vy0].
  destruct (proposed p e (x, y, vx0, vy0) a) as [[[x_new y_new] vx] vy] eqn:Hprop.
  pose proof (proposed_y_nonneg p e _ a _ _ _ _ Hsurf Hprop) as Hy.
  pose proof (wall_collision_y_nonneg p x y x_new y_new vx vy Hsurf Hy) as Hw.
  destruct (wall_collision p x y x_new y_new vx vy) as [[[x' y'] vx'] vy'].
  exists e', r, (float32 x'), (float32 y'), (float32 vx'), (float32 vy').
  repeat split; [exact Hstep | exact Hst |].
  rewrite float32_eq. exact Hw.
Qed.

Lemma surfaces_of_presets (p : Preset) : p = v0 \/ p = v1 -> surfaces_nonneg p.
Proof. intros [-> | ->]; [apply surfaces_v0 | apply surfaces_v1]. Qed.

(** The height is at or above the ground in every reachable state. *)
Lemma reachable_y_nonneg (p : Preset) (e : Env) (x y vx vy : Q) :
  p = v0 \/ p = v1 -> reachable p e -> state e = Some (x, y, vx, vy) -> 0 <= y.
Proof.
  intros Hp Hreach. revert x y vx vy.
  destruct Hreach as [e seed | e a e' r Hreach Hstep]; intros x y vx vy Hs.
  - simpl in Hs. injection Hs as _ <- _ _. rewrite float32_eq.
    destruct Hp as [-> | ->]; apply Qle_refl.
  - destruct (reachable_state p e Hreach) as [s0 Hs0].
    destruct (step_y_nonneg p e a s0 (surfaces_of_presets p Hp) Hs0)
      as (e1 & r1 & x1 & y1 & vx1 & vy1 & Hstep1 & Hs1 & Hy).
    rewrite Hstep in Hstep1. injection Hstep1 as <- <-.
    rewrite Hs in Hs1. injection Hs1 as <- <- <- <-. exact Hy.
Qed.

(** C2.  In both presets, from every reachable state and for every action,
    [step] returns, and the height it stores is not below the ground. *)
Theorem ground_invariant (p : Preset) (e : Env) (a : Z * Z) :
  p = v0 \/ p = v1 ->
  reachable p e ->
  exists e' r x y vx vy,
    step p e a = Ok (e', r)
    /\ state e' = Some (x, y, vx, vy)
    /\ 0 <= y.
Proof.
  intros Hp Hreach.
  destruct (reachable_state p e Hreach) as [s Hs].
  exact (step_y_nonneg p e a s (surfaces_of_presets p Hp) Hs).
Qed.

Lemma ground_invariant_witness :
  exists e' r x y vx vy,
    step v1 (fresh v1) (2%Z, 1%Z) = Ok (e', r)
    /\ state e' = Some (x, y, vx, vy)
    /\ 0 <= y.
Proof.
  exact (ground_invariant v1 (fresh v1) (2%Z, 1%Z) (or_intror eq_refl)
                          (reach_reset v1 init None)).
Defined.

(** ** What [step] depends on *)

Lemma jump_triggered_same (p : Preset) (e1 e2 : Env) (x y vy : Q) (jump : Z) :
  jump_cooldown e1 = jump_cooldown e2 -> prev_jump e1 = prev_jump e2 ->
  jump_triggered p e1 x y vy jump = jump_triggered p e2 x y vy jump.
Proof. intros Hc Hp. unfold jump_triggered. rewrite Hc, Hp. reflexivity. Qed.

Lemma resolved_same (p : Preset) (e1 e2 : Env) (s : Q * Q * Q * Q) (a : Z * Z) :
  jump_cooldown e1 = jump_cooldown e2 -> prev_jump e1 = prev_jump e2 ->
  resolved p e1 s a = resolved p e2 s a.
Proof.
  intros Hc Hp. destruct s as [[[x y] vx0] vy0], a as [movement jump].
  unfold resolved. rewrite !proposed_eq.
  rewrite (jump_triggered_same p e1 e2 x y vy0 jump Hc Hp). reflexivity.
Qed.

Lemma same_play_reset (p : Preset) (e1 e2 : Env) (seed1 seed2 : option Z) :
  same_play p (fst (reset p e1 seed1)) (fst (reset p e2 seed2)).
Proof.
  unfold same_play; simpl. repeat split; try discriminate.
  intros Hst. destruct (stagnation p); [reflexivity | contradiction].
Qed.

(** [step] returns the same on instances that agree in this sense, and
    leaves them in agreement. *)
Lemma step_same_play (p : Preset) (e1 e2 : Env) (a : Z * Z) :
  same_play p e1 e2 ->
  match step p e1 a, step p e2 a with
  | Ok (e1', r1), Ok (e2', r2) => same_play p e1' e2' /\ r1 = r2
  | Raise x1, Raise x2 => x1 = x2
  | _, _ => False
  end.
Proof.
  intros (Hj & Hc & Hp & Hs & Hn & Hrx & Hyb).
  unfold step. rewrite <- Hs.
  destruct (state e1) as [[[[x y] vx0] vy0]|]; [|reflexivity].
  destruct a as [movement jump].
  rewrite <- (resolved_same p e1 e2 _ _ Hc Hp).
  rewrite <- (jump_triggered_same p e1 e2 x y vy0 jump Hc Hp).
  destruct (resolved p e1 (x, y, vx0, vy0) (movement, jump))
    as [[[x_new y_new] vx] vy].
  rewrite <- Hj, <- Hc, <- Hn.
  assert (Hdeque :
            match stagnation p with
            | Some (window, _) => deque_append window (recent_x e1) x_new
            | None => recent_x e1
            end
            = match stagnation p with
              | Some (window, _) => deque_append window (recent_x e2) x_new
              | None => recent_x e2
              end \/ stagnation p = None).
  { destruct (stagnation p) as [[window threshold]|];
      [left; rewrite Hrx by discriminate; reflexivity | right; reflexivity]. }
  assert (Hagree : forall j c yb1 yb2 rx1 rx2 s' n sd1 sd2,
             (j = true -> yb1 = yb2) ->
             (rx1 = rx2 \/ stagnation p = None) ->
             same_play p
               {| y_before_jump := yb1; is_jumping := j; jump_cooldown := c;
                  prev_jump := jump; state := s'; steps := n;
                  recent_x := rx1; np_random_seed := sd1 |}
               {| y_before_jump := yb2; is_jumping := j; jump_cooldown := c;
                  prev_jump := jump; state := s'; steps := n;
                  recent_x := rx2; np_random_seed := sd2 |}).
  { intros j c yb1 yb2 rx1 rx2 s' n sd1 sd2 Hyb' Hrx'.
    unfold same_play; simpl. repeat split; [|exact Hyb'].
    intros Hst. destruct Hrx' as [E | E]; [exact E | contradiction]. }
  destruct (jump_triggered p e1 x y vy0 jump).
  - split.
    + apply Hagree; [reflexivity | exact Hdeque].
    + destruct Hdeque as [-> | ->]; reflexivity.
  - destruct (is_jumping e1) eqn:Hj1.
    + rewrite <- (Hyb eq_refl). split.
      * apply Hagree; [reflexivity | exact Hdeque].
      * destruct Hdeque as [-> | ->]; reflexivity.
    + unfold jump_lands; simpl. split.
      * apply Hagree; [discriminate | exact Hdeque].
      * destruct Hdeque as [-> | ->]; reflexivity.
Qed.

(** Once reset, an instance never raises. *)
Lemma run_ok (p : Preset) (actions : list (Z * Z)) (e : Env) (s : Q * Q * Q * Q) :
  state e = Some s -> exists e' rs, run p e actions = Ok (e', rs).
Proof.
  revert e s. induction actions as [|a rest IH]; intros e s Hs; simpl.
  - eexists; eexists; reflexivity.
  - destruct (step_state p e a s Hs) as (e1 & r & -> & Hs1).
    destruct (IH e1 _ Hs1) as (e2 & rs & ->).
    eexists; eexists; reflexivity.
Qed.

Lemma run_same_play (p : Preset) (actions : list (Z * Z)) (e1 e2 : Env)
      (e1' e2' : Env) (rs1 rs2 : list StepResult) :
  same_play p e1 e2 ->
  run p e1 actions = Ok (e1', rs1) ->
  run p e2 actions = Ok (e2', rs2) ->
  rs1 = rs2.
Proof.
  revert e1 e2 e1' e2' rs1 rs2.
  induction actions as [|a rest IH]; intros e1 e2 e1' e2' rs1 rs2 Hsame; simpl.
  - intros [= _ <-] [= _ <-]. reflexivity.
  - pose proof (step_same_play p e1 e2 a Hsame) as Hstep.
    destruct (step p e1 a) as [[f1 r1]|]; [|discriminate].
    destruct (step p e2 a) as [[f2 r2]|]; [|contradiction].
    destruct Hstep as [Hsame' <-].
    destruct (run p f1 rest) as [[g1 l1]|] eqn:R1; [|discriminate].
    destruct (run p f2 rest) as [[g2 l2]|] eqn:R2; [|discriminate].
    intros [= _ <-] [= _ <-]. f_equal.
    exact (IH f1 f2 g1 g2 l1 l2 Hsame' R1 R2).
Qed.

(** C6.  Two runs are the same run: take two instances in any condition
    (new, or used for earlier episodes), reset both with the same seed and
    feed both the same actions.  Both runs return at every step, the initial
    observations are equal, and so are the observations, rewards and both
    flags of every step. *)
Theorem runs_are_deterministic (p : Preset) (e1 e2 : Env) (seed : option Z)
        (actions : list (Z * Z)) :
  snd (reset p e1 seed) = snd (reset p e2 seed)
  /\ exists e1' e2' rs,
      run p (fst (reset p e1 seed)) actions = Ok (e1', rs)
      /\ run p (fst (reset p e2 seed)) actions = Ok (e2', rs).
Proof.
  split; [reflexivity|].
  destruct (run_ok p actions (fst (reset p e1 seed)) _ eq_refl)
    as (e1' & rs1 & R1).
  destruct (run_ok p actions (fst (reset p e2 seed)) _ eq_refl)
    as (e2' & rs2 & R2).
  exists e1', e2', rs1. split; [exact R1|].
  rewrite R2. do 2 f_equal. symmetry.
  exact (run_same_play p actions _ _ _ _ _ _
                       (same_play_reset p e1 e2 seed seed) R1 R2).
Qed.

(** C10.  The seed is ignored: whatever the two seeds (absent included),
    [reset] returns the same observation and the same actions then give the
    same results at every step.  The state after [reset] is
    [(start_x, start_y, 0, 0)], with cooldown 0, no jump in progress, the
    previous jump bit 0 and the step count 0. *)
Theorem seed_is_ignored (p : Preset) (e : Env) (seed1 seed2 : option Z)
        (actions : list (Z * Z)) :
  snd (reset p e seed1) = snd (reset p e seed2)
  /\ (exists x y vx vy,
         state (fst (reset p e seed1)) = Some (x, y, vx, vy)
         /\ x == start_x p /\ y == start_y p /\ vx == 0 /\ vy == 0)
  /\ jump_cooldown (fst (reset p e seed1)) = 0%Z
  /\ is_jumping (fst (reset p e seed1)) = false
  /\ prev_jump (fst (reset p e seed1)) = 0%Z
  /\ steps (fst (reset p e seed1)) = 0%Z
  /\ exists e1 e2 rs,
      run p (fst (reset p e seed1)) actions = Ok (e1, rs)
      /\ run p (fst (reset p e seed2)) actions = Ok (e2, rs).
Proof.
  split; [reflexivity|]. split.
  { simpl. do 4 eexists. split; [reflexivity|].
    repeat split; apply float32_eq. }
  repeat split.
  destruct (run_ok p actions (fst (reset p e seed1)) _ eq_refl)
    as (e1 & rs1 & R1).
  destruct (run_ok p actions (fst (reset p e seed2)) _ eq_refl)
    as (e2 & rs2 & R2).
  exists e1, e2, rs1. split; [exact R1|].
  rewrite R2. do 2 f_equal. symmetry.
  exact (run_same_play p actions _ _ _ _ _ _
                       (same_play_reset p e e seed1 seed2) R1 R2).
Qed.

(** ** The jump logic *)

Lemma wall_collision_vy (p : Preset) (x y x_new y_new vx vy : Q) :
  let '(_, _, _, vy') := wall_collision p x y x_new y_new vx vy in
  vy' = 0 \/ vy' = vy.
Proof.
  unfold wall_collision.
  repeat match goal with
         | |- context [if ?b then _ else _] => destruct b
         end; auto.
Qed.

(** What one [step] does to the jump bookkeeping and to [vy]. *)
Lemma step_jump_effect (p : Preset) (e e' : Env) (r : StepResult)
      (x y vx0 vy0 : Q) (movement jump : Z) :
  state e = Some (x, y, vx0, vy0) ->
  step p e (movement, jump) = Ok (e', r) ->
  let triggered := jump_triggered p e x y vy0 jump in
  jump_cooldown e'
  = (if triggered then jump_cooldown_max p else tick_cooldown (jump_cooldown e))
  /\ prev_jump e' = jump
  /\ exists x' y' vx' vy',
      state e' = Some (x', y', vx', vy')
      /\ (vy' == 0
          \/ vy' == (if triggered then jump_speed p else vy0)
                    + gravity p * dt p).
Proof.
  intros Hs Hstep triggered.
  assert (Hvy : let '(_, _, _, vy') :=
                  resolved p e (x, y, vx0, vy0) (movement, jump) in
                vy' = 0
                \/ vy' = (if triggered then jump_speed p else vy0)
                         + gravity p * dt p).
  { unfold resolved. rewrite proposed_eq. cbv zeta. fold triggered.
    set (vy_g := (if triggered then jump_speed p else vy0) + gravity p * dt p).
    set (x_new := x + horizontal_control p movement * dt p).
    assert (Hg : snd (ground_collision (y + vy_g * dt p) vy_g) = 0
                 \/ snd (ground_collision (y + vy_g * dt p) vy_g) = vy_g).
    { destruct (ground_collision_cases (y + vy_g * dt p) vy_g)
        as [[_ ->] | [_ ->]]; auto. }
    set (g := ground_collision (y + vy_g * dt p) vy_g) in *.
    assert (Hp : snd (platform_collision p x_new y (fst g) (snd g)) = 0
                 \/ snd (platform_collision p x_new y (fst g) (snd g)) = vy_g).
    { destruct (platform_collision_cases p x_new y (fst g) (snd g))
        as [-> | (plat & _ & ->)]; simpl; auto. }
    set (pc := platform_collision p x_new y (fst g) (snd g)) in *.
    pose proof (wall_collision_vy p x y x_new (fst pc)
                                  (horizontal_control p movement) (snd pc))
      as Hw.
    destruct (wall_collision p x y x_new (fst pc)
                             (horizontal_control p movement) (snd pc))
      as [[[? ?] ?] vy'].
    destruct Hw as [-> | ->]; auto. }
  unfold step in Hstep. rewrite Hs in Hstep. fold triggered in Hstep.
  destruct (resolved p e (x, y, vx0, vy0) (movement, jump))
    as [[[x_new y_new] vx] vy].
  injection Hstep as <- _. simpl.
  repeat split. do 4 eexists. split; [reflexivity|].
  rewrite float32_eq. destruct Hvy as [-> | ->]; [left | right]; reflexivity.
Qed.

Lemma tick_cooldown_inject (c : Z) :
  inject_Z (tick_cooldown c) == inject_Z c - 1
  \/ (c <= 0)%Z /\ tick_cooldown c = c.
Proof.
  unfold tick_cooldown. destruct (c >? 0)%Z eqn:E.
  - left. unfold Z.sub. rewrite inject_Z_plus. reflexivity.
  - right. split; [lia | reflexivity].
Qed.

Lemma tick_cooldown_max (c : Z) :
  (0 <= c)%Z -> tick_cooldown c = Z.max 0 (c - 1).
Proof.
  intros Hc. unfold tick_cooldown. destruct (c >? 0)%Z eqn:E; lia.
Qed.

Lemma reachable_vy_bounded (e : Env) : reachable v0 e -> vy_bounded e.
Proof.
  induction 1 as [e seed | e a e' r Hreach IH Hstep].
  - intros x y vx vy [= _ _ _ <-]. left. apply Qle_refl.
  - destruct (reachable_state v0 e Hreach) as [[[[x y] vx0] vy0] Hs].
    destruct a as [movement jump].
    destruct (step_jump_effect v0 e e' r x y vx0 vy0 movement jump Hs Hstep)
      as (Hc & _ & x' & y' & vx' & vy' & Hs' & Hvy).
    intros x1 y1 vx1 vy1 Hs1. rewrite Hs' in Hs1.
    injection Hs1 as <- <- <- <-.
    rewrite Hc. specialize (IH x y vx0 vy0 Hs).
    destruct Hvy as [-> | ->]; [left; apply Qle_refl|].
    destruct (jump_triggered v0 e x y vy0 jump); simpl.
    + right. apply Qle_bool_iff. reflexivity.
    + destruct (tick_cooldown_inject (jump_cooldown e)) as [-> | [Hle ->]].
      * destruct IH; [left | right]; lra.
      * left. assert (inject_Z (jump_cooldown e) <= 0).
        { change 0 with (inject_Z 0). rewrite <- Zle_Qle. exact Hle. }
        destruct IH; lra.
Qed.

(** [self.prev_jump = jump] is executed by every step. *)
Lemma step_prev_jump (p : Preset) (e e' : Env) (a : Z * Z) (r : StepResult) :
  step p e a = Ok (e', r) -> prev_jump e' = snd a.
Proof.
  unfold step. destruct (state e) as [[[[x y] vx0] vy0]|]; [|discriminate].
  destruct a as [movement jump].
  destruct (resolved p e (x, y, vx0, vy0) (movement, jump))
    as [[[x_new y_new] vx] vy].
  intros [= <- _]. reflexivity.
Qed.

(** While the jump bit stays up, nothing triggers and the cooldown runs down. *)
Lemma held_jump_log (p : Preset) (actions : list (Z * Z)) :
  forall (e : Env) (s : Q * Q * Q * Q) (c : Z),
    state e = Some s -> prev_jump e = 1%Z -> jump_cooldown e = c ->
    (0 <= c)%Z ->
    Forall (fun a => snd a = 1%Z) actions ->
    jump_log p e actions
    = map (fun k => (false, Z.max 0 (c - Z.of_nat k), 1%Z))
          (seq 1 (length actions)).
Proof.
  induction actions as [|[movement jump] rest IH];
    intros e s c Hs Hprev Hc Hpos Hall; [reflexivity|].
  inversion Hall as [|? ? Hjump Hrest]; subst. simpl in Hjump. subst jump.
  destruct s as [[[x y] vx0] vy0].
  destruct (step_state p e (movement, 1%Z) _ Hs) as (e' & r & Hstep & Hs').
  destruct (step_jump_effect p e e' r x y vx0 vy0 movement 1 Hs Hstep)
    as (Hc' & Hprev' & _).
  assert (Hno : jump_triggered p e x y vy0 1 = false)
    by (unfold jump_triggered; rewrite Hprev; reflexivity).
  rewrite Hno in Hc'. rewrite (tick_cooldown_max _ Hpos) in Hc'.
  cbn [jump_log snd length seq map]. rewrite Hs, Hstep, Hno, Hc', Hprev'.
  f_equal.
  rewrite (IH e' _ _ Hs' Hprev' Hc'); [| lia | exact Hrest].
  rewrite <- (seq_shift (length rest) 1), map_map. apply map_ext. intros k.
  f_equal. f_equal. lia.
Qed.

(** A triggered jump reaches the state: from a height at or above the
    ground, the step stores [vy = jump_speed + gravity * dt]; no collision
    of that step takes it away. *)
Lemma triggered_step_vy (e e' : Env) (r : StepResult) (x y vx0 vy0 : Q)
      (movement jump : Z) :
  state e = Some (x, y, vx0, vy0) ->
  0 <= y ->
  jump_triggered v0 e x y vy0 jump = true ->
  step v0 e (movement, jump) = Ok (e', r) ->
  exists x' y' vx' vy',
    state e' = Some (x', y', vx', vy')
    /\ vy' == jump_speed v0 + gravity v0 * dt v0.
Proof.
  intros Hs Hy Htrig Hstep.
  destruct (step_state v0 e (movement, jump) _ Hs) as (e1 & r1 & Hstep1 & Hst).
  rewrite Hstep in Hstep1. injection Hstep1 as <- <-.
  unfold resolved in Hst. rewrite proposed_eq in Hst. cbv zeta in Hst.
  rewrite Htrig in Hst.
  change (jump_speed v0) with 12 in *.
  change (gravity v0) with (-30) in *. change (dt v0) with 0.02 in *.
  set (vy_g := 12 + -30 * 0.02) in *.
  set (x_new := x + horizontal_control v0 movement * 0.02) in *.
  assert (Hvy_g : vy_g == 11.4) by reflexivity.
  assert (Hg : ground_collision (y + vy_g * 0.02) vy_g
               = (y + vy_g * 0.02, vy_g)).
  { destruct (ground_collision_cases (y + vy_g * 0.02) vy_g)
      as [[Hneg _] | [_ G]]; [lra | exact G]. }
  rewrite Hg in Hst. cbn [fst snd] in Hst.
  assert (Hp : platform_collision v0 x_new y (y + vy_g * 0.02) vy_g
               = (y + vy_g * 0.02, vy_g)) by reflexivity.
  rewrite Hp in Hst. cbn [fst snd] in Hst.
  assert (Hw : let '(_, _, _, vy') :=
                 wall_collision v0 x y x_new (y + vy_g * 0.02)
                                (horizontal_control v0 movement) vy_g in
               vy' = vy_g).
  { unfold wall_collision.
    destruct (inside_wall_horizontal v0 x_new); [|reflexivity].
    destruct (inside_wall_vertical v0 (y + vy_g * 0.02)) eqn:Hv;
      [|reflexivity].
    cbn [andb].
    unfold inside_wall_vertical in Hv. change (wall_height v0) with 7 in Hv.
    destruct (in_bug_gap v0 y) eqn:Hgap.
    - unfold in_bug_gap in Hgap. change (bug_gap_y_min v0) with 1 in *.
      destruct (Qleb (y + vy_g * 0.02) 1) eqn:Hlow.
      + reflect_cmp. lra.
      + destruct (Qleb (bug_gap_y_max v0)
                       (y + vy_g * 0.02 + hitbox_height v0)); reflexivity.
    - destruct (within_wall_height v0 y) eqn:Hwithin; cbn [negb].
      + destruct (Qltb x (wall_x v0)); reflexivity.
      + unfold within_wall_height in Hwithin.
        change (wall_height v0) with 7 in Hwithin. reflect_cmp. lra. }
  destruct (wall_collision v0 x y x_new (y + vy_g * 0.02)
                           (horizontal_control v0 movement) vy_g)
    as [[[x' y'] vx'] vy'].
  subst vy'. do 4 eexists. split; [exact Hst|]. apply float32_eq.
Qed.



(** ** Running to the right in exact arithmetic, preset v0 *)

Lemma v0_half_width : player_half_width v0 == 0.3.
Proof. reflexivity. Qed.

Lemma v0_wall_left : wall_left v0 == 9.7.
Proof. reflexivity. Qed.

Lemma v0_wall_right : wall_right v0 == 10.3.
Proof. reflexivity. Qed.

(** One step to the right on the ground, left of the wall, without
    rounding: the player advances by 0.08, or is put back against the
    wall's left face. *)
Lemma resolved_walk_right (e : Env) (x y vx vy : Q) :
  y == 0 -> vy == 0 -> x <= 9.4 ->
  resolved v0 e (x, y, vx, vy) (2%Z, 0%Z)
  = if Qltb 9.4 (x + 4 * 0.02)
    then (wall_left v0 - player_half_width v0, 0, 0, 0)
    else (x + 4 * 0.02, 0, 4, 0).
Proof.
  intros Hy Hvy Hx.
  pose proof v0_half_width as Hhw. pose proof v0_wall_left as Hwl.
  pose proof v0_wall_right as Hwr.
  unfold resolved. rewrite proposed_eq. cbv zeta.
  assert (Hj : jump_triggered v0 e x y vy 0 = false) by reflexivity.
  rewrite Hj.
  change (horizontal_control v0 2) with 4.
  change (gravity v0) with (-30). change (dt v0) with 0.02.
  assert (Hg : ground_collision (y + (vy + -30 * 0.02) * 0.02)
                                (vy + -30 * 0.02) = (0, 0)).
  { unfold ground_collision.
    assert (H : Qltb (y + (vy + -30 * 0.02) * 0.02) 0 = true)
      by (apply Qltb_lt; lra).
    rewrite H. reflexivity. }
  rewrite Hg. cbn [fst snd].
  assert (Hp : platform_collision v0 (x + 4 * 0.02) y 0 0 = (0, 0))
    by reflexivity.
  rewrite Hp. cbn [fst snd].
  unfold wall_collision.
  assert (Hv : inside_wall_vertical v0 0 = true) by reflexivity.
  assert (Hgap : in_bug_gap v0 y = false).
  { unfold in_bug_gap. apply andb_false_iff. left. apply Qleb_gt.
    change (bug_gap_y_min v0) with 1. lra. }
  assert (Hwithin : within_wall_height v0 y = true).
  { apply Qltb_lt. change (wall_height v0) with 7. lra. }
  assert (Hleft : Qltb x (wall_x v0) = true).
  { apply Qltb_lt. change (wall_x v0) with 10. lra. }
  assert (Hh : inside_wall_horizontal v0 (x + 4 * 0.02)
               = Qltb 9.4 (x + 4 * 0.02)).
  { unfold inside_wall_horizontal.
    assert (H2 : Qltb (x + 4 * 0.02 - player_half_width v0) (wall_right v0)
                 = true)
      by (apply Qltb_lt; lra).
    rewrite H2, andb_true_r.
    destruct (Qltb 9.4 (x + 4 * 0.02)) eqn:E.
    - apply Qltb_lt. apply Qltb_lt in E. lra.
    - apply Qltb_ge. apply Qltb_ge in E. lra. }
  rewrite Hh, Hv, Hgap, Hwithin, Hleft.
  destruct (Qltb 9.4 (x + 4 * 0.02)); reflexivity.
Qed.

Lemma step_walk_right (e : Env) (x y vx vy : Q) :
  state e = Some (x, y, vx, vy) -> y == 0 -> vy == 0 -> x <= 9.4 ->
  exists e' r x' vx',
    step v0 e (2%Z, 0%Z) = Ok (e', r)
    /\ state e' = Some (x', 0, vx', 0)
    /\ x' == Qmin (x + 0.08) 9.4
    /\ steps e' = (steps e + 1)%Z
    /\ terminated r = false
    /\ truncated r = (steps e + 1 >=? 1000)%Z.
Proof.
  intros Hs Hy Hvy Hx.
  pose proof v0_half_width as Hhw. pose proof v0_wall_left as Hwl.
  pose proof (resolved_walk_right e x y vx vy Hy Hvy Hx) as Hr.
  unfold step. rewrite Hs, Hr.
  destruct (Qltb 9.4 (x + 4 * 0.02)) eqn:E.
  - apply Qltb_lt in E.
    do 4 eexists. split; [reflexivity|].
    cbn [state steps terminated truncated]. repeat split.
    rewrite float32_eq. rewrite Q.min_r by lra. lra.
  - apply Qltb_ge in E.
    assert (Hflag : _reached_flag v0 (x + 4 * 0.02) 0 = false).
    { unfold _reached_flag. apply andb_false_iff. left. apply Qltb_ge.
      change (flag_x v0) with 20. rewrite Qabs_neg by lra. lra. }
    rewrite Hflag.
    do 4 eexists. split; [reflexivity|].
    cbn [state steps terminated truncated]. repeat split.
    rewrite float32_eq. rewrite Q.min_l by lra. lra.
Qed.

Lemma inject_nat_succ (n : nat) :
  inject_Z (Z.of_nat (S n)) == inject_Z (Z.of_nat n) + 1.
Proof.
  rewrite Nat2Z.inj_succ. unfold Z.succ. rewrite inject_Z_plus. reflexivity.
Qed.

Lemma inject_nat_nonneg (n : nat) : 0 <= inject_Z (Z.of_nat n).
Proof. change 0 with (inject_Z 0). rewrite <- Zle_Qle. lia. Qed.

(** Any number of steps to the right, from the ground left of the wall,
    without rounding. *)
Lemma run_right_only (n : nat) :
  forall (e : Env) (x y vx vy : Q),
    state e = Some (x, y, vx, vy) -> y == 0 -> vy == 0 -> x <= 9.4 ->
    exists e' rs x' y' vx' vy',
      run v0 e (right_only n) = Ok (e', rs)
      /\ state e' = Some (x', y', vx', vy')
      /\ x' == Qmin (x + 0.08 * inject_Z (Z.of_nat n)) 9.4
      /\ y' == 0 /\ vy' == 0
      /\ map terminated rs = repeat false n
      /\ map truncated rs
         = map (fun k => (steps e + Z.of_nat k >=? 1000)%Z) (seq 1 n).
Proof.
  induction n as [|n IH]; intros e x y vx vy Hs Hy Hvy Hx.
  - exists e, [], x, y, vx, vy. repeat split; try assumption.
    rewrite Q.min_l; [ring | change (inject_Z (Z.of_nat 0)) with 0; lra].
  - destruct (step_walk_right e x y vx vy Hs Hy Hvy Hx)
      as (e1 & r & x1 & vx1 & Hstep & Hs1 & Hx1 & Hn1 & Hterm & Htrunc).
    assert (Hx1le : x1 <= 9.4) by (rewrite Hx1; apply Q.le_min_r).
    destruct (IH e1 x1 0 vx1 0 Hs1 (Qeq_refl 0) (Qeq_refl 0) Hx1le)
      as (e' & rs & x' & y' & vx' & vy' & Hrun & Hs' & Hx' & Hy' & Hvy'
          & Hterms & Htruncs).
    exists e', (r :: rs), x', y', vx', vy'.
    cbn [right_only repeat run]. fold (right_only n). rewrite Hstep, Hrun.
    repeat split; try assumption.
    + rewrite Hx'. pose proof (inject_nat_succ n) as HS.
      pose proof (inject_nat_nonneg n) as Hpos.
      destruct (Q.min_spec (x + 0.08) 9.4) as [[Hlt Hm] | [Hge Hm]];
        rewrite Hm in Hx1.
      * rewrite Hx1, HS. apply Q.min_compat; [ring | reflexivity].
      * rewrite Hx1. rewrite !Q.min_r by nra. reflexivity.
    + cbn [map repeat]. rewrite Hterm, Hterms. reflexivity.
    + cbn [map seq]. rewrite Htrunc, Htruncs. f_equal.
      rewrite <- (seq_shift n 1), map_map. apply map_ext. intros k.
      rewrite Hn1. f_equal. lia.
Qed.

(** ** Rounded arithmetic *)

Lemma close_unrounded : close unrounded.
Proof.
  intros t. unfold unrounded. split.
  - intros s q _. setoid_replace (q - q) with 0 by ring.
    change (Qabs 0) with 0.
    pose proof (Qabs_nonneg q) as Hq. unfold unit_roundoff, underflow.
    assert (H : 0 <= (6 # 100000000) * Qabs q)
      by (apply Qmult_le_0_compat; [discriminate | exact Hq]).
    lra.
  - intros s q Hq. exact Hq.
Qed.

(** The product of two numbers known up to an error. *)
Lemma prod_bounds (a b a0 b0 ea eb Ba Bb : Q) :
  - ea <= a - a0 -> a - a0 <= ea ->
  - eb <= b - b0 -> b - b0 <= eb ->
  - Bb <= b -> b <= Bb ->
  - Ba <= a0 -> a0 <= Ba ->
  a0 * b0 - (ea * Bb + Ba * eb) <= a * b
  /\ a * b <= a0 * b0 + (ea * Bb + Ba * eb).
Proof.
  intros H1 H2 H3 H4 H5 H6 H7 H8.
  assert (E : a * b == a0 * b0 + ((a - a0) * b + a0 * (b - b0))) by ring.
  assert (P1 : - (ea * Bb) <= (a - a0) * b /\ (a - a0) * b <= ea * Bb)
    by (split; nra).
  assert (P2 : - (Ba * eb) <= a0 * (b - b0) /\ a0 * (b - b0) <= Ba * eb)
    by (split; nra).
  destruct P1, P2. split; lra.
Qed.

Section RoundedFacts.

Variable f : Z -> Q -> Q.
Hypothesis f_close : close_at f.

(** A rounded number is as close to the exact one as the latter is small. *)
Lemma fl_within (B : Q) (s : Z) (q : Q) :
  - B <= q -> q <= B -> 0.000001 <= B -> B <= 1000000 ->
  q - (1 # 10000000) * B <= f s q /\ f s q <= q + (1 # 10000000) * B.
Proof.
  intros Hlo Hhi HB0 HB.
  assert (Habs : Qabs q <= B) by (apply Qabs_Qle_condition; split; assumption).
  assert (Hover : Qabs q <= overflow).
  { apply (Qle_trans _ B); [exact Habs|].
    apply (Qle_trans _ 1000000); [exact HB | discriminate]. }
  pose proof (proj1 f_close s q Hover) as H.
  unfold unit_roundoff, underflow in H.
  assert (Hle : (6 # 100000000) * Qabs q <= (6 # 100000000) * B)
    by (apply Qmult_le_l; [reflexivity | exact Habs]).
  assert (Hb : Qabs (f s q - q) <= (1 # 10000000) * B) by lra.
  apply Qabs_Qle_condition in Hb as [H1 H2].
  split; lra.
Qed.

Lemma fl_zero (s : Z) (q : Q) : q == 0 -> f s q == 0.
Proof. apply (proj2 f_close). Qed.

End RoundedFacts.

(** ** Without rounding *)

Lemma on_ground_unrounded (t c : Z) (p : Preset) (x y : Q) :
  _on_ground_fl (unrounded t) c p x y = _on_ground p x y.
Proof.
  unfold _on_ground_fl, _on_ground, rlt, rsub, radd, unrounded.
  replace (existsb _ (platforms p))
    with (existsb (fun plat =>
                     Qltb (Qabs (y - platform_top p plat)) eps
                     && is_over_platform p x plat) (platforms p)).
  - reflexivity.
  - induction (platforms p) as [|[[px1 px2] py] rest IH]; [reflexivity|].
    cbn [existsb]. rewrite IH. reflexivity.
Qed.

Lemma jump_triggered_unrounded (t : Z) (p : Preset) (e : Env) (x y vy : Q)
      (jump : Z) :
  jump_triggered_fl (unrounded t) p e x y vy jump
  = jump_triggered p e x y vy jump.
Proof.
  unfold jump_triggered_fl, jump_triggered.
  rewrite on_ground_unrounded. reflexivity.
Qed.

Lemma platform_scan_unrounded (t : Z) (p : Preset) (x_new y y_new vy : Q)
      (plats : list (Q * Q * Q)) :
  platform_scan_fl (unrounded t) p x_new y y_new vy plats
  = platform_scan p x_new y y_new vy plats.
Proof.
  induction plats as [|[[px1 px2] py] rest IH]; [reflexivity|].
  cbn [platform_scan_fl platform_scan]. rewrite IH. reflexivity.
Qed.

Lemma resolved_unrounded (t : Z) (p : Preset) (e : Env) (s : Q * Q * Q * Q)
      (a : Z * Z) :
  resolved_fl (unrounded t) p e s a = resolved p e s a.
Proof.
  destruct s as [[[x y] vx0] vy0], a as [movement jump].
  unfold resolved_fl, resolved, proposed_fl, proposed.
  rewrite jump_triggered_unrounded.
  unfold ground_collision_fl, ground_collision, platform_collision_fl,
    platform_collision.
  change (radd (unrounded t) 14500) with Qplus.
  change (radd (unrounded t) 14800) with Qplus.
  change (radd (unrounded t) 14900) with Qplus.
  change (rmul (unrounded t) 14510) with Qmult.
  change (rmul (unrounded t) 14810) with Qmult.
  change (rmul (unrounded t) 14910) with Qmult.
  change (rlt (unrounded t) 15200) with Qltb.
  change (rlt (unrounded t) 15700) with Qltb.
  destruct (Qltb _ 0); [|destruct (Qltb _ 0)];
    rewrite ?platform_scan_unrounded;
    repeat match goal with
           | |- context [let '(a, b) := ?t in _] => destruct t
           end; reflexivity.
Qed.

(** Without rounding, [step_fl] is [step]: the same flags and the same
    instance, up to the lowest terms in which the exact definitions store
    the state. *)
Lemma step_unrounded (t : Z) (p : Preset) (e e1 : Env) (a : Z * Z)
      (flags : bool * bool) :
  step_fl (unrounded t) p e a = Ok (e1, flags) ->
  exists r,
    step p e a = Ok (stored e1, r)
    /\ flags = (terminated r, truncated r).
Proof.
  unfold step_fl, step.
  destruct (state e) as [[[[x y] vx0] vy0]|]; [|discriminate].
  destruct a as [movement jump].
  rewrite jump_triggered_unrounded, resolved_unrounded.
  destruct (resolved p e (x, y, vx0, vy0) (movement, jump))
    as [[[x_new y_new] vx] vy].
  unfold jump_lands_fl, jump_lands. rewrite on_ground_unrounded.
  intros [= <- <-]. eexists. split; reflexivity.
Qed.

Section Walking.

Variable f : Z -> Q -> Q.
Hypothesis f_close : close_at f.

Lemma horizontal_control_range (p : Preset) (movement : Z) :
  move_speed p == 4 ->
  - (4) <= horizontal_control p movement <= 4.
Proof.
  intros Hm. unfold horizontal_control.
  destruct (movement =? 1)%Z; [lra|]. destruct (movement =? 2)%Z; lra.
Qed.

(** On the ground with no jump asked for, gravity pulls the player below
    the ground and the ground check puts it back: the motion handed to the
    wall is on the ground, at rest vertically, and [x] has moved by the
    commanded speed times [dt], up to rounding. *)
Lemma proposed_fl_floor (p : Preset) (e : Env) (x y vx0 vy0 B : Q)
      (movement : Z) :
  gravity p == -30 -> dt p == 0.02 -> move_speed p == 4 ->
  y == 0 -> vy0 == 0 -> 1 <= B -> B <= 1000 -> - B <= x -> x <= B ->
  exists x_new,
    proposed_fl f p e (x, y, vx0, vy0) (movement, 0%Z)
    = (x_new, 0, horizontal_control p movement, 0)
    /\ x + horizontal_control p movement * 0.02 - (3 # 10000000) * B <= x_new
    /\ x_new <= x + horizontal_control p movement * 0.02 + (3 # 10000000) * B.
Proof.
  intros Hg Hdt Hm Hy Hvy HB HB' Hlo Hhi.
  pose proof (horizontal_control_range p movement Hm) as Hvx.
  unfold proposed_fl.
  assert (Hj : jump_triggered_fl f p e x y vy0 0 = false) by reflexivity.
  rewrite Hj. unfold radd, rmul.
  (* vy += gravity * dt *)
  destruct (fl_within f f_close 30 (14510 + 1) (gravity p)) as [G1 G2];
    [lra .. |].
  destruct (fl_within f f_close 1 (14510 + 2) (dt p)) as [D1 D2];
    [lra .. |].
  set (g := f (14510 + 1)%Z (gravity p)) in *.
  set (d := f (14510 + 2)%Z (dt p)) in *.
  destruct (prod_bounds g d (-30) 0.02 0.000003 0.0000001 30 1)
    as [Hgd1 Hgd2]; [lra .. |].
  destruct (fl_within f f_close 1 14510 (g * d)) as [P1 P2]; [lra .. |].
  set (gd := f 14510%Z (g * d)) in *.
  pose proof (fl_zero f f_close (14500 + 1) vy0 Hvy) as V0.
  destruct (fl_within f f_close 1 (14500 + 2) gd) as [V1 V2]; [lra .. |].
  set (a1 := f (14500 + 1)%Z vy0) in *.
  set (a2 := f (14500 + 2)%Z gd) in *.
  destruct (fl_within f f_close 1 14500 (a1 + a2)) as [W1 W2];
    [lra .. |].
  set (vy1 := f 14500%Z (a1 + a2)) in *.
  (* y_new = y + vy * dt *)
  destruct (fl_within f f_close 1 (14910 + 1) vy1) as [Y1 Y2];
    [lra .. |].
  destruct (fl_within f f_close 1 (14910 + 2) (dt p)) as [Y3 Y4];
    [lra .. |].
  set (c1 := f (14910 + 1)%Z vy1) in *.
  set (d3 := f (14910 + 2)%Z (dt p)) in *.
  destruct (prod_bounds c1 d3 (-0.6) 0.02 0.00001 0.0000001 1 1)
    as [Hcd1 Hcd2]; [lra .. |].
  destruct (fl_within f f_close 1 14910 (c1 * d3)) as [Y5 Y6];
    [lra .. |].
  set (vyd := f 14910%Z (c1 * d3)) in *.
  pose proof (fl_zero f f_close (14900 + 1) y Hy) as Y0.
  destruct (fl_within f f_close 1 (14900 + 2) vyd) as [Y7 Y8];
    [lra .. |].
  set (e1 := f (14900 + 1)%Z y) in *.
  set (e2 := f (14900 + 2)%Z vyd) in *.
  destruct (fl_within f f_close 1 14900 (e1 + e2)) as [Y9 Y10];
    [lra .. |].
  set (y_new := f 14900%Z (e1 + e2)) in *.
  (* ground collision *)
  assert (Hground : ground_collision_fl f y_new vy1 = (0, 0)).
  { unfold ground_collision_fl, rlt.
    destruct (fl_within f f_close 1 (15200 + 1) y_new) as [Z1 Z2];
      [lra .. |].
    pose proof (fl_zero f f_close (15200 + 2) 0 (Qeq_refl 0)) as Z0.
    assert (H : Qltb (f (15200 + 1)%Z y_new) (f (15200 + 2)%Z 0) = true)
      by (apply Qltb_lt; lra).
    rewrite H. reflexivity. }
  rewrite Hground.
  (* platforms: not falling any more *)
  assert (Hplat : forall x_new,
             platform_collision_fl f p x_new y 0 0 = (0, 0)).
  { intros x_new. unfold platform_collision_fl, rlt.
    pose proof (fl_zero f f_close (15700 + 1) 0 (Qeq_refl 0)) as Z1.
    pose proof (fl_zero f f_close (15700 + 2) 0 (Qeq_refl 0)) as Z2.
    assert (H : Qltb (f (15700 + 1)%Z 0) (f (15700 + 2)%Z 0) = false)
      by (apply Qltb_ge; lra).
    rewrite H. reflexivity. }
  rewrite Hplat.
  (* x_new = x + vx * dt *)
  set (vx := horizontal_control p movement) in *.
  destruct (fl_within f f_close 4 (14810 + 1) vx) as [X1 X2]; [lra .. |].
  destruct (fl_within f f_close 0.02 (14810 + 2) (dt p)) as [X3 X4];
    [lra .. |].
  set (m1 := f (14810 + 1)%Z vx) in *.
  set (d2 := f (14810 + 2)%Z (dt p)) in *.
  destruct (prod_bounds m1 d2 vx 0.02 0.0000004 0.000000002 4 0.03)
    as [Hmd1 Hmd2]; [lra .. |].
  destruct (fl_within f f_close 0.1 14810 (m1 * d2)) as [X5 X6];
    [lra .. |].
  set (vd := f 14810%Z (m1 * d2)) in *.
  destruct (fl_within f f_close B (14800 + 1) x) as [X7 X8]; [lra .. |].
  destruct (fl_within f f_close 0.1 (14800 + 2) vd) as [X9 X10];
    [lra .. |].
  set (b1 := f (14800 + 1)%Z x) in *.
  set (b2 := f (14800 + 2)%Z vd) in *.
  destruct (fl_within f f_close (B + 0.1) 14800 (b1 + b2))
    as [X11 X12]; [lra .. |].
  exists (f 14800%Z (b1 + b2)). split; [reflexivity|]. split; lra.
Qed.

(** The wall's faces, up to rounding. *)
Lemma wall_faces_fl (p : Preset) :
  wall_width p == 0.6 -> - (20) <= wall_x p -> wall_x p <= 20 ->
  (wall_x p - 0.3 - 0.00001 <= wall_left_fl f p
   /\ wall_left_fl f p <= wall_x p - 0.3 + 0.00001)
  /\ (wall_x p + 0.3 - 0.00001 <= wall_right_fl f p
      /\ wall_right_fl f p <= wall_x p + 0.3 + 0.00001).
Proof.
  intros Hw Hlo Hhi.
  assert (Hhalf : forall s,
             0.3 - 0.000001 <= rdiv f s (wall_width p) 2
             /\ rdiv f s (wall_width p) 2 <= 0.3 + 0.000001).
  { intros s. unfold rdiv.
    destruct (fl_within f f_close 1 (s + 1) (wall_width p)) as [A1 A2];
      [lra .. |].
    destruct (fl_within f f_close 2 (s + 2) 2) as [B1 B2]; [lra .. |].
    set (a := f (s + 1)%Z (wall_width p)) in *.
    set (b := f (s + 2)%Z 2) in *.
    assert (Hb : 0 < b) by lra.
    assert (Q1 : 0.3 - 0.0000005 <= a / b)
      by (apply Qle_shift_div_l; [exact Hb | lra]).
    assert (Q2 : a / b <= 0.3 + 0.0000005)
      by (apply Qle_shift_div_r; [exact Hb | lra]).
    destruct (fl_within f f_close 1 s (a / b)) as [C1 C2]; [lra .. |].
    split; lra. }
  split.
  - destruct (Hhalf 17610%Z) as [H1 H2]. unfold wall_left_fl, rsub.
    set (h := rdiv f 17610 (wall_width p) 2) in *.
    destruct (fl_within f f_close 20 (17600 + 1) (wall_x p)) as [A1 A2];
      [lra .. |].
    destruct (fl_within f f_close 1 (17600 + 2) h) as [B1 B2]; [lra .. |].
    set (a := f (17600 + 1)%Z (wall_x p)) in *.
    set (b := f (17600 + 2)%Z h) in *.
    destruct (fl_within f f_close 21 17600 (a - b)) as [C1 C2];
      [lra .. |].
    split; lra.
  - destruct (Hhalf 17710%Z) as [H1 H2]. unfold wall_right_fl, radd.
    set (h := rdiv f 17710 (wall_width p) 2) in *.
    destruct (fl_within f f_close 20 (17700 + 1) (wall_x p)) as [A1 A2];
      [lra .. |].
    destruct (fl_within f f_close 1 (17700 + 2) h) as [B1 B2]; [lra .. |].
    set (a := f (17700 + 1)%Z (wall_x p)) in *.
    set (b := f (17700 + 2)%Z h) in *.
    destruct (fl_within f f_close 21 17700 (a + b)) as [C1 C2];
      [lra .. |].
    split; lra.
Qed.

(** A sum or a difference with half the player's width, up to rounding. *)
Lemma beside_fl (p : Preset) (s : Z) (x B : Q) :
  player_half_width p == 0.3 -> 1 <= B -> B <= 1000 -> - B <= x -> x <= B ->
  (x + 0.3 - (4 # 10000000) * B <= radd f s x (player_half_width p)
   /\ radd f s x (player_half_width p) <= x + 0.3 + (4 # 10000000) * B)
  /\ (x - 0.3 - (4 # 10000000) * B <= rsub f s x (player_half_width p)
      /\ rsub f s x (player_half_width p) <= x - 0.3 + (4 # 10000000) * B).
Proof.
  intros Hhw HB HB' Hlo Hhi. unfold radd, rsub.
  destruct (fl_within f f_close B (s + 1) x) as [A1 A2]; [lra .. |].
  destruct (fl_within f f_close 1 (s + 2) (player_half_width p)) as [B1 B2];
    [lra .. |].
  set (a := f (s + 1)%Z x) in *.
  set (b := f (s + 2)%Z (player_half_width p)) in *.
  destruct (fl_within f f_close (B + 1) s (a + b)) as [C1 C2];
    [lra .. |].
  destruct (fl_within f f_close (B + 1) s (a - b)) as [D1 D2];
    [lra .. |].
  repeat split; lra.
Qed.

(** A comparison of rounded numbers that are far enough apart. *)
Lemma rlt_true (s : Z) (a b B : Q) :
  0.000001 <= B -> B <= 1000000 ->
  - B <= a -> a <= B -> - B <= b -> b <= B ->
  a + (2 # 10000000) * B < b ->
  rlt f s a b = true.
Proof.
  intros HB0 HB1 H1 H2 H3 H4 H5. unfold rlt. apply Qltb_lt.
  destruct (fl_within f f_close B (s + 1) a) as [A1 A2]; [lra .. |].
  destruct (fl_within f f_close B (s + 2) b) as [B1 B2]; [lra .. |].
  lra.
Qed.

Lemma rlt_false (s : Z) (a b B : Q) :
  0.000001 <= B -> B <= 1000000 ->
  - B <= a -> a <= B -> - B <= b -> b <= B ->
  b + (2 # 10000000) * B <= a ->
  rlt f s a b = false.
Proof.
  intros HB0 HB1 H1 H2 H3 H4 H5. unfold rlt. apply Qltb_ge.
  destruct (fl_within f f_close B (s + 1) a) as [A1 A2]; [lra .. |].
  destruct (fl_within f f_close B (s + 2) b) as [B1 B2]; [lra .. |].
  lra.
Qed.

Lemma rle_false (s : Z) (a b B : Q) :
  0.000001 <= B -> B <= 1000000 ->
  - B <= a -> a <= B -> - B <= b -> b <= B ->
  b + (2 # 10000000) * B < a ->
  rle f s a b = false.
Proof.
  intros HB0 HB1 H1 H2 H3 H4 H5. unfold rle. apply Qleb_gt.
  destruct (fl_within f f_close B (s + 1) a) as [A1 A2]; [lra .. |].
  destruct (fl_within f f_close B (s + 2) b) as [B1 B2]; [lra .. |].
  lra.
Qed.

(** Away from the wall on its left, the wall changes nothing. *)
Lemma wall_collision_fl_clear (p : Preset) (x y x_new y_new vx vy : Q) :
  wall_width p == 0.6 -> player_half_width p == 0.3 ->
  - (20) <= wall_x p -> wall_x p <= 20 ->
  - (1000) <= x_new -> x_new <= wall_x p - 0.7 ->
  wall_collision_fl f p x y x_new y_new vx vy = (x_new, y_new, vx, vy).
Proof.
  intros Hw Hhw Hlo Hhi Hx1 Hx2.
  destruct (wall_faces_fl p Hw Hlo Hhi) as [[L1 L2] _].
  destruct (beside_fl p 18100 x_new 1000 Hhw ltac:(lra) ltac:(lra) Hx1
                      ltac:(lra))
    as [[R1 R2] _].
  unfold wall_collision_fl.
  rewrite (rlt_false 18600 (wall_left_fl f p)
                     (radd f 18100 x_new (player_half_width p)) 1001)
    by lra.
  reflexivity.
Qed.

(** Far from the flag, [_reached_flag] says no. *)
Lemma reached_flag_fl_far (p : Preset) (x y : Q) :
  flag_x p == 20 -> - (1000) <= x -> x <= 19 ->
  _reached_flag_fl f p x y = false.
Proof.
  intros Hflag Hlo Hhi. unfold _reached_flag_fl.
  assert (H : rlt f 33800 (Qabs (rsub f 33810 x (flag_x p))) 0.5 = false).
  { unfold rsub.
    destruct (fl_within f f_close 1000 (33810 + 1) x) as [A1 A2];
      [lra .. |].
    destruct (fl_within f f_close 20 (33810 + 2) (flag_x p)) as [B1 B2];
      [lra .. |].
    set (a := f (33810 + 1)%Z x) in *.
    set (b := f (33810 + 2)%Z (flag_x p)) in *.
    destruct (fl_within f f_close 1021 33810 (a - b)) as [C1 C2];
      [lra .. |].
    set (d := f 33810%Z (a - b)) in *.
    assert (Hd : Qabs d == - d) by (apply Qabs_neg; lra).
    apply (rlt_false 33800 _ _ 1022); rewrite ?Hd; lra. }
  rewrite H. reflexivity.
Qed.

(** One step on the ground, well left of the wall: the player moves by the
    commanded speed times [dt], up to rounding, and stays on the ground. *)
Lemma step_fl_floor (p : Preset) (e : Env) (x y vx0 vy0 B : Q)
      (movement : Z) :
  plain_level p ->
  state e = Some (x, y, vx0, vy0) ->
  y == 0 -> vy0 == 0 -> 2 <= B -> B <= 999 -> - B <= x -> x <= 2 ->
  exists e' x' y' vx' vy',
    step_fl f p e (movement, 0%Z)
    = Ok (e', (false, (steps e + 1 >=? max_steps p)%Z))
    /\ state e' = Some (x', y', vx', vy')
    /\ y' == 0 /\ vy' == 0
    /\ x + horizontal_control p movement * 0.02 - (5 # 10000000) * B <= x'
    /\ x' <= x + horizontal_control p movement * 0.02 + (5 # 10000000) * B
    /\ steps e' = (steps e + 1)%Z.
Proof.
  intros (Hg & Hdt & Hm & Hw & Hhw & Hflag & _ & _ & Hwx1 & Hwx2)
         Hs Hy Hvy HB HB' Hlo Hhi.
  pose proof (horizontal_control_range p movement Hm) as Hvx.
  destruct (proposed_fl_floor p e x y vx0 vy0 B movement
                              Hg Hdt Hm Hy Hvy ltac:(lra) ltac:(lra) Hlo
                              ltac:(lra))
    as (x_new & Hprop & Hx1 & Hx2).
  assert (Hres : resolved_fl f p e (x, y, vx0, vy0) (movement, 0%Z)
                 = (x_new, 0, horizontal_control p movement, 0)).
  { unfold resolved_fl. rewrite Hprop.
    apply wall_collision_fl_clear; try assumption; lra. }
  unfold step_fl. rewrite Hs. cbv beta iota zeta.
  assert (Hj : jump_triggered_fl f p e x y vy0 0 = false) by reflexivity.
  rewrite Hj, Hres.
  rewrite (reached_flag_fl_far p x_new 0 Hflag) by lra.
  destruct (fl_within f f_close (B + 0.1) 24500 x_new) as [S1 S2];
    [lra .. |].
  do 5 eexists. split; [reflexivity|]. cbn [state steps].
  split; [reflexivity|].
  split; [apply fl_zero; [exact f_close | reflexivity]|].
  split; [apply fl_zero; [exact f_close | reflexivity]|].
  repeat split; lra.
Qed.

(** ** Against the wall, preset v0 *)

(** A player on the ground to the left of the wall of preset v0 that has
    moved right: either it does not reach the wall, or the wall puts it
    back against its left face. *)
Lemma wall_collision_fl_v0 (x y x_new vx : Q) :
  y == 0 -> 0 <= x -> x <= 9.41 -> 0 <= x_new -> x_new <= 9.5 ->
  (wall_collision_fl f v0 x y x_new 0 vx 0 = (x_new, 0, vx, 0)
   /\ x_new <= 9.4 + 0.00002)
  \/ (exists xw,
         wall_collision_fl f v0 x y x_new 0 vx 0 = (xw, 0, 0, 0)
         /\ 9.4 - 0.00002 <= xw /\ xw <= 9.4 + 0.00002
         /\ 9.4 - 0.00002 <= x_new).
Proof.
  intros Hy Hx1 Hx2 Hn1 Hn2.
  assert (Hw : wall_width v0 == 0.6) by reflexivity.
  assert (Hhw : player_half_width v0 == 0.3) by reflexivity.
  assert (Hwx : wall_x v0 == 10) by reflexivity.
  assert (Hwh : wall_height v0 == 7) by reflexivity.
  assert (Hhb : hitbox_height v0 == 0.6) by reflexivity.
  assert (Hgap : bug_gap_y_min v0 == 1) by reflexivity.
  destruct (wall_faces_fl v0 Hw ltac:(lra) ltac:(lra))
    as [[L1 L2] [R1 R2]].
  destruct (beside_fl v0 18100 x_new 10 Hhw ltac:(lra) ltac:(lra)
                      ltac:(lra) ltac:(lra)) as [[P1 P2] _].
  destruct (beside_fl v0 18000 x_new 10 Hhw ltac:(lra) ltac:(lra)
                      ltac:(lra) ltac:(lra)) as [_ [P3 P4]].
  unfold wall_collision_fl.
  set (wl := wall_left_fl f v0) in *.
  set (wr := wall_right_fl f v0) in *.
  set (right := radd f 18100 x_new (player_half_width v0)) in *.
  set (left := rsub f 18000 x_new (player_half_width v0)) in *.
  (* vertically the player does overlap the wall *)
  assert (Hv1 : rlt f 18500 0 (wall_height v0) = true)
    by (apply (rlt_true 18500 _ _ 10); lra).
  assert (Htop : 0.5 <= radd f 18300 0 (hitbox_height v0)
                 /\ radd f 18300 0 (hitbox_height v0) <= 0.7).
  { unfold radd.
    pose proof (fl_zero f f_close (18300 + 1) 0 (Qeq_refl 0)) as Z0.
    destruct (fl_within f f_close 1 (18300 + 2) (hitbox_height v0))
      as [A1 A2]; [lra .. |].
    set (a := f (18300 + 1)%Z 0) in *.
    set (b := f (18300 + 2)%Z (hitbox_height v0)) in *.
    destruct (fl_within f f_close 1 18300 (a + b)) as [C1 C2];
      [lra .. |].
    split; lra. }
  destruct Htop as [T1 T2].
  assert (Hv2 : rlt f 18510 0 (radd f 18300 0 (hitbox_height v0)) = true)
    by (apply (rlt_true 18510 _ _ 10); lra).
  rewrite Hv1, Hv2.
  assert (Hh2 : rlt f 18610 left wr = true)
    by (apply (rlt_true 18610 _ _ 20); lra).
  rewrite Hh2.
  (* the old height is on the ground: below the gap, below the wall's top *)
  assert (Hg : rle f 18800 (bug_gap_y_min v0) y = false)
    by (apply (rle_false 18800 _ _ 10); lra).
  assert (Hin : rlt f 19200 y (wall_height v0) = true)
    by (apply (rlt_true 19200 _ _ 10); lra).
  assert (Hside : rlt f 20800 x (wall_x v0) = true)
    by (apply (rlt_true 20800 _ _ 10); lra).
  rewrite Hg, Hin, Hside. cbn [andb negb].
  unfold rlt.
  destruct (fl_within f f_close 10 (18600 + 1) wl) as [A1 A2];
    [lra .. |].
  destruct (fl_within f f_close 10 (18600 + 2) right) as [B1 B2];
    [lra .. |].
  destruct (Qltb (f (18600 + 1)%Z wl) (f (18600 + 2)%Z right)) eqn:E.
  - right. apply Qltb_lt in E.
    destruct (beside_fl v0 20900 wl 10 Hhw ltac:(lra) ltac:(lra)
                        ltac:(lra) ltac:(lra)) as [_ [W1 W2]].
    eexists. split; [reflexivity|]. repeat split; lra.
  - left. apply Qltb_ge in E. split; [reflexivity | lra].
Qed.

(** One step to the right on the ground, left of the wall of preset v0:
    the player advances by 0.08, or is put back against the wall's left
    face, both up to rounding. *)
Lemma step_fl_right (e : Env) (x y vx0 vy0 : Q) :
  state e = Some (x, y, vx0, vy0) ->
  y == 0 -> vy0 == 0 -> 0 <= x -> x <= 9.4 + 0.00003 ->
  exists e' x' y' vx' vy',
    step_fl f v0 e (2%Z, 0%Z)
    = Ok (e', (false, (steps e + 1 >=? 1000)%Z))
    /\ state e' = Some (x', y', vx', vy')
    /\ y' == 0 /\ vy' == 0
    /\ steps e' = (steps e + 1)%Z
    /\ ((x + 0.08 - 0.000005 <= x' /\ x' <= x + 0.08 + 0.000005
         /\ x' <= 9.4 + 0.00003)
        \/ (9.4 - 0.00003 <= x' /\ x' <= 9.4 + 0.00003
            /\ 9.4 - 0.00003 <= x + 0.08)).
Proof.
  intros Hs Hy Hvy Hx1 Hx2.
  destruct (proposed_fl_floor v0 e x y vx0 vy0 10 2
                              ltac:(reflexivity) ltac:(reflexivity)
                              ltac:(reflexivity) Hy Hvy
                              ltac:(lra) ltac:(lra) ltac:(lra) ltac:(lra))
    as (x_new & Hprop & Hn1 & Hn2).
  change (horizontal_control v0 2) with 4 in *.
  assert (Hj : jump_triggered_fl f v0 e x y vy0 0 = false) by reflexivity.
  unfold step_fl. rewrite Hs. cbv beta iota zeta. rewrite Hj.
  unfold resolved_fl. rewrite Hprop.
  destruct (wall_collision_fl_v0 x y x_new 4 Hy Hx1 ltac:(lra) ltac:(lra)
                                 ltac:(lra))
    as [[Hwall Hle] | (xw & Hwall & Hw1 & Hw2 & Hge)]; rewrite Hwall.
  - rewrite (reached_flag_fl_far v0 x_new 0 ltac:(reflexivity)) by lra.
    destruct (fl_within f f_close 10 24500 x_new) as [S1 S2];
      [lra .. |].
    do 5 eexists. split; [reflexivity|]. cbn [state steps].
    split; [reflexivity|].
    split; [apply fl_zero; [exact f_close | reflexivity]|].
    split; [apply fl_zero; [exact f_close | reflexivity]|].
    split; [reflexivity|]. left. repeat split; lra.
  - rewrite (reached_flag_fl_far v0 xw 0 ltac:(reflexivity)) by lra.
    destruct (fl_within f f_close 10 24500 xw) as [S1 S2]; [lra .. |].
    do 5 eexists. split; [reflexivity|]. cbn [state steps].
    split; [reflexivity|].
    split; [apply fl_zero; [exact f_close | reflexivity]|].
    split; [apply fl_zero; [exact f_close | reflexivity]|].
    split; [reflexivity|]. right. repeat split; lra.
Qed.

End Walking.

Lemma plain_level_presets (p : Preset) : p = v0 \/ p = v1 -> plain_level p.
Proof.
  intros [-> | ->]; unfold plain_level; repeat split;
    try reflexivity; try discriminate.
Qed.

Lemma close_step (fl : rounding) (t : Z) : close fl -> close_at (fl t).
Proof. intros H. apply H. Qed.

(** ** Running to the right under rounding, preset v0 *)

(** Where the player is after [k] steps to the right: still on its way, or
    at the wall. *)
Lemma run_fl_right (fl : rounding) (n : nat) :
  close fl ->
  forall (k : nat) (e : Env) (x y vx vy : Q),
    state e = Some (x, y, vx, vy) -> y == 0 -> vy == 0 -> 0 <= x ->
    ((k <= 105)%nat
     /\ Qabs (x - (1 + 0.08 * inject_Z (Z.of_nat k)))
        <= 0.000005 * inject_Z (Z.of_nat k) + 0.0000001
     /\ x <= 9.4 + 0.00003)
    \/ ((105 <= k)%nat /\ Qabs (x - 9.4) <= 0.00003) ->
    exists e' flags x' y' vx' vy',
      run_fl fl v0 e (right_only n) = Ok (e', flags)
      /\ state e' = Some (x', y', vx', vy')
      /\ y' == 0 /\ vy' == 0 /\ 0 <= x'
      /\ (((k + n <= 105)%nat
           /\ Qabs (x' - (1 + 0.08 * inject_Z (Z.of_nat (k + n))))
              <= 0.000005 * inject_Z (Z.of_nat (k + n)) + 0.0000001
           /\ x' <= 9.4 + 0.00003)
          \/ ((105 <= k + n)%nat /\ Qabs (x' - 9.4) <= 0.00003))
      /\ map fst flags = repeat false n
      /\ map snd flags
         = map (fun j => (steps e + Z.of_nat j >=? 1000)%Z) (seq 1 n).
Proof.
  intros Hc. induction n as [|n IH]; intros k e x y vx vy Hs Hy Hvy Hx0 Hinv.
  - exists e, [], x, y, vx, vy. rewrite Nat.add_0_r.
    repeat split; assumption.
  - assert (Hx9 : x <= 9.4 + 0.00003).
    { destruct Hinv as [(_ & _ & H) | (_ & H)]; [exact H|].
      apply Qabs_Qle_condition in H. lra. }
    destruct (step_fl_right (fl (steps e + 1)%Z) (close_step fl _ Hc)
                            e x y vx vy Hs Hy Hvy Hx0 Hx9)
      as (e1 & x1 & y1 & vx1 & vy1 & Hstep & Hs1 & Hy1 & Hvy1 & Hn1 & Hcase).
    assert (Hinv1 :
              ((S k <= 105)%nat
               /\ Qabs (x1 - (1 + 0.08 * inject_Z (Z.of_nat (S k))))
                  <= 0.000005 * inject_Z (Z.of_nat (S k)) + 0.0000001
               /\ x1 <= 9.4 + 0.00003)
              \/ ((105 <= S k)%nat /\ Qabs (x1 - 9.4) <= 0.00003)).
    { pose proof (inject_nat_succ k) as HS.
      pose proof (inject_nat_nonneg k) as Hk0.
      destruct (Nat.le_gt_cases (S k) 105) as [Hle | Hgt].
      - assert (HK : inject_Z (Z.of_nat (S k)) <= 105)
          by (change 105 with (inject_Z 105); rewrite <- Zle_Qle; lia).
        destruct Hinv as [(_ & Hnear & _) | (Hk & _)]; [|lia].
        apply Qabs_Qle_condition in Hnear.
        destruct Hcase as [(H1 & H2 & H3) | (H1 & H2 & H3)].
        + left. split; [exact Hle|]. split; [|exact H3].
          apply Qabs_Qle_condition. split; lra.
        + destruct (Nat.eq_dec (S k) 105) as [E | Hne].
          * right. split; [lia|]. apply Qabs_Qle_condition. split; lra.
          * assert (HK' : inject_Z (Z.of_nat (S k)) <= 104)
              by (change 104 with (inject_Z 104); rewrite <- Zle_Qle; lia).
            lra.
      - assert (HK : 106 <= inject_Z (Z.of_nat (S k)))
          by (change 106 with (inject_Z 106); rewrite <- Zle_Qle; lia).
        right. split; [lia|].
        destruct Hcase as [(H1 & H2 & H3) | (H1 & H2 & H3)].
        + destruct Hinv as [(_ & Hnear & _) | (_ & Hnear)];
            apply Qabs_Qle_condition in Hnear; lra.
        + apply Qabs_Qle_condition. split; lra. }
    assert (Hx1 : 0 <= x1)
      by (destruct Hcase as [(H1 & _) | (H1 & _)]; lra).
    destruct (IH (S k) e1 x1 y1 vx1 vy1 Hs1 Hy1 Hvy1 Hx1 Hinv1)
      as (e' & flags & x' & y' & vx' & vy' & Hrun & Hs' & Hy' & Hvy' & Hx'
          & Hinv' & Hterm & Htrunc).
    exists e', ((false, (steps e + 1 >=? 1000)%Z) :: flags), x', y', vx', vy'.
    cbn [right_only repeat run_fl]. fold (right_only n).
    rewrite Hstep, Hrun.
    replace (k + S n)%nat with (S k + n)%nat by lia.
    repeat split; try assumption.
    + cbn [map fst repeat]. rewrite Hterm. reflexivity.
    + cbn [map snd seq]. rewrite Htrunc. f_equal.
      rewrite <- (seq_shift n 1), map_map. apply map_ext. intros j.
      rewrite Hn1. f_equal. lia.
Qed.

(** C3, as the code has it.  Preset v0: [reset] gives the state
    [(1, 0, 0, 0)].  Under (movement=2, jump=0) repeated, whatever the
    rounding, [x] grows by 0.08 a step towards the flag until the wall stops
    it: after [n] steps [x] is within 0.001 of [min (1 + 0.08 n) 9.4], where
    9.4 is the wall's left face less half the player's width, and [y = 0].
    The player is then never within 0.5 of [flag_x = 20]; no step returns
    [terminated]; [truncated] is returned from step 1000 on. *)
Theorem right_only_stops_at_wall (fl : rounding) (n : nat) :
  close fl ->
  state (fresh v0) = Some (1, 0, 0, 0)
  /\ exists e flags x y vx vy,
      run_fl fl v0 (reset_fl fl v0 init None) (right_only n) = Ok (e, flags)
      /\ state e = Some (x, y, vx, vy)
      /\ Qabs (x - Qmin (1 + 0.08 * inject_Z (Z.of_nat n)) 9.4) <= 0.001
      /\ y == 0
      /\ ~ Qabs (x - 20) < 0.5
      /\ map fst flags = repeat false n
      /\ map snd flags = map (fun k => (Z.of_nat k >=? 1000)%Z) (seq 1 n).
Proof.
  intros Hc. split; [reflexivity|].
  destruct (fl_within (fl 0%Z) (close_step fl _ Hc) 1 9100 (start_x v0))
    as [X1 X2]; [cbn; lra .. |].
  change (start_x v0) with 1 in X1, X2.
  destruct (run_fl_right fl n Hc 0 (reset_fl fl v0 init None) _ _ _ _
                         eq_refl
                         (fl_zero _ (close_step fl _ Hc) _ _ (Qeq_refl 0))
                         (fl_zero _ (close_step fl _ Hc) _ _ (Qeq_refl 0))
                         ltac:(change (start_x v0) with 1; lra))
    as (e & flags & x & y & vx & vy & Hrun & Hs & Hy & _ & _ & Hinv
        & Hterm & Htrunc).
  { left. split; [lia|]. change (inject_Z (Z.of_nat 0)) with 0.
    change (start_x v0) with 1.
    split; [apply Qabs_Qle_condition; split; lra | lra]. }
  cbn [Nat.add] in Hinv.
  pose proof (inject_nat_nonneg n) as Hn0.
  assert (Hnear : Qabs (x - Qmin (1 + 0.08 * inject_Z (Z.of_nat n)) 9.4)
                  <= 0.001).
  { destruct Hinv as [(Hle & Hnear & _) | (Hge & Hnear)];
      apply Qabs_Qle_condition in Hnear; apply Qabs_Qle_condition.
    - assert (HK : inject_Z (Z.of_nat n) <= 105)
        by (change 105 with (inject_Z 105); rewrite <- Zle_Qle; lia).
      rewrite Q.min_l by lra. split; lra.
    - assert (HK : 105 <= inject_Z (Z.of_nat n))
        by (change 105 with (inject_Z 105); rewrite <- Zle_Qle; lia).
      rewrite Q.min_r by lra. split; lra. }
  exists e, flags, x, y, vx, vy.
  split; [exact Hrun|]. split; [exact Hs|]. split; [exact Hnear|].
  split; [exact Hy|]. split; [|split; [exact Hterm | exact Htrunc]].
  intros Hflag. apply Qabs_Qlt_condition in Hflag.
  apply Qabs_Qle_condition in Hnear.
  pose proof (Q.le_min_r (1 + 0.08 * inject_Z (Z.of_nat n)) 9.4) as Hmin.
  lra.
Qed.

Lemma right_only_stops_at_wall_witness :
  state (fresh v0) = Some (1, 0, 0, 0)
  /\ exists e flags x y vx vy,
      run_fl unrounded v0 (reset_fl unrounded v0 init None) (right_only 1200)
      = Ok (e, flags)
      /\ state e = Some (x, y, vx, vy)
      /\ Qabs (x - Qmin (1 + 0.08 * inject_Z (Z.of_nat 1200)) 9.4) <= 0.001
      /\ y == 0
      /\ ~ Qabs (x - 20) < 0.5
      /\ map fst flags = repeat false 1200
      /\ map snd flags
         = map (fun k => (Z.of_nat k >=? 1000)%Z) (seq 1 1200).
Proof.
  exact (right_only_stops_at_wall unrounded 1200 close_unrounded).
Defined.

(** The scenario of C3 does not happen: running to the right only, the
    player is at no time within 0.5 of the flag, whatever the rounding. *)
Lemma right_only_never_reaches_flag :
  ~ exists (fl : rounding) n e flags x y vx vy,
      close fl
      /\ run_fl fl v0 (reset_fl fl v0 init None) (right_only n)
         = Ok (e, flags)
      /\ state e = Some (x, y, vx, vy)
      /\ Qabs (x - 20) < 0.5 /\ Qabs y < 0.5.
Proof.
  intros (fl & n & e & flags & x & y & vx & vy & Hc & Hrun & Hs & Hnear & _).
  destruct (fl_within (fl 0%Z) (close_step fl _ Hc) 1 9100 (start_x v0))
    as [X1 X2]; [cbn; lra .. |].
  change (start_x v0) with 1 in X1, X2.
  destruct (run_fl_right fl n Hc 0 (reset_fl fl v0 init None) _ _ _ _
                         eq_refl
                         (fl_zero _ (close_step fl _ Hc) _ _ (Qeq_refl 0))
                         (fl_zero _ (close_step fl _ Hc) _ _ (Qeq_refl 0))
                         ltac:(change (start_x v0) with 1; lra))
    as (e' & flags' & x' & y' & vx' & vy' & Hrun' & Hs' & _ & _ & _ & Hinv
        & _).
  { left. split; [lia|]. change (inject_Z (Z.of_nat 0)) with 0.
    change (start_x v0) with 1.
    split; [apply Qabs_Qle_condition; split; lra | lra]. }
  rewrite Hrun in Hrun'. injection Hrun' as <- _.
  rewrite Hs in Hs'. injection Hs' as <- _ _ _.
  apply Qabs_Qlt_condition in Hnear.
  destruct Hinv as [(_ & _ & H) | (_ & H)];
    [|apply Qabs_Qle_condition in H]; lra.
Qed.

(** ** The two flags *)

(** C4 fails on the code.  On the route through the gap, started after 768
    idle steps, step 1000 is the first to reach the flag and returns both
    flags true.  And on the plain route, the step after the one that
    reached the flag returns [terminated] a second time. *)
Lemma both_flags_at_step_1000 :
  map (fun r => (terminated r, truncated r)) (results v0 late_gap_route)
  = repeat (false, false) 999 ++ [(true, true)]
  /\ map terminated (results v0 (gap_route ++ [(0%Z, 0%Z)]))
     = repeat false 231 ++ [true; true].
Proof. split; vm_compute; reflexivity. Qed.

(** C4, as the code has it.  The flags of a step are computed afresh and
    independently: [terminated] tells whether the new position is within
    0.5 of the flag on both axes, [truncated] whether the step count has
    reached [max_steps].  So they are never both true in a step whose count
    is below [max_steps]. *)
Theorem flags_of_step (p : Preset) (e e' : Env) (r : StepResult)
        (s : Q * Q * Q * Q) (a : Z * Z) :
  state e = Some s ->
  step p e a = Ok (e', r) ->
  terminated r = (let '(x_new, y_new, _, _) := resolved p e s a in
                  _reached_flag p x_new y_new)
  /\ truncated r = (steps e + 1 >=? max_steps p)%Z
  /\ ((steps e + 1 < max_steps p)%Z ->
      ~ (terminated r = true /\ truncated r = true)).
Proof.
  intros Hs Hstep. unfold step in Hstep. rewrite Hs in Hstep.
  destruct s as [[[x y] vx0] vy0], a as [movement jump].
  destruct (resolved p e (x, y, vx0, vy0) (movement, jump))
    as [[[x_new y_new] vx] vy].
  injection Hstep as _ <-. cbn [terminated truncated].
  repeat split. intros Hlt [_ Htrunc]. lia.
Qed.

Lemma flags_of_step_witness :
  exists e' r,
    step v0 (fresh v0) (2%Z, 0%Z) = Ok (e', r)
    /\ ~ (terminated r = true /\ truncated r = true).
Proof.
  destruct (step v0 (fresh v0) (2%Z, 0%Z)) as [[e' r]|] eqn:Hstep;
    [|discriminate Hstep].
  exists e', r. split; [reflexivity|].
  destruct (flags_of_step v0 (fresh v0) e' r _ (2%Z, 0%Z) eq_refl Hstep)
    as (_ & _ & Hexcl).
  apply Hexcl. reflexivity.
Defined.

(** ** What [step] accepts *)

(** C5 fails on the code.  [step] goes on after the episode has terminated
    (the route through the gap, then one more step), goes on after it has
    been truncated (1000 idle steps, then one more), and takes the action
    (7, 5) as if it were (0, 0). *)
Lemma step_accepts_anything :
  (terminated (last (results v0 gap_route) (Build_StepResult [] 0 false false))
   = true
   /\ exists e' r, step v0 (after v0 gap_route) (0%Z, 0%Z) = Ok (e', r)
                   /\ steps e' = 233%Z)
  /\ (truncated (last (results v0 (plan [((0, 0)%Z, 1000%nat)]))
                      (Build_StepResult [] 0 false false))
      = true
      /\ exists e' r,
          step v0 (after v0 (plan [((0, 0)%Z, 1000%nat)])) (0%Z, 0%Z)
          = Ok (e', r)
          /\ steps e' = 1001%Z)
  /\ exists e' r, step v0 (fresh v0) (7%Z, 5%Z) = Ok (e', r)
                  /\ state e' = Some (1, 0, 0, 0) /\ steps e' = 1%Z.
Proof.
  repeat split; try (vm_compute; reflexivity);
    vm_compute; eexists; eexists; repeat split; reflexivity.
Qed.

Lemma read_jump_eqb (jump : Z) : (read_jump jump =? 1)%Z = (jump =? 1)%Z.
Proof. unfold read_jump. destruct (jump =? 1)%Z; reflexivity. Qed.

Lemma horizontal_control_read (p : Preset) (movement : Z) :
  horizontal_control p (read_movement movement) = horizontal_control p movement.
Proof.
  unfold horizontal_control, read_movement.
  destruct (movement =? 1)%Z; [reflexivity|].
  destruct (movement =? 2)%Z; reflexivity.
Qed.

Lemma jump_triggered_read (p : Preset) (e : Env) (x y vy : Q) (jump : Z) :
  jump_triggered p e x y vy (read_jump jump) = jump_triggered p e x y vy jump.
Proof. unfold jump_triggered. rewrite read_jump_eqb. reflexivity. Qed.

Lemma resolved_read (p : Preset) (e : Env) (s : Q * Q * Q * Q)
      (movement jump : Z) :
  resolved p e s (read_movement movement, read_jump jump)
  = resolved p e s (movement, jump).
Proof.
  destruct s as [[[x y] vx0] vy0]. unfold resolved. rewrite !proposed_eq.
  rewrite horizontal_control_read, jump_triggered_read. reflexivity.
Qed.

(** C5, as the code has it.  On an instance that has been reset, [step]
    checks neither the episode's status nor the action: for any two
    integers it returns, counts one more step, and returns exactly what it
    returns for the action read as [read_movement], [read_jump] (movement
    other than 1, 2 as 0; jump other than 1 as 0), leaving the same physics
    state; the jump value is stored as given. *)
Theorem step_never_refuses (p : Preset) (e : Env) (s : Q * Q * Q * Q)
        (movement jump : Z) :
  state e = Some s ->
  exists e' e'' r,
    step p e (movement, jump) = Ok (e', r)
    /\ step p e (read_movement movement, read_jump jump) = Ok (e'', r)
    /\ state e' = state e''
    /\ steps e' = (steps e + 1)%Z
    /\ prev_jump e' = jump.
Proof.
  intros Hs. unfold step. rewrite Hs. destruct s as [[[x y] vx0] vy0].
  rewrite resolved_read, jump_triggered_read, read_jump_eqb.
  destruct (resolved p e (x, y, vx0, vy0) (movement, jump))
    as [[[x_new y_new] vx] vy].
  do 3 eexists. repeat split.
Qed.

Lemma step_never_refuses_witness :
  exists e' e'' r,
    step v0 (after v0 gap_route) (-3, 2)%Z = Ok (e', r)
    /\ step v0 (after v0 gap_route) (read_movement (-3), read_jump 2)
       = Ok (e'', r)
    /\ state e' = state e''
    /\ steps e' = (steps (after v0 gap_route) + 1)%Z
    /\ prev_jump e' = 2%Z.
Proof.
  assert (Hs : exists s, state (after v0 gap_route) = Some s)
    by (vm_compute; eexists; reflexivity).
  destruct Hs as [s Hs].
  exact (step_never_refuses v0 (after v0 gap_route) s (-3) 2 Hs).
Defined.

(** ** The idle penalty *)

(** The reward of a step is the other contributions plus the idle penalty,
    which is applied under the guard [idle_penalty_applies], evaluated on the
    horizontal velocity the wall leaves and on the jumping flag as the jump
    logic of this step leaves it. *)
Lemma step_reward (p : Preset) (e e' : Env) (r : StepResult)
      (x y vx0 vy0 : Q) (a : Z * Z) :
  state e = Some (x, y, vx0, vy0) ->
  step p e a = Ok (e', r) ->
  let '(_, _, vx, _) := resolved p e (x, y, vx0, vy0) a in
  let jumping := jump_triggered p e x y vy0 (snd a) || is_jumping e in
  reward r == other_rewards p e (x, y, vx0, vy0) a
              + (if idle_penalty_applies p vx jumping then - 0.05 else 0).
Proof.
  intros Hs Hstep. unfold step in Hstep. rewrite Hs in Hstep.
  unfold other_rewards. destruct a as [movement jump]. cbn [snd].
  destruct (resolved p e (x, y, vx0, vy0) (movement, jump))
    as [[[x_new y_new] vx] vy].
  remember (Qabs (flag_x p - x)) as dist_prev.
  remember (Qabs (flag_x p - x_new)) as dist_curr.
  injection Hstep as _ <-. cbn [reward].
  assert (Hj : (if jump_triggered p e x y vy0 jump then true
                else is_jumping e)
               = jump_triggered p e x y vy0 jump || is_jumping e)
    by (destruct (jump_triggered p e x y vy0 jump); reflexivity).
  rewrite Hj.
  set (jumping := jump_triggered p e x y vy0 jump || is_jumping e).
  unfold landing_adjust.
  destruct (stagnation p) as [[window threshold]|];
    repeat match goal with
           | |- context [if ?b then _ else _] => destruct b; cbn [andb]
           end; ring.
Qed.

(** C9 fails on the code in preset v0.  The player has walked off the first
    platform and is falling, in the air before and after the step; with no
    movement commanded the step's reward is -0.06: the step penalty and the
    idle penalty. *)
Lemma idle_penalty_while_falling :
  (* x = 8.84, y = 1.688, vx = 4, vy = -0.6 *)
  state (after v0 off_the_ledge) = Some (221 # 25, 211 # 125, 4, -3 # 5)
  /\ is_jumping (after v0 off_the_ledge) = false
  /\ _on_ground v0 (221 # 25) (211 # 125) = false
  /\ _on_ground v0 (221 # 25) (208 # 125) = false
  /\ other_rewards v0 (after v0 off_the_ledge)
                   (221 # 25, 211 # 125, 4, -3 # 5) (0%Z, 0%Z)
     == - 0.01
  /\ exists e' r,
      step v0 (after v0 off_the_ledge) (0%Z, 0%Z) = Ok (e', r)
      (* x = 8.84, y = 1.664, vx = 0, vy = -1.2 *)
      /\ state e' = Some (221 # 25, 208 # 125, 0, -6 # 5)
      /\ reward r == - 0.01 - 0.05.
Proof.
  vm_compute. repeat split; try reflexivity.
  do 2 eexists. repeat split; reflexivity.
Qed.

(** C9, as the code has it.  The reward of a step is the sum of the other
    contributions and of -0.05 exactly when [|vx| < 0.001], for the [vx]
    that the wall leaves (the one stored), and, in preset v0, no jump is in
    progress: [is_jumping], raised when a jump is triggered (this step
    included) and lowered by the landing check, is false.  In preset v1
    there is no second condition. *)
Theorem idle_penalty_rule (e e' : Env) (r : StepResult)
        (x y vx0 vy0 : Q) (a : Z * Z) :
  state e = Some (x, y, vx0, vy0) ->
  (step v0 e a = Ok (e', r) ->
   let '(_, _, vx, _) := resolved v0 e (x, y, vx0, vy0) a in
   let jumping := jump_triggered v0 e x y vy0 (snd a) || is_jumping e in
   reward r == other_rewards v0 e (x, y, vx0, vy0) a
               + (if Qltb (Qabs vx) 0.001 && negb jumping then - 0.05 else 0))
  /\ (step v1 e a = Ok (e', r) ->
      let '(_, _, vx, _) := resolved v1 e (x, y, vx0, vy0) a in
      reward r == other_rewards v1 e (x, y, vx0, vy0) a
                  + (if Qltb (Qabs vx) 0.001 then - 0.05 else 0)).
Proof.
  intros Hs. split; intros Hstep.
  - pose proof (step_reward v0 e e' r x y vx0 vy0 a Hs Hstep) as H.
    destruct (resolved v0 e (x, y, vx0, vy0) a) as [[[x_new y_new] vx] vy].
    exact H.
  - pose proof (step_reward v1 e e' r x y vx0 vy0 a Hs Hstep) as H.
    destruct (resolved v1 e (x, y, vx0, vy0) a) as [[[x_new y_new] vx] vy].
    cbv zeta in H. unfold idle_penalty_applies in H. cbn [idle_checks_jumping v1] in H.
    rewrite andb_true_r in H. exact H.
Qed.

Lemma idle_penalty_rule_witness :
  exists e' r,
    step v0 (after v0 off_the_ledge) (0%Z, 0%Z) = Ok (e', r)
    /\ reward r
       == other_rewards v0 (after v0 off_the_ledge)
                        (221 # 25, 211 # 125, 4, -3 # 5) (0%Z, 0%Z)
          + - 0.05.
Proof.
  destruct (step v0 (after v0 off_the_ledge) (0%Z, 0%Z)) as [[e' r]|]
    eqn:Hstep; [|vm_compute in Hstep; discriminate Hstep].
  exists e', r. split; [reflexivity|].
  destruct (idle_penalty_rule (after v0 off_the_ledge) e' r
                              (221 # 25) (211 # 125) 4 (-3 # 5) (0%Z, 0%Z)
                              ltac:(vm_compute; reflexivity))
    as [Hv0 _].
  specialize (Hv0 Hstep).
  destruct (resolved v0 (after v0 off_the_ledge)
                     (221 # 25, 211 # 125, 4, -3 # 5) (0%Z, 0%Z))
    as [[[x_new y_new] vx] vy] eqn:Hres.
  vm_compute in Hres. injection Hres as _ _ <- _.
  exact Hv0.
Defined.

(** * Further properties of the environment *)

(** ** Reachable instances *)

Lemma reachable_run (p : Preset) (actions : list (Z * Z)) :
  forall e e' rs,
    reachable p e -> run p e actions = Ok (e', rs) -> reachable p e'.
Proof.
  induction actions as [|a rest IH]; intros e e' rs He; simpl.
  - intros [= <- _]. exact He.
  - destruct (step p e a) as [[e1 r]|] eqn:Hstep; [|discriminate].
    destruct (run p e1 rest) as [[e2 rs2]|] eqn:Hrun; [|discriminate].
    intros [= <- _].
    exact (IH e1 e2 rs2 (reach_step p e a e1 r He Hstep) Hrun).
Qed.

Lemma reachable_after (p : Preset) (actions : list (Z * Z)) :
  reachable p (after p actions).
Proof.
  unfold after.
  destruct (run_ok p actions (fresh p) _ eq_refl) as (e' & rs & Hrun).
  rewrite Hrun.
  exact (reachable_run p actions _ _ _ (reach_reset p init None) Hrun).
Qed.

(** ** The cooldown *)

Lemma tick_cooldown_range (c m : Z) :
  (0 <= c <= m)%Z -> (0 <= tick_cooldown c <= m)%Z.
Proof. intros H. unfold tick_cooldown. destruct (c >? 0)%Z eqn:E; lia. Qed.

Lemma reachable_cooldown (p : Preset) (e : Env) :
  (0 <= jump_cooldown_max p)%Z ->
  reachable p e ->
  (0 <= jump_cooldown e <= jump_cooldown_max p)%Z.
Proof.
  intros Hmax. induction 1 as [e seed | e a e' r Hreach IH Hstep].
  - simpl. lia.
  - destruct (reachable_state p e Hreach) as [[[[x y] vx0] vy0] Hs].
    destruct a as [movement jump].
    destruct (step_jump_effect p e e' r x y vx0 vy0 movement jump Hs Hstep)
      as (Hc & _).
    rewrite Hc. destruct (jump_triggered p e x y vy0 jump);
      [lia | apply tick_cooldown_range; exact IH].
Qed.

(** X1.  The cooldown never leaves [[0, jump_cooldown_max]]: not in the state
    [reset] leaves, and not after any sequence of steps. *)
Theorem cooldown_in_range (p : Preset) (e : Env) :
  (0 <= jump_cooldown_max p)%Z ->
  reachable p e ->
  (0 <= jump_cooldown e <= jump_cooldown_max p)%Z.
Proof. exact (reachable_cooldown p e). Qed.

Lemma cooldown_in_range_witness :
  (0 <= jump_cooldown (after v1 gap_route) <= jump_cooldown_max v1)%Z.
Proof.
  exact (cooldown_in_range v1 (after v1 gap_route) ltac:(discriminate)
                           (reachable_after v1 gap_route)).
Defined.

(** While the cooldown is above the number of steps to come, none of them
    triggers a jump. *)
Lemma no_trigger_while_cooling (p : Preset) (actions : list (Z * Z)) :
  forall (e : Env) (s : Q * Q * Q * Q),
    state e = Some s ->
    (Z.of_nat (length actions) < jump_cooldown e)%Z ->
    map (fun entry => fst (fst entry)) (jump_log p e actions)
    = repeat false (length actions).
Proof.
  induction actions as [|[movement jump] rest IH]; intros e s Hs Hlen;
    [reflexivity|].
  destruct s as [[[x y] vx0] vy0].
  destruct (step_state p e (movement, jump) _ Hs) as (e' & r & Hstep & Hs').
  destruct (step_jump_effect p e e' r x y vx0 vy0 movement jump Hs Hstep)
    as (Hc' & _).
  cbn [length] in Hlen.
  assert (Htick : tick_cooldown (jump_cooldown e) = (jump_cooldown e - 1)%Z)
    by (unfold tick_cooldown; destruct (jump_cooldown e >? 0)%Z eqn:E; lia).
  assert (Hno : jump_triggered p e x y vy0 jump = false).
  { unfold jump_triggered. rewrite Htick.
    assert (E : (jump_cooldown e - 1 =? 0)%Z = false) by lia.
    rewrite E, andb_false_r. reflexivity. }
  rewrite Hno, Htick in Hc'.
  cbn [jump_log snd length repeat map]. rewrite Hs, Hstep, Hno.
  cbn [map fst]. f_equal. apply (IH e' _ Hs'). lia.
Qed.

(** X2.  Between two jumps lie at least [jump_cooldown_max] steps: after a step
    that triggered the jump, none of the next [jump_cooldown_max - 1] steps
    triggers it, whatever the actions. *)
Theorem jumps_are_spaced (p : Preset) (e e' : Env) (r : StepResult)
        (x y vx vy : Q) (a : Z * Z) (actions : list (Z * Z)) :
  state e = Some (x, y, vx, vy) ->
  jump_triggered p e x y vy (snd a) = true ->
  step p e a = Ok (e', r) ->
  (Z.of_nat (length actions) < jump_cooldown_max p)%Z ->
  length (jump_log p e' actions) = length actions
  /\ map (fun entry => fst (fst entry)) (jump_log p e' actions)
     = repeat false (length actions).
Proof.
  intros Hs Htrig Hstep Hlen. destruct a as [movement jump].
  destruct (step_jump_effect p e e' r x y vx vy movement jump Hs Hstep)
    as (Hc & _ & x' & y' & vx' & vy' & Hs' & _).
  cbn [snd] in Htrig. rewrite Htrig in Hc.
  assert (Hmap : map (fun entry => fst (fst entry)) (jump_log p e' actions)
                 = repeat false (length actions))
    by (apply (no_trigger_while_cooling p actions e' _ Hs'); lia).
  split; [|exact Hmap].
  rewrite <- (length_map (fun entry => fst (fst entry))), Hmap.
  apply repeat_length.
Qed.

Lemma jumps_are_spaced_witness :
  length (jump_log v0 (after v0 [(0, 1)%Z])
                   (plan [((0, 0)%Z, 1%nat); ((2, 1)%Z, 58%nat)]))
  = 59%nat
  /\ map (fun entry => fst (fst entry))
         (jump_log v0 (after v0 [(0, 1)%Z])
                   (plan [((0, 0)%Z, 1%nat); ((2, 1)%Z, 58%nat)]))
     = repeat false 59.
Proof.
  assert (Hstep : exists r, step v0 (fresh v0) (0, 1)%Z
                            = Ok (after v0 [(0, 1)%Z], r))
    by (vm_compute; eexists; reflexivity).
  destruct Hstep as [r Hstep].
  exact (jumps_are_spaced v0 (fresh v0) (after v0 [(0, 1)%Z]) r 1 0 0 0
                          (0, 1)%Z
                          (plan [((0, 0)%Z, 1%nat); ((2, 1)%Z, 58%nat)])
                          eq_refl eq_refl Hstep eq_refl).
Defined.

(** The bound is sharp.  In preset v0, whose cooldown is 60, with the button
    released in between, pressing it on the 59th step after a jump does
    nothing, and pressing it on the 60th jumps again. *)
Example jump_again_after_cooldown :
  map (fun entry => fst (fst entry))
      (jump_log v0 (fresh v0)
                (plan [((0, 1)%Z, 1%nat); ((0, 0)%Z, 58%nat);
                       ((0, 1)%Z, 1%nat)]))
  = [true] ++ repeat false 58 ++ [false]
  /\ map (fun entry => fst (fst entry))
         (jump_log v0 (fresh v0)
                   (plan [((0, 1)%Z, 1%nat); ((0, 0)%Z, 59%nat);
                          ((0, 1)%Z, 1%nat)]))
     = [true] ++ repeat false 59 ++ [true].
Proof. split; vm_compute; reflexivity. Qed.

(** ** Observations *)

Lemma cooldown_norm_range (c m : Z) :
  (0 < m)%Z -> (0 <= c <= m)%Z ->
  0 <= inject_Z c / inject_Z m /\ inject_Z c / inject_Z m <= 1.
Proof.
  intros Hm [Hc0 Hcm].
  assert (Hm' : 0 < inject_Z m)
    by (change 0 with (inject_Z 0); rewrite <- Zlt_Qlt; exact Hm).
  assert (Hc0' : 0 <= inject_Z c)
    by (change 0 with (inject_Z 0); rewrite <- Zle_Qle; exact Hc0).
  assert (Hcm' : inject_Z c <= inject_Z m) by (rewrite <- Zle_Qle; exact Hcm).
  split.
  - apply Qle_shift_div_l; [exact Hm' | lra].
  - apply Qle_shift_div_r; [exact Hm' | lra].
Qed.

(** X3.  Every observation [reset] and [step] hand out lies in the declared
    [observation_space]: it has eight entries, the normalised cooldown is in
    [[0, 1]] and the grounded entry is 0 or 1. *)
Theorem observation_in_space (p : Preset) (e : Env) :
  (0 < jump_cooldown_max p)%Z ->
  reachable p e ->
  exists o,
    _get_obs p e = Ok o
    /\ box_contains observation_low observation_high o = true
    /\ (nth 7 o 0 = 0 \/ nth 7 o 0 = 1).
Proof.
  intros Hmax Hreach.
  destruct (reachable_state p e Hreach) as [[[[x y] vx] vy] Hs].
  pose proof (reachable_cooldown p e ltac:(lia) Hreach) as Hc.
  destruct (cooldown_norm_range _ _ Hmax Hc) as [Hlo Hhi].
  unfold _get_obs. rewrite Hs. eexists. split; [reflexivity|].
  unfold observe. cbn [map box_contains observation_low observation_high nth].
  split.
  - rewrite !andb_true_r. cbn [andb].
    assert (H0 : Qleb 0 (float32 (inject_Z (jump_cooldown e)
                                  / inject_Z (jump_cooldown_max p))) = true)
      by (apply Qleb_le; rewrite float32_eq; exact Hlo).
    assert (H1 : Qleb (float32 (inject_Z (jump_cooldown e)
                                / inject_Z (jump_cooldown_max p))) 1 = true)
      by (apply Qleb_le; rewrite float32_eq; exact Hhi).
    rewrite H0, H1. destruct (_on_ground p x y); reflexivity.
  - destruct (_on_ground p x y); [right | left]; reflexivity.
Qed.

Lemma observation_in_space_witness :
  exists o,
    _get_obs v0 (after v0 at_the_gap) = Ok o
    /\ box_contains observation_low observation_high o = true
    /\ (nth 7 o 0 = 0 \/ nth 7 o 0 = 1).
Proof.
  exact (observation_in_space v0 (after v0 at_the_gap) eq_refl
                              (reachable_after v0 at_the_gap)).
Defined.

(** ** The step counter *)

Lemma step_steps (p : Preset) (e e' : Env) (a : Z * Z) (r : StepResult) :
  step p e a = Ok (e', r) ->
  steps e' = (steps e + 1)%Z
  /\ truncated r = (steps e + 1 >=? max_steps p)%Z.
Proof.
  unfold step. destruct (state e) as [[[[x y] vx0] vy0]|]; [|discriminate].
  destruct a as [movement jump].
  destruct (resolved p e (x, y, vx0, vy0) (movement, jump))
    as [[[x_new y_new] vx] vy].
  intros [= <- <-]. split; reflexivity.
Qed.

Lemma run_steps (p : Preset) (actions : list (Z * Z)) :
  forall e e' rs,
    run p e actions = Ok (e', rs) ->
    steps e' = (steps e + Z.of_nat (length actions))%Z
    /\ map truncated rs
       = map (fun k => (steps e + Z.of_nat k >=? max_steps p)%Z)
             (seq 1 (length actions)).
Proof.
  induction actions as [|a rest IH]; intros e e' rs; simpl.
  - intros [= <- <-]. split; [lia | reflexivity].
  - destruct (step p e a) as [[e1 r]|] eqn:Hstep; [|discriminate].
    destruct (run p e1 rest) as [[e2 rs2]|] eqn:Hrun; [|discriminate].
    intros [= <- <-].
    destruct (step_steps p e e1 a r Hstep) as [Hn Htr].
    destruct (IH e1 e2 rs2 Hrun) as [Hn2 Htr2].
    split; [lia|]. cbn [map]. rewrite Htr, Htr2. f_equal.
    rewrite <- (seq_shift (length rest) 1), map_map. apply map_ext.
    intros k. rewrite Hn. f_equal. lia.
Qed.

(** X4.  The step counter counts the steps since the last [reset], whatever the
    actions and whatever the instance went through before; the k-th step
    after a reset returns [truncated] exactly when [k >= max_steps]. *)
Theorem steps_count_from_reset (p : Preset) (e : Env) (seed : option Z)
        (actions : list (Z * Z)) :
  exists e' rs,
    run p (fst (reset p e seed)) actions = Ok (e', rs)
    /\ steps e' = Z.of_nat (length actions)
    /\ map truncated rs
       = map (fun k => (Z.of_nat k >=? max_steps p)%Z)
             (seq 1 (length actions)).
Proof.
  destruct (run_ok p actions (fst (reset p e seed)) _ eq_refl)
    as (e' & rs & Hrun).
  exists e', rs. split; [exact Hrun|].
  exact (run_steps p actions _ _ _ Hrun).
Qed.

(** ** Collisions and groundedness *)

Lemma eps_pos : 0 < eps.
Proof. reflexivity. Qed.

Lemma near_self (y : Q) : Qltb (Qabs (y - y)) eps = true.
Proof.
  apply Qltb_lt. assert (H : y - y == 0) by ring. rewrite H. reflexivity.
Qed.

Lemma on_ground_at_ground (p : Preset) (x : Q) : _on_ground p x 0 = true.
Proof. reflexivity. Qed.

Lemma on_ground_at_wall_top (p : Preset) (x : Q) :
  _on_ground p x (wall_height p) = true.
Proof.
  unfold _on_ground. rewrite (near_self (wall_height p)).
  repeat match goal with
         | |- (if ?b then _ else _) = _ => destruct b
         end; reflexivity.
Qed.

Lemma on_ground_at_gap_lip (p : Preset) (x : Q) :
  _on_ground p x (bug_gap_y_min p) = true.
Proof.
  unfold _on_ground. rewrite (near_self (bug_gap_y_min p)).
  repeat match goal with
         | |- (if ?b then _ else _) = _ => destruct b
         end; reflexivity.
Qed.

Lemma on_ground_on_platform (p : Preset) (x : Q) (plat : Q * Q * Q) :
  In plat (platforms p) -> is_over_platform p x plat = true ->
  _on_ground p x (platform_top p plat) = true.
Proof.
  intros Hin Hover. unfold _on_ground.
  assert (Hex : existsb (fun q => Qltb (Qabs (platform_top p plat
                                              - platform_top p q)) eps
                                  && is_over_platform p x q) (platforms p)
                = true).
  { apply existsb_exists. exists plat. split; [exact Hin|].
    rewrite near_self, Hover. reflexivity. }
  rewrite Hex. destruct (Qltb (Qabs (platform_top p plat)) eps); reflexivity.
Qed.

(** The platform a scan snaps to is one the player is over. *)
Lemma platform_scan_lands (p : Preset) (x_new y y_new vy : Q)
      (plats : list (Q * Q * Q)) :
  platform_scan p x_new y y_new vy plats = (y_new, vy)
  \/ exists plat, In plat plats
                  /\ is_over_platform p x_new plat = true
                  /\ platform_scan p x_new y y_new vy plats
                     = (platform_top p plat, 0).
Proof.
  induction plats as [|q plats IH]; simpl; [left; reflexivity|].
  destruct (crosses_top p y y_new q), (is_over_platform p x_new q) eqn:Hover;
    try (destruct IH as [IH | (plat & Hin & Hov & IH)];
         [left; exact IH
         | right; exists plat; repeat split; [right| |]; assumption]).
  right. exists q. repeat split; [left; reflexivity | exact Hover].
Qed.

(** X5.  Whatever stops the vertical motion puts the player on a surface that
    [_on_ground] knows: the ground check, a platform of the scan, and the
    two branches of the wall that zero [vy] (the lower lip of the gap and
    the wall's top). *)
Theorem stops_are_grounded (p : Preset) (x x_new y y_new vx vy : Q) :
  (y_new < 0 ->
   _on_ground p x_new (fst (ground_collision y_new vy)) = true)
  /\ (platform_collision p x_new y y_new vy <> (y_new, vy) ->
      snd (platform_collision p x_new y y_new vy) = 0
      /\ _on_ground p x_new (fst (platform_collision p x_new y y_new vy))
         = true)
  /\ (forall x' y' vx' vy',
         wall_collision p x y x_new y_new vx vy = (x', y', vx', vy') ->
         vy' <> vy ->
         vy' = 0 /\ x' = x_new /\ _on_ground p x' y' = true).
Proof.
  repeat split.
  - intros Hneg.
    destruct (ground_collision_cases y_new vy) as [[_ ->] | [Hge _]];
      [reflexivity | lra].
  - unfold platform_collision in *. destruct (Qltb vy 0); [|contradiction].
    destruct (platform_scan_lands p x_new y y_new vy (platforms p))
      as [E | (plat & _ & _ & ->)]; [contradiction | reflexivity].
  - unfold platform_collision in *. destruct (Qltb vy 0); [|contradiction].
    destruct (platform_scan_lands p x_new y y_new vy (platforms p))
      as [E | (plat & Hin & Hover & ->)]; [contradiction|].
    apply on_ground_on_platform; assumption.
  - unfold wall_collision in H.
    repeat match type of H with
           | (if ?b then _ else _) = _ => destruct b
           end; injection H as <- <- <- <-; try reflexivity; contradiction.
  - unfold wall_collision in H.
    repeat match type of H with
           | (if ?b then _ else _) = _ => destruct b
           end; injection H as <- <- <- <-; try reflexivity; contradiction.
  - unfold wall_collision in H.
    repeat match type of H with
           | (if ?b then _ else _) = _ => destruct b
           end; injection H as <- <- <- <-;
      try contradiction;
      [apply on_ground_at_gap_lip | apply on_ground_at_wall_top].
Qed.

Lemma stops_are_grounded_witness :
  _on_ground v0 6 (fst (ground_collision (-0.012) (-0.6))) = true
  /\ _on_ground v0 5.4 (fst (platform_collision v0 5.4 1.74 1.62 (-6))) = true
  /\ _on_ground v0 9.64 1 = true.
Proof.
  destruct (stops_are_grounded v0 9.56 9.64 1.04 0.896 4 (-7.2))
    as (_ & _ & Hwall).
  destruct (stops_are_grounded v0 5.32 5.4 1.74 1.62 4 (-6))
    as (_ & Hplat & _).
  destruct (stops_are_grounded v0 6 6 0 (-0.012) 0 (-0.6)) as (Hground & _).
  split; [apply Hground; reflexivity|].
  split; [apply Hplat; vm_compute; discriminate|].
  apply (Hwall 9.64 1 4 0); [vm_compute; reflexivity | vm_compute; discriminate].
Defined.

(** ** The goal region *)

(** X6.  In both presets [terminated] says where the stored state is: inside the
    open box [19.5 < x < 20.5], [y < 0.5] (the height is never negative). *)
Theorem terminated_iff_in_goal (p : Preset) (e e' : Env) (a : Z * Z)
        (r : StepResult) :
  p = v0 \/ p = v1 ->
  step p e a = Ok (e', r) ->
  exists x' y' vx' vy',
    state e' = Some (x', y', vx', vy')
    /\ (terminated r = true <-> 19.5 < x' /\ x' < 20.5 /\ y' < 0.5).
Proof.
  intros Hp Hstep.
  assert (Hflag : flag_x p = 20 /\ flag_y p = 0)
    by (destruct Hp as [-> | ->]; split; reflexivity).
  destruct Hflag as [Hfx Hfy].
  destruct (state e) as [s|] eqn:Hs;
    [|unfold step in Hstep; rewrite Hs in Hstep; discriminate].
  destruct (step_y_nonneg p e a s (surfaces_of_presets p Hp) Hs)
    as (e1 & r1 & x1 & y1 & vx1 & vy1 & Hstep1 & Hs1 & Hy).
  rewrite Hstep in Hstep1. injection Hstep1 as <- <-.
  exists x1, y1, vx1, vy1. split; [exact Hs1|].
  destruct (step_state p e a s Hs) as (e2 & r2 & Hstep2 & Hst).
  rewrite Hstep in Hstep2. injection Hstep2 as <- <-.
  unfold step in Hstep. rewrite Hs in Hstep.
  destruct s as [[[x y] vx0] vy0], a as [movement jump].
  destruct (resolved p e (x, y, vx0, vy0) (movement, jump))
    as [[[x_new y_new] vx] vy].
  injection Hstep as _ <-. cbn [terminated].
  rewrite Hs1 in Hst. injection Hst as Hx1 Hy1 _ _.
  assert (Ex : x1 == x_new) by (rewrite Hx1; apply float32_eq).
  assert (Ey : y1 == y_new) by (rewrite Hy1; apply float32_eq).
  unfold _reached_flag. rewrite Hfx, Hfy, andb_true_iff, !Qltb_lt.
  rewrite !Qabs_Qlt_condition. rewrite <- Ex, <- Ey. split; intros H; lra.
Qed.

Lemma terminated_iff_in_goal_witness :
  exists e' r x' y' vx' vy',
    step v0 (after v0 (firstn 231 gap_route)) (2, 0)%Z = Ok (e', r)
    /\ state e' = Some (x', y', vx', vy')
    /\ (terminated r = true <-> 19.5 < x' /\ x' < 20.5 /\ y' < 0.5).
Proof.
  destruct (step v0 (after v0 (firstn 231 gap_route)) (2, 0)%Z)
    as [[e' r]|] eqn:Hstep; [|vm_compute in Hstep; discriminate Hstep].
  destruct (terminated_iff_in_goal v0 _ e' (2, 0)%Z r (or_introl eq_refl) Hstep)
    as (x' & y' & vx' & vy' & Hs & Hiff).
  exists e', r, x', y', vx', vy'.
  split; [reflexivity|]. split; [exact Hs | exact Hiff].
Defined.

(** ** The stagnation window (preset v1) *)

Lemma deque_append_length (maxlen : nat) (d : list Q) (v : Q) :
  length (deque_append maxlen d v) = Nat.min (length d + 1) maxlen.
Proof.
  unfold deque_append. rewrite length_skipn, length_app. simpl. lia.
Qed.

Lemma deque_append_room (maxlen : nat) (d : list Q) (v : Q) :
  (length d < maxlen)%nat -> deque_append maxlen d v = d ++ [v].
Proof.
  intros Hlen. unfold deque_append. rewrite length_app. simpl.
  replace (length d + 1 - maxlen)%nat with 0%nat by lia. reflexivity.
Qed.

Lemma length_lastn {A : Type} (n : nat) (l : list A) :
  length (lastn n l) = Nat.min (length l) n.
Proof. unfold lastn. rewrite length_skipn. lia. Qed.

(** Appending to a deque that holds the last [maxlen] entries of a
    history: it then holds the last [maxlen] entries of the longer
    history, so it is the oldest entry that goes. *)
Lemma deque_append_lastn (maxlen : nat) (history : list Q) (v : Q) :
  deque_append maxlen (lastn maxlen history) v
  = lastn maxlen (history ++ [v]).
Proof.
  unfold deque_append, lastn.
  rewrite !length_app, length_skipn. cbn [length].
  destruct (Nat.le_gt_cases (length history) maxlen) as [Hle | Hgt].
  - replace (length history - maxlen)%nat with 0%nat by lia.
    cbn [skipn]. f_equal. lia.
  - rewrite !skipn_app, skipn_skipn, length_skipn.
    f_equal; f_equal; lia.
Qed.

Lemma step_recent_x (p : Preset) (e e' : Env) (a : Z * Z) (r : StepResult)
      (window : nat) (threshold : Q) :
  stagnation p = Some (window, threshold) ->
  step p e a = Ok (e', r) ->
  exists x_new, recent_x e' = deque_append window (recent_x e) x_new.
Proof.
  intros Hstag. unfold step.
  destruct (state e) as [[[[x y] vx0] vy0]|]; [|discriminate].
  destruct a as [movement jump].
  destruct (resolved p e (x, y, vx0, vy0) (movement, jump))
    as [[[x_new y_new] vx] vy].
  intros [= <- _]. cbn [recent_x]. rewrite Hstag. eexists; reflexivity.
Qed.

Lemma run_recent_x_length (p : Preset) (window : nat) (threshold : Q)
      (actions : list (Z * Z)) :
  stagnation p = Some (window, threshold) ->
  forall e e' rs,
    run p e actions = Ok (e', rs) ->
    (length (recent_x e) <= window)%nat ->
    length (recent_x e')
    = Nat.min (length (recent_x e) + length actions) window.
Proof.
  intros Hstag. induction actions as [|a rest IH]; intros e e' rs; simpl.
  - intros [= <- _] Hle. lia.
  - destruct (step p e a) as [[e1 r]|] eqn:Hstep; [|discriminate].
    destruct (run p e1 rest) as [[e2 rs2]|] eqn:Hrun; [|discriminate].
    intros [= <- _] Hle.
    destruct (step_recent_x p e e1 a r window threshold Hstag Hstep)
      as [x_new Hrx].
    assert (Hlen1 : length (recent_x e1)
                    = Nat.min (length (recent_x e) + 1) window)
      by (rewrite Hrx; apply deque_append_length).
    rewrite (IH e1 e2 rs2 Hrun) by lia. lia.
Qed.

(** What one step appends is the [x_new] it resolved. *)
Lemma step_recent_x_trail (p : Preset) (e e' : Env) (a : Z * Z)
      (r : StepResult) (s : Q * Q * Q * Q) (window : nat) (threshold : Q) :
  stagnation p = Some (window, threshold) ->
  state e = Some s ->
  step p e a = Ok (e', r) ->
  recent_x e'
  = deque_append window (recent_x e) (fst (fst (fst (resolved p e s a)))).
Proof.
  intros Hstag Hs. unfold step. rewrite Hs.
  destruct s as [[[x y] vx0] vy0], a as [movement jump].
  destruct (resolved p e (x, y, vx0, vy0) (movement, jump))
    as [[[x_new y_new] vx] vy].
  intros [= <- _]. cbn [recent_x fst]. rewrite Hstag. reflexivity.
Qed.

Lemma run_recent_x_trail (p : Preset) (window : nat) (threshold : Q)
      (actions : list (Z * Z)) :
  stagnation p = Some (window, threshold) ->
  forall e e' rs s history,
    state e = Some s ->
    run p e actions = Ok (e', rs) ->
    recent_x e = lastn window history ->
    recent_x e' = lastn window (history ++ x_trail p e actions)
    /\ length (x_trail p e actions) = length actions.
Proof.
  intros Hstag. induction actions as [|a rest IH];
    intros e e' rs s history Hs; cbn [run x_trail].
  - intros [= <- _] Hrx. rewrite app_nil_r. split; [exact Hrx | reflexivity].
  - destruct (step_state p e a s Hs) as (e1 & r & Hstep & Hs1).
    rewrite Hs, Hstep.
    destruct (run p e1 rest) as [[e2 rs2]|] eqn:Hrun; [|discriminate].
    intros [= <- _] Hrx.
    pose proof (step_recent_x_trail p e e1 a r s window threshold
                                    Hstag Hs Hstep) as Hrx1.
    destruct (resolved p e s a) as [[[x_new y_new] vx] vy].
    cbn [fst] in Hrx1.
    rewrite Hrx, deque_append_lastn in Hrx1.
    destruct (IH e1 e2 rs2 _ (history ++ [x_new]) Hs1 Hrun Hrx1)
      as [Htrail Hlen].
    rewrite <- app_assoc in Htrail. cbn [app] in Htrail.
    split; [exact Htrail | cbn [length]; rewrite Hlen; reflexivity].
Qed.

(** X7.  The window holds the latest positions, oldest first.  [reset]
    empties it and puts the start position in; every step appends its
    [x_new]; once [stagnation_window] positions are held, each append drops
    the oldest.  So after [reset] and any run the window is the last
    [stagnation_window] entries of the start position followed by the
    [x_new] of every step, and it holds [min (n + 1) stagnation_window]
    of them. *)
Theorem window_fills (p : Preset) (window : nat) (threshold : Q) (e : Env)
        (seed : option Z) (actions : list (Z * Z)) :
  stagnation p = Some (window, threshold) ->
  (1 <= window)%nat ->
  exists e' rs,
    run p (fst (reset p e seed)) actions = Ok (e', rs)
    /\ recent_x (fst (reset p e seed)) = [start_x p]
    /\ length (x_trail p (fst (reset p e seed)) actions) = length actions
    /\ recent_x e'
       = lastn window
               (start_x p :: x_trail p (fst (reset p e seed)) actions)
    /\ length (recent_x e') = Nat.min (length actions + 1) window.
Proof.
  intros Hstag Hwin.
  destruct (run_ok p actions (fst (reset p e seed)) _ eq_refl)
    as (e' & rs & Hrun).
  exists e', rs. split; [exact Hrun|].
  assert (Hrx0 : recent_x (fst (reset p e seed)) = [start_x p])
    by (cbn [reset fst recent_x]; rewrite Hstag; reflexivity).
  split; [exact Hrx0|].
  assert (Hlast0 : recent_x (fst (reset p e seed))
                   = lastn window [start_x p]).
  { rewrite Hrx0. unfold lastn. cbn [length].
    replace (1 - window)%nat with 0%nat by lia. reflexivity. }
  destruct (run_recent_x_trail p window threshold actions Hstag
                               (fst (reset p e seed)) e' rs _ [start_x p]
                               eq_refl Hrun Hlast0) as [Htrail Hlen].
  split; [exact Hlen|]. split; [exact Htrail|].
  rewrite Htrail, length_lastn. cbn [app length]. rewrite Hlen. lia.
Qed.

Lemma window_fills_witness :
  exists e' rs,
    run v1 (fst (reset v1 (after v1 gap_route) (Some 7%Z))) (right_only 150)
    = Ok (e', rs)
    /\ recent_x (fst (reset v1 (after v1 gap_route) (Some 7%Z)))
       = [start_x v1]
    /\ length (x_trail v1 (fst (reset v1 (after v1 gap_route) (Some 7%Z)))
                       (right_only 150))
       = length (right_only 150)
    /\ recent_x e'
       = lastn 100
               (start_x v1
                :: x_trail v1 (fst (reset v1 (after v1 gap_route) (Some 7%Z)))
                           (right_only 150))
    /\ length (recent_x e') = Nat.min (length (right_only 150) + 1) 100.
Proof.
  exact (window_fills v1 100 2 (after v1 gap_route) (Some 7%Z)
                      (right_only 150) eq_refl ltac:(repeat constructor)).
Defined.

Lemma platform_scan_without_stagnation (p : Preset) (x_new y y_new vy : Q)
      (plats : list (Q * Q * Q)) :
  platform_scan (without_stagnation p) x_new y y_new vy plats
  = platform_scan p x_new y y_new vy plats.
Proof.
  induction plats as [|q plats IH]; simpl; [reflexivity|].
  rewrite IH. reflexivity.
Qed.

Lemma resolved_without_stagnation (p : Preset) (e1 e2 : Env)
      (s : Q * Q * Q * Q) (a : Z * Z) :
  jump_cooldown e1 = jump_cooldown e2 -> prev_jump e1 = prev_jump e2 ->
  resolved (without_stagnation p) e2 s a = resolved p e1 s a.
Proof.
  intros Hc Hp. destruct s as [[[x y] vx0] vy0], a as [movement jump].
  rewrite (resolved_same p e1 e2 _ _ Hc Hp).
  unfold resolved. rewrite !proposed_eq. cbv zeta.
  unfold platform_collision. cbn [platforms without_stagnation].
  rewrite platform_scan_without_stagnation. reflexivity.
Qed.

(** While the window has room, a step under the preset and under the
    preset without the window return the same. *)
Lemma step_without_stagnation (p : Preset) (window : nat) (threshold : Q)
      (e1 e2 : Env) (a : Z * Z) :
  stagnation p = Some (window, threshold) ->
  same_but_deque e1 e2 ->
  (length (recent_x e1) + 1 < window)%nat ->
  match step p e1 a, step (without_stagnation p) e2 a with
  | Ok (e1', r1), Ok (e2', r2) =>
      r1 = r2 /\ same_but_deque e1' e2'
      /\ length (recent_x e1') = (length (recent_x e1) + 1)%nat
  | Raise _, Raise _ => True
  | _, _ => False
  end.
Proof.
  intros Hstag (Hyb & Hj & Hc & Hp & Hs & Hn) Hlen.
  unfold step. rewrite <- Hs.
  destruct (state e1) as [[[[x y] vx0] vy0]|]; [|exact I].
  destruct a as [movement jump].
  rewrite (resolved_without_stagnation p e1 e2 _ _ Hc Hp).
  assert (Htrig : jump_triggered (without_stagnation p) e2 x y vy0 jump
                  = jump_triggered p e1 x y vy0 jump)
    by (rewrite (jump_triggered_same p e1 e2 x y vy0 jump Hc Hp);
        reflexivity).
  rewrite Htrig.
  destruct (resolved p e1 (x, y, vx0, vy0) (movement, jump))
    as [[[x_new y_new] vx] vy].
  rewrite Hstag. cbn [stagnation without_stagnation].
  rewrite <- Hyb, <- Hj, <- Hc, <- Hn.
  rewrite (deque_append_room window (recent_x e1) x_new) by lia.
  assert (Hfull : (length (recent_x e1 ++ [x_new]) =? window)%nat = false)
    by (apply Nat.eqb_neq; rewrite length_app; simpl; lia).
  rewrite Hfull.
  repeat split. cbn [recent_x]. rewrite length_app. reflexivity.
Qed.

Lemma run_without_stagnation (p : Preset) (window : nat) (threshold : Q)
      (actions : list (Z * Z)) :
  stagnation p = Some (window, threshold) ->
  forall e1 e2 e1' e2' rs1 rs2,
    same_but_deque e1 e2 ->
    (length (recent_x e1) + length actions < window)%nat ->
    run p e1 actions = Ok (e1', rs1) ->
    run (without_stagnation p) e2 actions = Ok (e2', rs2) ->
    rs1 = rs2.
Proof.
  intros Hstag. induction actions as [|a rest IH];
    intros e1 e2 e1' e2' rs1 rs2 Hsame Hlen; simpl.
  - intros [= _ <-] [= _ <-]. reflexivity.
  - simpl in Hlen.
    pose proof (step_without_stagnation p window threshold e1 e2 a Hstag
                                        Hsame ltac:(lia)) as Hstep.
    destruct (step p e1 a) as [[f1 r1]|]; [|discriminate].
    destruct (step (without_stagnation p) e2 a) as [[f2 r2]|];
      [|contradiction].
    destruct Hstep as (<- & Hsame' & Hlen').
    destruct (run p f1 rest) as [[g1 l1]|] eqn:R1; [|discriminate].
    destruct (run (without_stagnation p) f2 rest) as [[g2 l2]|] eqn:R2;
      [|discriminate].
    intros [= _ <-] [= _ <-]. f_equal.
    apply (IH f1 f2 g1 g2 l1 l2 Hsame'); [lia | exact R1 | exact R2].
Qed.

(** X8.  The stagnation check is idle while the window fills: an episode of
    fewer than [stagnation_window - 1] steps returns, step by step, exactly
    what it returns under the same preset without the window. *)
Theorem stagnation_warm_up (p : Preset) (window : nat) (threshold : Q)
        (e : Env) (seed : option Z) (actions : list (Z * Z)) :
  stagnation p = Some (window, threshold) ->
  (length actions + 1 < window)%nat ->
  exists e1 e2 rs,
    run p (fst (reset p e seed)) actions = Ok (e1, rs)
    /\ run (without_stagnation p)
           (fst (reset (without_stagnation p) e seed)) actions
       = Ok (e2, rs).
Proof.
  intros Hstag Hlen.
  destruct (run_ok p actions (fst (reset p e seed)) _ eq_refl)
    as (e1 & rs1 & R1).
  destruct (run_ok (without_stagnation p) actions
                   (fst (reset (without_stagnation p) e seed)) _ eq_refl)
    as (e2 & rs2 & R2).
  exists e1, e2, rs1. split; [exact R1|]. rewrite R2. do 2 f_equal. symmetry.
  assert (Hlen0 : length (recent_x (fst (reset p e seed))) = 1%nat)
    by (cbn [reset fst recent_x]; rewrite Hstag; reflexivity).
  apply (run_without_stagnation p window threshold actions Hstag
                                (fst (reset p e seed))
                                (fst (reset (without_stagnation p) e seed))
                                e1 e2 rs1 rs2);
    [repeat split | rewrite Hlen0; lia | exact R1 | exact R2].
Qed.

Lemma stagnation_warm_up_witness :
  exists e1 e2 rs,
    run v1 (fst (reset v1 init None)) (plan [((0, 0)%Z, 98%nat)])
    = Ok (e1, rs)
    /\ run (without_stagnation v1)
           (fst (reset (without_stagnation v1) init None))
           (plan [((0, 0)%Z, 98%nat)])
       = Ok (e2, rs).
Proof.
  exact (stagnation_warm_up v1 100 2 init None (plan [((0, 0)%Z, 98%nat)])
                            eq_refl ltac:(vm_compute; lia)).
Defined.

(** The bound is sharp: standing still in preset v1, step 99 is the first
    to carry the stagnation penalty. *)
Example stagnation_sets_in_at_step_99 :
  map (fun r => Qred (reward r)) (results v1 (plan [((0, 0)%Z, 100%nat)]))
  = repeat (Qred (- 0.06)) 98 ++ repeat (Qred (- 0.09)) 2.
Proof. vm_compute. reflexivity. Qed.

(** ** Rolling out a policy *)

Lemma step_returns (p : Preset) (e : Env) (a : Z * Z) (s : Q * Q * Q * Q) :
  state e = Some s ->
  exists e' r s',
    step p e a = Ok (e', r)
    /\ state e' = Some s'
    /\ steps e' = (steps e + 1)%Z
    /\ truncated r = (steps e + 1 >=? max_steps p)%Z.
Proof.
  intros Hs. destruct (step_state p e a s Hs) as (e' & r & Hstep & Hs').
  destruct (step_steps p e e' a r Hstep) as [Hn Htr].
  exists e', r. eexists. repeat split; eassumption.
Qed.

Lemma play_loop_ends (p : Preset) (policy : nat -> list Q -> Z * Z)
      (quit : nat -> bool) (fuel : nat) :
  forall (e : Env) (s : Q * Q * Q * Q) (o : list Q) (acc : Q) (n : nat),
    state e = Some s ->
    steps e = Z.of_nat n ->
    (1 <= fuel)%nat ->
    (max_steps p <= Z.of_nat n + Z.of_nat fuel)%Z ->
    exists n',
      (n < n')%nat
      /\ (Z.of_nat n' <= Z.max (Z.of_nat n + 1) (max_steps p))%Z
      /\ (forall k, (n < k < n')%nat -> quit k = false)
      /\ ((quit n' = true
           /\ play_loop p policy quit fuel e o acc n = Raised SystemExit)
          \/ (quit n' = false
              /\ exists e' total,
                  play_loop p policy quit fuel e o acc n
                  = Finished (e', total, n')
                  /\ steps e' = Z.of_nat n')).
Proof.
  induction fuel as [|fuel IH]; intros e s o acc n Hs Hn Hfuel Hmax; [lia|].
  destruct (step_returns p e (policy n o) s Hs)
    as (e' & r & s' & Hstep & Hs' & Hn' & Htr).
  cbn [play_loop]. rewrite Hstep. unfold render. rewrite Hs'.
  destruct (quit (S n)) eqn:Hquit.
  - exists (S n). repeat split; try lia. left. split; [exact Hquit | reflexivity].
  - destruct (terminated r || truncated r) eqn:Hdone.
    + exists (S n). repeat split; try lia. right. split; [exact Hquit|].
      do 2 eexists. split; [reflexivity | lia].
    + apply orb_false_iff in Hdone as [_ Hnot]. rewrite Htr in Hnot.
      assert (Hlt : (steps e + 1 < max_steps p)%Z) by lia.
      destruct (IH e' s' (obs r) (acc + reward r) (S n) Hs'
                   ltac:(lia) ltac:(lia) ltac:(lia))
        as (n2 & Hlt2 & Hle2 & Hopen & Hend).
      exists n2. split; [lia|]. split; [lia|]. split; [|exact Hend].
      intros k Hk. destruct (Nat.eq_dec k (S n)) as [-> | Hne];
        [exact Hquit | apply Hopen; lia].
Qed.



Lemma collect_loop_ends (p : Preset) (policy : nat -> list Q -> Z * Z)
      (cap : option Z) (fuel : nat) :
  surfaces_nonneg p ->
  forall (e : Env) (s : Q * Q * Q * Q) (o : list Q) (n : nat)
         (xs ys : list Q),
    state e = Some s ->
    steps e = Z.of_nat n ->
    (1 <= fuel)%nat ->
    (max_steps p <= Z.of_nat n + Z.of_nat fuel)%Z ->
    exists e' s' xs1 ys1,
      collect_loop p policy cap fuel e o n xs ys
      = Ok (Some (e', xs ++ xs1, ys ++ ys1))
      /\ state e' = Some s'
      /\ length xs1 = length ys1
      /\ (1 <= length xs1)%nat
      /\ (Z.of_nat n + Z.of_nat (length xs1)
          <= Z.max (Z.of_nat n + 1) (max_steps p))%Z
      /\ (forall c, cap = Some c ->
                    (Z.of_nat n + Z.of_nat (length xs1)
                     <= Z.max (Z.of_nat n + 1) c)%Z)
      /\ Forall (fun y => player_height p / 2 <= y) ys1.
Proof.
  intros Hsurf.
  induction fuel as [|fuel IH]; intros e s o n xs ys Hs Hn Hfuel Hmax; [lia|].
  destruct (step_y_nonneg p e (policy n o) s Hsurf Hs)
    as (e' & r & x' & y' & vx' & vy' & Hstep & Hs' & Hy).
  destruct (step_steps p e e' (policy n o) r Hstep) as [Hn' Htr].
  cbn [collect_loop]. rewrite Hstep, Hs'.
  assert (Hcentre : player_height p / 2 <= y' + player_height p / 2) by lra.
  assert (Hstop : exists e1 s1 xs1 ys1,
             Ok (Some (e', xs ++ [x'], ys ++ [y' + player_height p / 2]))
             = Ok (Some (e1, xs ++ xs1, ys ++ ys1))
             /\ state e1 = Some s1
             /\ length xs1 = length ys1
             /\ (1 <= length xs1)%nat
             /\ (Z.of_nat n + Z.of_nat (length xs1)
                 <= Z.max (Z.of_nat n + 1) (max_steps p))%Z
             /\ (forall c, cap = Some c ->
                           (Z.of_nat n + Z.of_nat (length xs1)
                            <= Z.max (Z.of_nat n + 1) c)%Z)
             /\ Forall (fun y => player_height p / 2 <= y) ys1).
  { exists e', (x', y', vx', vy'), [x'], [y' + player_height p / 2].
    split; [reflexivity|]. split; [exact Hs'|]. split; [reflexivity|].
    split; [simpl; lia|]. split; [simpl; lia|].
    split; [intros c _; simpl; lia | repeat constructor; exact Hcentre]. }
  destruct (match cap with
            | Some c => (c <=? Z.of_nat (S n))%Z
            | None => false
            end) eqn:Hcap; [exact Hstop|].
  destruct (terminated r || truncated r) eqn:Hdone; [exact Hstop|].
  clear Hstop.
  apply orb_false_iff in Hdone as [_ Hnot]. rewrite Htr in Hnot.
  destruct (IH e' _ (obs r) (S n) (xs ++ [x'])
               (ys ++ [y' + player_height p / 2]) Hs'
               ltac:(lia) ltac:(lia) ltac:(lia))
    as (e2 & s2 & xs2 & ys2 & Hloop & Hs2 & Hlen & Hone & Hle & Hcapb & Hall).
  exists e2, s2, (x' :: xs2), ((y' + player_height p / 2) :: ys2).
  rewrite Hloop, <- !app_assoc. cbn [app length].
  repeat split; try assumption; try lia.
  - intros c Hc. specialize (Hcapb c Hc). rewrite Hc in Hcap.
    apply Z.leb_gt in Hcap. lia.
  - constructor; assumption.
Qed.

Lemma collect_episodes_ends (p : Preset)
      (policy : nat -> nat -> list Q -> Z * Z) (cap : option Z)
      (fuel n_episodes : nat) :
  surfaces_nonneg p ->
  (0 < max_steps p)%Z ->
  (max_steps p <= Z.of_nat fuel)%Z ->
  forall (ep : nat) (e : Env) (xs ys : list Q),
    length xs = length ys ->
    Forall (fun y => player_height p / 2 <= y) ys ->
    exists xs' ys',
      collect_episodes p policy cap fuel n_episodes ep e xs ys
      = Ok (Some (xs', ys'))
      /\ length xs' = length ys'
      /\ (length xs + n_episodes <= length xs')%nat
      /\ (Z.of_nat (length xs')
          <= Z.of_nat (length xs) + Z.of_nat n_episodes * max_steps p)%Z
      /\ (forall c, cap = Some c -> (1 <= c)%Z ->
                    (Z.of_nat (length xs')
                     <= Z.of_nat (length xs) + Z.of_nat n_episodes * c)%Z)
      /\ Forall (fun y => player_height p / 2 <= y) ys'.
Proof.
  intros Hsurf Hpos Hfuel.
  induction n_episodes as [|k IH]; intros ep e xs ys Hlen Hall.
  - exists (map float32 xs), (map float32 ys). cbn [collect_episodes].
    rewrite !length_map.
    split; [reflexivity|]. split; [exact Hlen|]. split; [lia|].
    split; [lia|]. split; [intros c _ _; lia|].
    apply Forall_map. apply (Forall_impl _ (P := fun y => player_height p / 2 <= y));
        [|exact Hall].
      intros y Hy. rewrite float32_eq. exact Hy.
  - cbn [collect_episodes reset].
    destruct (collect_loop_ends p (policy ep) cap fuel Hsurf
                (fst (reset p e None)) _ (snd (reset p e None)) 0%nat xs ys
                eq_refl eq_refl ltac:(lia) ltac:(lia))
      as (e1 & s1 & xs1 & ys1 & Hloop & _ & Hlen1 & Hone & Hle & Hcapb & Hall1).
    cbn [reset fst snd] in Hloop. rewrite Hloop.
    destruct (IH (S ep) e1 (xs ++ xs1) (ys ++ ys1)
                 ltac:(rewrite !length_app; lia)
                 ltac:(apply Forall_app; split; assumption))
      as (xs' & ys' & Hrun & Hlen' & Hlo & Hhi & Hcap' & Hall').
    exists xs', ys'. split; [exact Hrun|].
    rewrite length_app in Hlo, Hhi, Hcap'.
    rewrite Nat2Z.inj_succ, Z.mul_succ_l.
    split; [exact Hlen'|]. split; [lia|]. split; [lia|].
    split; [|exact Hall'].
    intros c Hc Hc1. specialize (Hcap' c Hc Hc1). specialize (Hcapb c Hc).
    rewrite Z.mul_succ_l. lia.
Qed.

(** X10.  [collect_positions] returns, whatever the policy: as many [xs] as [ys],
    at least one position and at most [max_steps] positions an episode (at
    most the [max_steps] argument, when one is given), and every [ys] entry,
    the height of the player's centre, at least half the player's height. *)
Theorem collect_positions_bounds (p : Preset)
        (policy : nat -> nat -> list Q -> Z * Z) (n_episodes : nat)
        (cap : option Z) (fuel : nat) :
  surfaces_nonneg p ->
  (0 < max_steps p)%Z ->
  (max_steps p <= Z.of_nat fuel)%Z ->
  exists xs ys,
    collect_positions p policy n_episodes cap fuel = Ok (Some (xs, ys))
    /\ length xs = length ys
    /\ (n_episodes <= length xs)%nat
    /\ (Z.of_nat (length xs) <= Z.of_nat n_episodes * max_steps p)%Z
    /\ (forall c, cap = Some c -> (1 <= c)%Z ->
                  (Z.of_nat (length xs) <= Z.of_nat n_episodes * c)%Z)
    /\ Forall (fun y => player_height p / 2 <= y) ys.
Proof.
  intros Hsurf Hpos Hfuel.
  destruct (collect_episodes_ends p policy cap fuel n_episodes Hsurf Hpos
                                  Hfuel 0%nat init [] [] eq_refl
                                  (Forall_nil _))
    as (xs & ys & Hrun & Hlen & Hlo & Hhi & Hcap & Hall).
  exists xs, ys. cbn [length] in *.
  split; [exact Hrun|]. split; [exact Hlen|]. split; [lia|]. split; [lia|].
  split; [|exact Hall].
  intros c Hc Hc1. specialize (Hcap c Hc Hc1). lia.
Qed.

Lemma collect_positions_bounds_witness :
  exists xs ys,
    collect_positions v0 (fun _ _ _ => (2, 1)%Z) 3 (Some 5%Z) 1000
    = Ok (Some (xs, ys))
    /\ length xs = length ys
    /\ (3 <= length xs)%nat
    /\ (Z.of_nat (length xs) <= 3 * max_steps v0)%Z
    /\ (forall c, Some 5%Z = Some c -> (1 <= c)%Z ->
                  (Z.of_nat (length xs) <= 3 * c)%Z)
    /\ Forall (fun y => player_height v0 / 2 <= y) ys.
Proof.
  exact (collect_positions_bounds v0 (fun _ _ _ => (2, 1)%Z) 3 (Some 5%Z) 1000
                                  surfaces_v0 eq_refl
                                  ltac:(vm_compute; discriminate)).
Defined.

(** ** Counting how episodes end *)

Lemma count_dones_totals (pairs : list (bool * Info)) :
  forall st,
    let st' := count_dones st pairs in
    (terminated_count st' + truncated_count st'
     = terminated_count st + truncated_count st
       + Z.of_nat (length (filter fst pairs)))%Z
    /\ (terminated_count st <= terminated_count st')%Z
    /\ (truncated_count st <= truncated_count st')%Z.
Proof.
  induction pairs as [|[done info] rest IH]; intros st; cbn zeta.
  - simpl. lia.
  - cbn [count_dones filter fst].
    destruct done; [destruct (dict_get info "TimeLimit.truncated"%string false)|];
      match goal with
      | |- context [count_dones ?s rest] => specialize (IH s)
      end; cbn zeta in IH; cbn [terminated_count truncated_count length] in *;
      lia.
Qed.

Lemma count_dones_no_key (pairs : list (bool * Info)) :
  Forall (fun pr => dict_get (snd pr) "TimeLimit.truncated"%string false = false)
         pairs ->
  forall st, truncated_count (count_dones st pairs) = truncated_count st.
Proof.
  induction 1 as [|[done info] rest Hkey _ IH]; intros st; [reflexivity|].
  cbn [count_dones snd] in *. rewrite Hkey.
  destruct done; rewrite IH; reflexivity.
Qed.

Lemma filter_combine_dones (ds : list bool) (il : list Info) :
  length (filter fst (combine ds il))
  = length (filter (fun d => d) (firstn (length il) ds)).
Proof.
  revert il. induction ds as [|d ds IH]; intros [|i il]; simpl;
    try reflexivity.
  destruct d; simpl; rewrite IH; reflexivity.
Qed.

Lemma Forall_combine_snd (P : Info -> Prop) (il : list Info) :
  Forall P il ->
  forall ds : list bool, Forall (fun pr => P (snd pr)) (combine ds il).
Proof.
  induction 1 as [|i il Hi _ IH]; intros [|d ds]; simpl; constructor;
    [exact Hi | apply IH].
Qed.

(** X11.  [_on_step] counts every finished episode once: the two counters never
    go down and together go up by the number of [done] entries that have an
    [info] beside them ([zip] stops at the shorter list).  An [info]
    without the key ["TimeLimit.truncated"] counts as terminated.  When
    [dones] or [infos] is missing nothing is counted.  Training is always
    told to go on. *)
Theorem on_step_counts (st : Stats) (dones : option (list bool))
        (infos : option (list Info)) :
  snd (_on_step st dones infos) = true
  /\ (dones = None \/ infos = None -> fst (_on_step st dones infos) = st)
  /\ (forall ds il,
         dones = Some ds -> infos = Some il ->
         let st' := fst (_on_step st dones infos) in
         (terminated_count st' + truncated_count st'
          = terminated_count st + truncated_count st
            + Z.of_nat (length (filter (fun d => d)
                                       (firstn (length il) ds))))%Z
         /\ (terminated_count st <= terminated_count st')%Z
         /\ (truncated_count st <= truncated_count st')%Z
         /\ (Forall (fun info =>
                       dict_get info "TimeLimit.truncated"%string false = false) il ->
             truncated_count st' = truncated_count st)).
Proof.
  split; [destruct dones, infos; reflexivity|].
  split; [intros [-> | ->]; [|destruct dones]; reflexivity|].
  intros ds il -> ->. cbn [_on_step fst].
  destruct (count_dones_totals (combine ds il) st) as (Htot & Hterm & Htrunc).
  split; [|split; [exact Hterm | split; [exact Htrunc|]]].
  - rewrite Htot, filter_combine_dones. reflexivity.
  - intros Hkeys. apply count_dones_no_key.
    exact (Forall_combine_snd
             (fun info => dict_get info "TimeLimit.truncated"%string false
                          = false) il Hkeys ds).
Qed.

Lemma on_step_counts_witness :
  let st := {| terminated_count := 4; truncated_count := 1 |} in
  let dones := [true; false; true; true] in
  let infos := [ [("TimeLimit.truncated"%string, true)]; []; [] ] in
  fst (_on_step st (Some dones) (Some infos))
  = {| terminated_count := 5; truncated_count := 2 |}
  /\ (terminated_count (fst (_on_step st (Some dones) (Some infos)))
      + truncated_count (fst (_on_step st (Some dones) (Some infos)))
      = 4 + 1 + 2)%Z.
Proof.
  intros st dones infos. split; [reflexivity|].
  destruct (on_step_counts st (Some dones) (Some infos)) as (_ & _ & H).
  destruct (H dones infos eq_refl eq_refl) as (Htot & _).
  exact Htot.
Defined.

(** ** World and screen coordinates *)

Lemma Qnum_nonneg (q : Q) : 0 <= q <-> (0 <= Qnum q)%Z.
Proof. destruct q as [n d]. unfold Qle. simpl. lia. Qed.

Lemma Qnum_nonpos (q : Q) : q <= 0 <-> (Qnum q <= 0)%Z.
Proof. destruct q as [n d]. unfold Qle. simpl. lia. Qed.

Lemma py_int_floor (q : Q) : 0 <= q -> py_int q = Qfloor q.
Proof.
  intros Hq. apply Qnum_nonneg in Hq. destruct q as [n d].
  unfold py_int, Qfloor. simpl in *. apply Z.quot_div_nonneg; lia.
Qed.

Lemma py_int_ceiling (q : Q) : q <= 0 -> py_int q = Qceiling q.
Proof.
  intros Hq. apply Qnum_nonpos in Hq. destruct q as [n d].
  unfold py_int, Qceiling, Qfloor. simpl in *.
  rewrite <- (Z.opp_involutive n) at 1.
  rewrite Z.quot_opp_l by lia. f_equal. apply Z.quot_div_nonneg; lia.
Qed.

Lemma py_int_le (q1 q2 : Q) : q1 <= q2 -> (py_int q1 <= py_int q2)%Z.
Proof.
  intros Hle.
  destruct (Qlt_le_dec q1 0) as [H1 | H1], (Qlt_le_dec q2 0) as [H2 | H2].
  - rewrite !py_int_ceiling by lra. apply Qceiling_resp_le, Hle.
  - rewrite py_int_ceiling, py_int_floor by lra.
    apply Z.le_trans with 0%Z.
    + change 0%Z with (Qceiling 0). apply Qceiling_resp_le. lra.
    + change 0%Z with (Qfloor 0). apply Qfloor_resp_le, H2.
  - lra.
  - rewrite !py_int_floor by lra. apply Qfloor_resp_le, Hle.
Qed.

Lemma py_int_near (q : Q) :
  q - 1 < inject_Z (py_int q) /\ inject_Z (py_int q) < q + 1.
Proof.
  destruct (Qlt_le_dec q 0) as [H | H].
  - rewrite py_int_ceiling by lra.
    pose proof (Qle_ceiling q) as Hc. pose proof (Qceiling_lt q) as Hl.
    unfold Z.sub in Hl. rewrite inject_Z_plus, inject_Z_opp in Hl.
    change (inject_Z 1) with 1 in Hl. split; lra.
  - rewrite py_int_floor by lra.
    pose proof (Qfloor_le q) as Hf. pose proof (Qlt_floor q) as Hl.
    rewrite inject_Z_plus in Hl. change (inject_Z 1) with 1 in Hl.
    split; lra.
Qed.

Lemma py_int_zero (q : Q) : q == 0 -> py_int q = 0%Z.
Proof.
  intros Hq. rewrite py_int_floor by lra. rewrite Hq. reflexivity.
Qed.

(** X12.  [_world_to_screen] keeps the order of the world along x and turns it
    over along y (the screen's y grows downwards), and is never a full
    pixel off the exact position. *)
Theorem world_to_screen_order (scale screen_height : Z)
        (wx1 wy1 wx2 wy2 : Q) :
  (0 <= scale)%Z ->
  (wx1 <= wx2 ->
   (fst (_world_to_screen scale screen_height wx1 wy1)
    <= fst (_world_to_screen scale screen_height wx2 wy2))%Z)
  /\ (wy1 <= wy2 ->
      (snd (_world_to_screen scale screen_height wx2 wy2)
       <= snd (_world_to_screen scale screen_height wx1 wy1))%Z)
  /\ Qabs (inject_Z (fst (_world_to_screen scale screen_height wx1 wy1))
           - (wx1 * inject_Z scale + 50)) < 1
  /\ Qabs (inject_Z (snd (_world_to_screen scale screen_height wx1 wy1))
           - (inject_Z screen_height - (wy1 * inject_Z scale + 50))) < 1.
Proof.
  intros Hscale.
  assert (Hs : 0 <= inject_Z scale)
    by (change 0 with (inject_Z 0); rewrite <- Zle_Qle; exact Hscale).
  unfold _world_to_screen. cbn [fst snd]. repeat split.
  - intros Hx. apply py_int_le. nra.
  - intros Hy. apply py_int_le. nra.
  - apply Qabs_Qlt_condition.
    destruct (py_int_near (wx1 * inject_Z scale + 50)). split; lra.
  - apply Qabs_Qlt_condition.
    destruct (py_int_near (inject_Z screen_height
                           - (wy1 * inject_Z scale + 50))). split; lra.
Qed.

Lemma world_to_screen_order_witness :
  (fst (_world_to_screen 30 400 (-5) 0) <= fst (_world_to_screen 30 400 9.7 7))%Z
  /\ (snd (_world_to_screen 30 400 9.7 7) <= snd (_world_to_screen 30 400 (-5) 0))%Z.
Proof.
  destruct (world_to_screen_order 30 400 (-5) 0 9.7 7 ltac:(discriminate))
    as (Hx & Hy & _).
  split; [apply Hx | apply Hy]; discriminate.
Defined.

(** X13.  The extent the heatmap gives the background image matches the
    renderer's mapping at the image's top left corner: the world point
    [(x_min, y_max)] is drawn at pixel [(0, 0)]. *)
Theorem background_extent_corner (scale width height : Z) :
  (0 < scale)%Z ->
  let '(x_min, _, _, y_max) := background_extent scale width height in
  _world_to_screen scale height x_min y_max = (0%Z, 0%Z).
Proof.
  intros Hscale.
  assert (Hs : ~ inject_Z scale == 0).
  { intros H. assert (H' : 0 < inject_Z scale)
      by (change 0 with (inject_Z 0); rewrite <- Zlt_Qlt; exact Hscale).
    lra. }
  unfold background_extent, _world_to_screen. cbv zeta. f_equal.
  - apply py_int_zero. field. exact Hs.
  - apply py_int_zero. field. exact Hs.
Qed.

Lemma background_extent_corner_witness :
  _world_to_screen 30 400 ((0 - 50) / inject_Z 30)
                   ((inject_Z 400 - 50) / inject_Z 30)
  = (0%Z, 0%Z).
Proof.
  exact (background_extent_corner 30 900 400 eq_refl).
Defined.

(** ** Running to the left *)

(** Any number of steps to the left, as long as the player stays within
    100 of the origin. *)
Lemma run_fl_left (fl : rounding) (p : Preset) (n : nat) :
  close fl -> plain_level p ->
  forall (e : Env) (x y vx vy : Q),
    state e = Some (x, y, vx, vy) -> y == 0 -> vy == 0 ->
    x <= 2 -> -99 + 0.0801 * inject_Z (Z.of_nat n) <= x ->
    exists e' flags x' y' vx' vy',
      run_fl fl p e (left_only n) = Ok (e', flags)
      /\ state e' = Some (x', y', vx', vy')
      /\ y' == 0 /\ vy' == 0
      /\ x - 0.08005 * inject_Z (Z.of_nat n) <= x'
      /\ x' <= x - 0.07995 * inject_Z (Z.of_nat n)
      /\ map fst flags = repeat false n
      /\ steps e' = (steps e + Z.of_nat n)%Z.
Proof.
  intros Hc Hp. pose proof Hp as (_ & _ & Hm & _).
  induction n as [|n IH]; intros e x y vx vy Hs Hy Hvy Hhi Hlo.
  - exists e, [], x, y, vx, vy. cbn [left_only repeat run_fl map].
    change (inject_Z (Z.of_nat 0)) with 0.
    repeat split; try assumption; try lra. lia.
  - pose proof (inject_nat_succ n) as HS.
    pose proof (inject_nat_nonneg n) as Hn0.
    destruct (step_fl_floor (fl (steps e + 1)%Z) (close_step fl _ Hc)
                            p e x y vx vy 100 1 Hp Hs Hy Hvy
                            ltac:(lra) ltac:(lra) ltac:(lra) Hhi)
      as (e1 & x1 & y1 & vx1 & vy1 & Hstep & Hs1 & Hy1 & Hvy1 & Hx1 & Hx2
          & Hn1).
    assert (Hhc : horizontal_control p 1 == -4)
      by (unfold horizontal_control; cbn [Z.eqb Pos.eqb]; lra).
    destruct (IH e1 x1 y1 vx1 vy1 Hs1 Hy1 Hvy1 ltac:(lra) ltac:(lra))
      as (e' & flags & x' & y' & vx' & vy' & Hrun & Hs' & Hy' & Hvy'
          & Hlo' & Hhi' & Hflags & Hn').
    exists e', ((false, (steps e + 1 >=? max_steps p)%Z) :: flags),
      x', y', vx', vy'.
    cbn [left_only repeat run_fl]. fold (left_only n).
    rewrite Hstep, Hrun. cbn [map fst repeat]. rewrite Hflags.
    repeat split; try assumption; try lra. lia.
Qed.

(** X14.  The level has no left boundary.  In both presets, whatever the
    rounding, running to the left from the start for [n] steps of an
    episode raises nothing and takes the player 0.08 to the left with every
    step, up to a rounding error of 0.00005 a step: after [n] steps it is
    within [0.00005 n + 0.0000001] of [x = 1 - 0.08 n], on the ground, and
    no step returns [terminated]. *)
Theorem no_left_boundary (fl : rounding) (p : Preset) (e0 : Env)
        (seed : option Z) (n : nat) :
  close fl ->
  p = v0 \/ p = v1 ->
  (Z.of_nat n <= max_steps p)%Z ->
  exists e flags x y vx vy,
    run_fl fl p (reset_fl fl p e0 seed) (left_only n) = Ok (e, flags)
    /\ state e = Some (x, y, vx, vy)
    /\ Qabs (x - (1 - 0.08 * inject_Z (Z.of_nat n)))
       <= 0.00005 * inject_Z (Z.of_nat n) + 0.0000001
    /\ y == 0
    /\ map fst flags = repeat false n.
Proof.
  intros Hc Hp Hn.
  pose proof (plain_level_presets p Hp) as Hplain.
  pose proof Hplain as (_ & _ & _ & _ & _ & _ & Hsx & Hsy & _).
  assert (Hmax : max_steps p = 1000%Z) by (destruct Hp as [-> | ->]; reflexivity).
  assert (Hn' : inject_Z (Z.of_nat n) <= 1000).
  { change 1000 with (inject_Z 1000). rewrite <- Zle_Qle. lia. }
  pose proof (inject_nat_nonneg n) as Hn0.
  destruct (fl_within (fl 0%Z) (close_step fl _ Hc) 1 9100 (start_x p))
    as [X1 X2]; [lra .. |].
  destruct (run_fl_left fl p n Hc Hplain (reset_fl fl p e0 seed)
                        _ _ _ _ eq_refl
                        (fl_zero _ (close_step fl _ Hc) _ _ Hsy)
                        (fl_zero _ (close_step fl _ Hc) _ _ (Qeq_refl 0))
                        ltac:(lra) ltac:(lra))
    as (e & flags & x & y & vx & vy & Hrun & Hs & Hy & _ & Hlo & Hhi
        & Hflags & _).
  exists e, flags, x, y, vx, vy. split; [exact Hrun|].
  split; [exact Hs|]. split; [|split; assumption].
  apply Qabs_Qle_condition. split; lra.
Qed.

Lemma no_left_boundary_witness :
  exists e flags x y vx vy,
    run_fl unrounded v1 (reset_fl unrounded v1 init None) (left_only 1000)
    = Ok (e, flags)
    /\ state e = Some (x, y, vx, vy)
    /\ Qabs (x - (1 - 0.08 * inject_Z (Z.of_nat 1000)))
       <= 0.00005 * inject_Z (Z.of_nat 1000) + 0.0000001
    /\ y == 0
    /\ map fst flags = repeat false 1000.
Proof.
  exact (no_left_boundary unrounded v1 init None 1000 close_unrounded
                          (or_intror eq_refl) ltac:(vm_compute; discriminate)).
Defined.

(** ** Many agents at once *)

Lemma multi_start_ok (p : Preset) (n_agents : nat) :
  (0 < max_steps p)%Z -> Forall (agent_ok p) (multi_start p n_agents).
Proof.
  intros Hpos. unfold multi_start. apply Forall_forall.
  intros a Hin. apply repeat_spec in Hin. subst a. cbn.
  split; [eexists; reflexivity|]. split; lia.
Qed.

(** A frame steps every agent once, after resetting it if it was done, and
    keeps every agent within its episode. *)
Lemma multi_step_all_keeps (p : Preset)
      (policy : nat -> list Q -> Z * Z) (agents : list Agent) (i : nat) :
  (0 < max_steps p)%Z ->
  Forall (agent_ok p) agents ->
  exists agents' positions,
    multi_step_all p policy i agents = Ok (agents', positions)
    /\ Forall (agent_ok p) agents'
    /\ length agents' = length agents
    /\ length positions = length agents
    /\ forall j a,
        nth_error agents j = Some a ->
        exists a',
          nth_error agents' j = Some a'
          /\ stepped p policy (i + j) a a'.
Proof.
  intros Hpos Hall. revert i.
  induction Hall as [|[[e o] done] rest Hagent _ IH]; intros i.
  - exists [], []. split; [reflexivity|]. split; [constructor|].
    split; [reflexivity|]. split; [reflexivity|].
    intros [|j] a H; discriminate H.
  - cbn [multi_step_all].
    assert (Hready : exists e0 o0 s0,
               (if done then reset p e None else (e, o)) = (e0, o0)
               /\ state e0 = Some s0
               /\ (0 <= steps e0 < max_steps p)%Z
               /\ steps e0 = (if done then 0 else steps e)%Z
               /\ (if done
                   then step p (fst (reset p e None))
                             (policy i (snd (reset p e None)))
                   else step p e (policy i o)) = step p e0 (policy i o0)).
    { destruct Hagent as ([s Hs] & Hrange & Hdone). destruct done.
      - do 3 eexists. split; [reflexivity|]. split; [reflexivity|].
        cbn [reset steps fst snd]. repeat split; lia.
      - exists e, o, s. split; [reflexivity|]. split; [exact Hs|].
        specialize (Hdone eq_refl). repeat split; lia. }
    destruct Hready as (e0 & o0 & s0 & -> & Hs0 & Hrange0 & Hn0 & Hsame).
    destruct (step_returns p e0 (policy i o0) s0 Hs0)
      as (e' & r & s' & Hstep & Hs' & Hn' & Htr).
    rewrite Hstep, Hs'. destruct s' as [[[x y] vx] vy].
    destruct (IH (S i))
      as (rest' & positions & -> & Hrest & Hlen & Hpos' & Hnth).
    do 2 eexists. split; [reflexivity|]. cbn [length].
    split; [|split; [congruence|split; [congruence|]]].
    + constructor; [|exact Hrest].
      split; [eexists; exact Hs'|]. split; [lia|].
      intros Hnot. apply orb_false_iff in Hnot as [_ Hnot].
      rewrite Htr in Hnot. lia.
    + intros [|j] a Ha; cbn [nth_error] in Ha |- *.
      * injection Ha as <-. eexists. split; [reflexivity|].
        cbn [stepped]. exists r. rewrite Nat.add_0_r, Hsame.
        split; [exact Hstep|]. split; [reflexivity|].
        split; [reflexivity|]. rewrite Hn', Hn0. destruct done; reflexivity.
      * destruct (Hnth j a Ha) as (a' & Ha' & Hst).
        exists a'. split; [exact Ha'|].
        replace (i + S j)%nat with (S i + j)%nat by lia. exact Hst.
Qed.

Lemma multi_frames_keep (p : Preset)
      (policy : nat -> nat -> list Q -> Z * Z) (frames : nat) :
  (0 < max_steps p)%Z ->
  forall (k : nat) (agents : list Agent),
    Forall (agent_ok p) agents ->
    exists agents',
      multi_frames p policy frames k agents = Ok agents'
      /\ Forall (agent_ok p) agents'
      /\ length agents' = length agents.
Proof.
  intros Hpos. induction frames as [|frames IH]; intros k agents Hall.
  - exists agents. repeat split. exact Hall.
  - cbn [multi_frames].
    destruct (multi_step_all_keeps p (policy k) agents 0 Hpos Hall)
      as (agents1 & positions & -> & Hall1 & Hlen1 & _).
    destruct (IH (S k) agents1 Hall1) as (agents' & -> & Hall' & Hlen').
    exists agents'. split; [reflexivity|]. split; [exact Hall'|]. congruence.
Qed.

(** One more round is one more "step all agents" loop at the end. *)
Lemma multi_frames_succ (p : Preset)
      (policy : nat -> nat -> list Q -> Z * Z) (frames : nat) :
  forall (k : nat) (agents : list Agent),
    multi_frames p policy (S frames) k agents
    = match multi_frames p policy frames k agents with
      | Raise err => Raise err
      | Ok agents1 =>
          match multi_step_all p (policy (k + frames)%nat) 0 agents1 with
          | Raise err => Raise err
          | Ok (agents2, _) => Ok agents2
          end
      end.
Proof.
  induction frames as [|frames IH]; intros k agents.
  - cbn [multi_frames]. rewrite Nat.add_0_r.
    destruct (multi_step_all p (policy k) 0 agents) as [[a1 ps]|];
      reflexivity.
  - change (multi_frames p policy (S (S frames)) k agents)
      with (match multi_step_all p (policy k) 0 agents with
            | Raise err => Raise err
            | Ok (agents', _) =>
                multi_frames p policy (S frames) (S k) agents'
            end).
    change (multi_frames p policy (S frames) k agents)
      with (match multi_step_all p (policy k) 0 agents with
            | Raise err => Raise err
            | Ok (agents', _) => multi_frames p policy frames (S k) agents'
            end).
    destruct (multi_step_all p (policy k) 0 agents) as [[a1 ps]|];
      [|reflexivity].
    rewrite IH. replace (S k + frames)%nat with (k + S frames)%nat by lia.
    reflexivity.
Qed.

(** X16.  [run_multi] never steps an instance past the end of its episode:
    an agent whose last step returned [terminated] or [truncated] is reset
    before it is stepped again.  Whatever the policy and the numbers of
    agents and of rounds: the rounds so far and the next one raise nothing;
    every agent has a state, a step count of at most [max_steps], and is
    flagged done if it is at [max_steps]; and the next round takes every
    agent one step on, from the reset instance if the agent was flagged
    done (its step count is then 1) and from its own instance otherwise,
    and flags it done exactly if that step returned [terminated] or
    [truncated]. *)
Theorem run_multi_keeps_episodes (p : Preset)
        (policy : nat -> nat -> list Q -> Z * Z) (n_agents frames : nat) :
  (0 < max_steps p)%Z ->
  exists agents agents',
    run_multi p policy n_agents frames = Ok agents
    /\ run_multi p policy n_agents (S frames) = Ok agents'
    /\ length agents = n_agents
    /\ length agents' = n_agents
    /\ Forall (agent_ok p) agents
    /\ forall i a,
        nth_error agents i = Some a ->
        exists a',
          nth_error agents' i = Some a'
          /\ stepped p (policy frames) i a a'.
Proof.
  intros Hpos. unfold run_multi. rewrite multi_frames_succ.
  destruct (multi_frames_keep p policy frames Hpos 0 (multi_start p n_agents)
                              (multi_start_ok p n_agents Hpos))
    as (agents & Hrun & Hall & Hlen).
  rewrite Hrun. cbn [Nat.add].
  destruct (multi_step_all_keeps p (policy frames) agents 0 Hpos Hall)
    as (agents' & positions & Hframe & _ & Hlen' & _ & Hnth).
  rewrite Hframe.
  assert (Hn : length agents = n_agents)
    by (rewrite Hlen; unfold multi_start; apply repeat_length).
  exists agents, agents'. split; [reflexivity|]. split; [reflexivity|].
  split; [exact Hn|]. split; [congruence|]. split; [exact Hall|].
  exact Hnth.
Qed.

Lemma run_multi_keeps_episodes_witness :
  exists agents agents',
    run_multi v0 (fun _ _ _ => (2, 1)%Z) 3 1005 = Ok agents
    /\ run_multi v0 (fun _ _ _ => (2, 1)%Z) 3 1006 = Ok agents'
    /\ length agents = 3%nat
    /\ length agents' = 3%nat
    /\ Forall (agent_ok v0) agents
    /\ forall i a,
        nth_error agents i = Some a ->
        exists a',
          nth_error agents' i = Some a'
          /\ stepped v0 (fun _ _ => (2, 1)%Z) i a a'.
Proof.
  exact (run_multi_keeps_episodes v0 (fun _ _ _ => (2, 1)%Z) 3 1005 eq_refl).
Defined.
